(** * notion-uploader: the Markdown-to-Notion-block converter

    A shallow embedding of the three revisions of the Netlify function
    [upload-notion.js] found in the repository:

    - [src/netlify/functions/upload-notion.js]  (module [UploadNotion]),
    - [src/unnamed/part_000]                    (module [Part000]),
    - [src/unnamed/part_001]                    (module [Part001]).

    JavaScript strings are modelled as lists of code units; code units are
    restricted to the range 0..255 ([ascii]).  In that range the white
    space of [String.prototype.trim] and of the regular-expression class
    [\s] is TAB, LF, VT, FF, CR, SPACE and NBSP. *)

From Stdlib Require Import String Ascii DecimalString List Bool Arith Lia.
From Stdlib Require Import Sorted Permutation.
From Stdlib Require Import SpecFloat.
Import ListNotations.

Set Implicit Arguments.

(* ================================================================== *)
(** ** JavaScript strings *)
(* ================================================================== *)

Definition jsstring := list ascii.

Definition lit (s : string) : jsstring := list_ascii_of_string s.
Arguments lit s%_string : simpl never.

Definition LF : ascii := "010"%char.
Definition CR : ascii := "013"%char.

Definition mem (c : ascii) (l : list ascii) : bool :=
  existsb (Ascii.eqb c) l.

(** White space and line terminators below U+0100. *)
Definition whitespace : list ascii :=
  ["009"; "010"; "011"; "012"; "013"; " "; "160"]%char.

Definition isSpace (c : ascii) : bool := mem c whitespace.

Definition isDigit (c : ascii) : bool := mem c (lit "0123456789").

Fixpoint dropWhile (p : ascii -> bool) (s : jsstring) : jsstring :=
  match s with
  | [] => []
  | c :: s' => if p c then dropWhile p s' else s
  end.

Fixpoint takeWhile (p : ascii -> bool) (s : jsstring) : jsstring :=
  match s with
  | [] => []
  | c :: s' => if p c then c :: takeWhile p s' else []
  end.

Definition trimStart (s : jsstring) : jsstring := dropWhile isSpace s.
Definition trimEnd (s : jsstring) : jsstring := rev (dropWhile isSpace (rev s)).

(** [s.trim()] *)
Definition trim (s : jsstring) : jsstring := trimEnd (trimStart s).

(** [s.startsWith(p)] *)
Fixpoint startsWith (s p : jsstring) : bool :=
  match p, s with
  | [], _ => true
  | _ :: _, [] => false
  | a :: p', c :: s' => Ascii.eqb c a && startsWith s' p'
  end.

(** [s.endsWith(p)] *)
Definition endsWith (s p : jsstring) : bool := startsWith (rev s) (rev p).

(** Truthiness of a string: [if (s)]. *)
Definition truthy (s : jsstring) : bool :=
  match s with [] => false | _ :: _ => true end.

(** [s.substring(a, b)] on non-negative arguments: both are clamped to the
    length and swapped when [a > b]. *)
Definition substring (s : jsstring) (a b : nat) : jsstring :=
  let a' := Nat.min a (length s) in
  let b' := Nat.min b (length s) in
  let lo := Nat.min a' b' in
  let hi := Nat.max a' b' in
  firstn (hi - lo) (skipn lo s).

(** [s.substring(a)] *)
Definition substringFrom (s : jsstring) (a : nat) : jsstring :=
  substring s a (length s).

(** [s.slice(1, -1)] *)
Definition slice_1_m1 (s : jsstring) : jsstring :=
  firstn (length s - 1 - 1) (skipn 1 s).

(** [s.lastIndexOf(p)]; [None] stands for [-1]. *)
Fixpoint lastIndexOf (s p : jsstring) : option nat :=
  match s with
  | [] => if startsWith [] p then Some 0 else None
  | _ :: s' =>
      match lastIndexOf s' p with
      | Some k => Some (S k)
      | None => if startsWith s p then Some 0 else None
      end
  end.

(** An index that may be [-1], used as an argument of [substring]:
    negative arguments are clamped to [0]. *)
Definition clampIndex (k : option nat) : nat :=
  match k with Some n => n | None => 0 end.

(** [s.includes(p)] *)
Fixpoint includes (s p : jsstring) : bool :=
  startsWith s p ||
  match s with
  | [] => false
  | _ :: s' => includes s' p
  end.

(** [s.replace(p, r)] with a string pattern: the first occurrence only. *)
Fixpoint replaceStr (s p r : jsstring) : jsstring :=
  if startsWith s p then r ++ skipn (length p) s
  else match s with
       | [] => []
       | c :: s' => c :: replaceStr s' p r
       end.

(** [s.split(c)] for a one-character separator. *)
Fixpoint splitOn (sep : ascii) (s : jsstring) : list jsstring :=
  match s with
  | [] => [[]]
  | c :: s' =>
      if Ascii.eqb c sep then [] :: splitOn sep s'
      else match splitOn sep s' with
           | p :: ps => (c :: p) :: ps
           | [] => [[c]]
           end
  end.

(** [l.join(sep)] *)
Fixpoint join (sep : jsstring) (l : list jsstring) : jsstring :=
  match l with
  | [] => []
  | [x] => x
  | x :: l' => x ++ sep ++ join sep l'
  end.

(** [parseInt(s)] on a string of decimal digits. *)
Definition digitValue (c : ascii) : nat := nat_of_ascii c - 48.

Definition parseDigits (s : jsstring) : nat :=
  fold_left (fun acc c => 10 * acc + digitValue c) s 0.

(** [String(n)] for a non-negative integer: its decimal digits. *)
Definition toDecimal (n : nat) : jsstring :=
  lit (NilZero.string_of_uint (Nat.to_uint n)).

(* ================================================================== *)
(** ** Regular expressions

    The fragment of ECMAScript regular expressions the sources use:
    literal characters and character classes, greedy and lazy repetition of
    a class, concatenation, capture groups, the anchor [^] (no [m] flag),
    and one-character negative lookbehind and lookahead.  The matcher is the
    backtracking matcher of the language, written as a list of successes in
    priority order: the first element is the match the engine returns. *)
(* ================================================================== *)

Inductive charset : Type :=
| COneOf (l : list ascii)     (* a literal, or [abc] *)
| CNoneOf (l : list ascii)    (* [^abc] *)
| CDigit                      (* \d *)
| CSpace.                     (* \s *)

Definition inClass (cs : charset) (c : ascii) : bool :=
  match cs with
  | COneOf l => mem c l
  | CNoneOf l => negb (mem c l)
  | CDigit => isDigit c
  | CSpace => isSpace c
  end.

Inductive regex : Type :=
| REps
| RSet (cs : charset)
| RRep (greedy : bool) (min : nat) (cs : charset)
| RSeq (r1 r2 : regex)
| RGroup (n : nat) (r : regex)
| RBol
| RNotBehind (cs : charset)
| RNotAhead (cs : charset).

Definition RChar (c : ascii) : regex := RSet (COneOf [c]).
Definition RStar (cs : charset) : regex := RRep true 0 cs.
Definition RPlus (cs : charset) : regex := RRep true 1 cs.
Definition RStarLazy (cs : charset) : regex := RRep false 0 cs.
Definition RPlusLazy (cs : charset) : regex := RRep false 1 cs.
Definition rcat (rs : list regex) : regex := fold_right RSeq REps rs.
Definition RStr (s : string) : regex := rcat (map RChar (lit s)).
Arguments RStr s%_string.

(** A matcher state: the text to the left of the cursor (reversed), the
    text to the right, and the captures recorded so far. *)
Record mstate : Type := MState {
  consumed : list ascii;
  remaining : list ascii;
  captures : list (nat * jsstring)
}.

Definition position (st : mstate) : nat := length (consumed st).

Fixpoint rep (greedy : bool) (cs : charset) (min : nat)
    (bef rem : list ascii) (caps : list (nat * jsstring)) : list mstate :=
  let stop := match min with
              | 0 => [MState bef rem caps]
              | S _ => []
              end in
  let more := match rem with
              | c :: rem' =>
                  if inClass cs c then rep greedy cs (pred min) (c :: bef) rem' caps
                  else []
              | [] => []
              end in
  if greedy then more ++ stop else stop ++ more.

Definition setCapture (n : nat) (st0 st : mstate) : mstate :=
  let txt := rev (firstn (position st - position st0) (consumed st)) in
  MState (consumed st) (remaining st) ((n, txt) :: captures st).

Fixpoint rmatch (r : regex) (st : mstate) : list mstate :=
  match r with
  | REps => [st]
  | RSet cs =>
      match remaining st with
      | c :: rem' =>
          if inClass cs c then [MState (c :: consumed st) rem' (captures st)]
          else []
      | [] => []
      end
  | RRep g min cs => rep g cs min (consumed st) (remaining st) (captures st)
  | RSeq r1 r2 => flat_map (rmatch r2) (rmatch r1 st)
  | RGroup n r' => map (setCapture n st) (rmatch r' st)
  | RBol => match consumed st with [] => [st] | _ :: _ => [] end
  | RNotBehind cs =>
      match consumed st with
      | c :: _ => if inClass cs c then [] else [st]
      | [] => [st]
      end
  | RNotAhead cs =>
      match remaining st with
      | c :: _ => if inClass cs c then [] else [st]
      | [] => [st]
      end
  end.

(** The value of capture group [n]; [None] is [undefined]. *)
Fixpoint lookupCapture (n : nat) (caps : list (nat * jsstring)) : option jsstring :=
  match caps with
  | [] => None
  | (k, s) :: caps' => if Nat.eqb k n then Some s else lookupCapture n caps'
  end.

(** A successful match, as the array [exec] returns. *)
Record rmatchResult : Type := MatchResult {
  m_index : nat;              (* match.index *)
  m_end : nat;                (* match.index + match[0].length *)
  m_text : jsstring;          (* match[0] *)
  m_caps : list (nat * jsstring)
}.

Definition m_group (n : nat) (m : rmatchResult) : option jsstring :=
  lookupCapture n (m_caps m).

(** Every group of a pattern of this fragment takes part in every match, so
    the string value of a group inside the pattern is never [undefined]. *)
Definition m_groupStr (n : nat) (m : rmatchResult) : jsstring :=
  match m_group n m with Some s => s | None => [] end.

(** The match that starts exactly at the cursor, if any, with the matcher
    state at its end. *)
Definition matchHere (r : regex) (bef rem : list ascii)
  : option (rmatchResult * mstate) :=
  match rmatch r (MState bef rem []) with
  | [] => None
  | st :: _ =>
      Some (MatchResult (length bef) (position st)
              (rev (firstn (position st - length bef) (consumed st)))
              (captures st), st)
  end.

(** The leftmost match at or after the cursor: the engine tries every start
    position up to and including the end of the text. *)
Fixpoint search (r : regex) (bef rem : list ascii)
  : option (rmatchResult * mstate) :=
  match matchHere r bef rem with
  | Some res => Some res
  | None =>
      match rem with
      | [] => None
      | c :: rem' => search r (c :: bef) rem'
      end
  end.

(** [r.test(s)] and [s.match(r)] for a regex without the [g] flag. *)
Definition test (r : regex) (s : jsstring) : bool :=
  match search r [] s with Some _ => true | None => false end.

Definition matchFirst (r : regex) (s : jsstring) : option rmatchResult :=
  option_map fst (search r [] s).

(** [s.replace(r, rep)] for a regex without the [g] flag. *)
Definition replaceFirst (r : regex) (rep s : jsstring) : jsstring :=
  match search r [] s with
  | Some (m, st) => firstn (m_index m) s ++ rep ++ remaining st
  | None => s
  end.

(** The successive matches a [g] regex yields inside [String.prototype.replace]:
    the next search starts at the end of the previous match, one code unit
    further when that match was empty.  [skip] counts the code units of the
    last match that are still to be passed. *)
Fixpoint matchAllFrom (r : regex) (bef rem : list ascii) (skip : nat)
  : list rmatchResult :=
  match skip with
  | S k =>
      match rem with
      | c :: rem' => matchAllFrom r (c :: bef) rem' k
      | [] => []
      end
  | 0 =>
      match matchHere r bef rem with
      | Some (m, _) =>
          m :: match rem with
               | c :: rem' => matchAllFrom r (c :: bef) rem' (m_end m - m_index m - 1)
               | [] => []
               end
      | None =>
          match rem with
          | c :: rem' => matchAllFrom r (c :: bef) rem' 0
          | [] => []
          end
      end
  end.

Definition matchAll (r : regex) (s : jsstring) : list rmatchResult :=
  matchAllFrom r [] s 0.

(** [s.replace(r, callback)] for a [g] regex whose callback threads a state
    [St] (the variables it closes over): the pieces between the matches are
    kept, every match is replaced by what the callback returns. *)
Section ReplaceAll.
Variable St : Type.
Variable callback : St -> rmatchResult -> St * jsstring.

Fixpoint replaceFold (s : jsstring) (last : nat) (ms : list rmatchResult)
    (acc : St) : St * jsstring :=
  match ms with
  | [] => (acc, substringFrom s last)
  | m :: ms' =>
      let '(acc1, new) := callback acc m in
      let '(acc2, rest) := replaceFold s (m_end m) ms' acc1 in
      (acc2, substring s last (m_index m) ++ new ++ rest)
  end.

Definition replaceAll (r : regex) (s : jsstring) (init : St) : St * jsstring :=
  replaceFold s 0 (matchAll r s) init.
End ReplaceAll.

(** [s.split(r)] for a regex with [ng] capture groups: the pieces between
    the matches, each followed by the captures of the match that ends it.
    A match is tried at every position before the end of the text; an empty
    match at the start of the current piece does not split. *)
Definition groupsOf (ng : nat) (m : rmatchResult) : list jsstring :=
  map (fun i => m_groupStr i m) (seq 1 ng).

Fixpoint splitFrom (r : regex) (ng : nat) (bef rem piece : list ascii)
    (skip : nat) : list jsstring :=
  match rem with
  | [] => [rev piece]
  | c :: rem' =>
      match skip with
      | S k => splitFrom r ng (c :: bef) rem' [] k
      | 0 =>
          match matchHere r bef rem with
          | None => splitFrom r ng (c :: bef) rem' (c :: piece) 0
          | Some (m, _) =>
              let n := m_end m - m_index m in
              if Nat.eqb n 0 && negb (truthy piece)
              then splitFrom r ng (c :: bef) rem' (c :: piece) 0
              else rev piece :: groupsOf ng m ++
                   (if Nat.eqb n 0
                    then splitFrom r ng (c :: bef) rem' [c] 0
                    else splitFrom r ng (c :: bef) rem' [] (n - 1))
          end
      end
  end.

Definition splitRegex (r : regex) (ng : nat) (s : jsstring) : list jsstring :=
  match s with
  | [] => match matchHere r [] [] with Some _ => [] | None => [[]] end
  | _ :: _ => splitFrom r ng [] s [] 0
  end.

(* ================================================================== *)
(** ** Outcomes of a computation

    A JavaScript computation returns a value, throws, or does not
    terminate; a loop whose progress is not structural is run on fuel and
    yields [OutOfFuel] when the fuel does not suffice. *)
(* ================================================================== *)

Inductive outcome (A : Type) : Type :=
| Ret (a : A)
| Throw (msg : string)
| OutOfFuel.
Arguments Ret {A} a.
Arguments Throw {A} msg.
Arguments OutOfFuel {A}.

Definition bind {A B : Type} (m : outcome A) (k : A -> outcome B) : outcome B :=
  match m with
  | Ret a => k a
  | Throw e => Throw e
  | OutOfFuel => OutOfFuel
  end.

Notation "x <- m ;; k" := (bind m (fun x => k))
  (at level 61, m at next level, right associativity).

Definition returns {A : Type} (m : outcome A) : Prop := exists a, m = Ret a.

Definition terminates {A : Type} (m : outcome A) : Prop := m <> OutOfFuel.

(** The loop [while ((match = regex.exec(text)) !== null) body(match)] for a
    [g] regex: [exec] resumes at the end of the previous match and does not
    step over an empty match. *)
Fixpoint execLoop (fuel : nat) (r : regex) (bef rem : list ascii)
  : outcome (list rmatchResult) :=
  match fuel with
  | 0 => OutOfFuel
  | S fuel' =>
      match search r bef rem with
      | None => Ret []
      | Some (m, st) =>
          ms <- execLoop fuel' r (consumed st) (remaining st) ;;
          Ret (m :: ms)
      end
  end.

(* ================================================================== *)
(** ** Notion blocks *)
(* ================================================================== *)

(** A block of the Notion API, over the rich-text items [R] of a revision.
    [Heading n] is the block type [heading_n]. *)
Inductive block (R : Type) : Type :=
| Equation (expression : jsstring)
| Code (content : jsstring) (language : jsstring)
| Divider
| Heading (level : nat) (rich_text : list R)
| BulletedListItem (rich_text : list R)
| NumberedListItem (rich_text : list R)
| Quote (rich_text : list R)
| Paragraph (rich_text : list R).
Arguments Equation {R} expression.
Arguments Code {R} content language.
Arguments Divider {R}.

(** The regular expressions of the block scanner. *)
Definition re_hashes : regex := rcat [RBol; RPlus (COneOf ["#"%char])].            (* /^#+/ *)
Definition re_heading : regex :=
  rcat [RBol; RPlus (COneOf ["#"%char]); RStar CSpace].                            (* /^#+\s*/ *)
Definition re_bullet : regex :=
  rcat [RBol; RSet (COneOf ["-"; "*"]%char); RPlus CSpace].                        (* /^[-*]\s+/ *)
Definition re_numbered_test : regex :=
  rcat [RBol; RPlus CDigit; RChar "."; RSet CSpace].                               (* /^\d+\.\s/ *)
Definition re_numbered : regex :=
  rcat [RBol; RPlus CDigit; RChar "."; RPlus CSpace].                              (* /^\d+\.\s+/ *)
Definition re_quote : regex := rcat [RBol; RChar ">"; RPlus CSpace].               (* /^>\s+/ *)

(** Equality of strings: [a === b]. *)
Definition streq (a b : jsstring) : bool :=
  if list_eq_dec ascii_dec a b then true else false.

(** [line === '---' || line === '***' || line === '___'] *)
Definition isDividerLine (line : jsstring) : bool :=
  streq line (lit "---") || streq line (lit "***") || streq line (lit "___").

(** [level === 1 ? "heading_1" : level === 2 ? "heading_2" : "heading_3"] *)
Definition headingType (level : nat) : nat :=
  if Nat.eqb level 1 then 1 else if Nat.eqb level 2 then 2 else 3.

(** The lookahead loop of a code fence, shared by the revisions that have
    one: [while (i < lines.length && !lines[i].trim().startsWith('```'))].
    [rest] is [lines] from index [i] on. *)
Fixpoint codeLoop (rest : list jsstring) (i : nat) (codeContent : list jsstring)
  : nat * list jsstring :=
  match rest with
  | [] => (i, codeContent)
  | l :: rest' =>
      if startsWith (trim l) (lit "```") then (i, codeContent)
      else codeLoop rest' (S i) (codeContent ++ [l])
  end.

(** [line.replace('```', '').trim() || 'plain text'] *)
Definition fenceLanguage (line : jsstring) : jsstring :=
  let l := trim (replaceStr line (lit "```") []) in
  if truthy l then l else lit "plain text".

(* ================================================================== *)
(** ** src/netlify/functions/upload-notion.js *)
(* ================================================================== *)

Module UploadNotion.

(** [{type: "text", text: {content}}] and
    [{type: "equation", equation: {expression}}]. *)
Inductive richText : Type :=
| Text (content : jsstring)
| InlineEquation (expression : jsstring).

(** [/(\$[^$\r\n]*?\$)/g] *)
Definition re_inline_math : regex :=
  RGroup 1 (rcat [RChar "$"; RStarLazy (CNoneOf ["$"%char; CR; LF]); RChar "$"]).

(** The body of [for (let i = 0; i < segments.length; i++)]. *)
Definition richItem (i : nat) (segment : jsstring) : list richText :=
  if Nat.eqb (i mod 2) 0 then
    if truthy segment then [Text segment] else []
  else
    let mathContent := segment in
    if startsWith mathContent (lit "$") && endsWith mathContent (lit "$") then
      let expression := trim (slice_1_m1 mathContent) in
      if truthy expression then [InlineEquation expression] else []
    else [Text mathContent].

Fixpoint richLoop (segments : list jsstring) (i : nat) : list richText :=
  match segments with
  | [] => []
  | seg :: rest => richItem i seg ++ richLoop rest (S i)
  end.

Definition processRichText (text : jsstring) : list richText :=
  richLoop (splitRegex re_inline_math 1 text) 0.

(** The inner loop of a multi-line display equation; [rest] is [lines]
    from index [i] on.  It stops on (and does not pass) the closing line. *)
Fixpoint mathLoop (rest : list jsstring) (i : nat) (mathContent : list jsstring)
  : nat * list jsstring :=
  match rest with
  | [] => (i, mathContent)
  | currentLine :: rest' =>
      if endsWith (trim currentLine) (lit "$$") then
        let lastPart :=
          trim (substring currentLine 0
                  (clampIndex (lastIndexOf currentLine (lit "$$")))) in
        (i, if truthy lastPart then mathContent ++ [lastPart] else mathContent)
      else mathLoop rest' (S i) (mathContent ++ [currentLine])
  end.

(** One iteration of the outer [while] loop at cursor [i], where [raw] is
    [lines[i]]: the cursor after the final [i++] and the blocks pushed. *)
Definition iteration (lines : list jsstring) (i : nat) (raw : jsstring)
  : nat * list (block richText) :=
  let line := trim raw in
  if startsWith line (lit "$$") then
    let firstLine := substringFrom line 2 in
    if endsWith firstLine (lit "$$") then
      let expression := trim (substring firstLine 0 (length firstLine - 2)) in
      (S i, if truthy expression then [Equation expression] else [])
    else
      let mathContent := if truthy (trim firstLine) then [trim firstLine] else [] in
      let '(i', mathContent') := mathLoop (skipn (S i) lines) (S i) mathContent in
      (S i', if Nat.ltb 0 (length mathContent')
             then [Equation (trim (join [LF] mathContent'))] else [])
  else if startsWith line (lit "```") then
    let language := fenceLanguage line in
    let '(i', codeContent) := codeLoop (skipn (S i) lines) (S i) [] in
    (S i', [Code (join [LF] codeContent) language])
  else if isDividerLine line then
    (S i, [Divider])
  else if startsWith line (lit "#") then
    let level := length line - length (replaceFirst re_hashes [] line) in
    let text := replaceFirst re_heading [] line in
    (S i, [Heading (headingType level) (processRichText text)])
  else if startsWith line (lit "- ") || startsWith line (lit "* ") then
    let text := replaceFirst re_bullet [] line in
    (S i, [BulletedListItem (processRichText text)])
  else if test re_numbered_test line then
    let text := replaceFirst re_numbered [] line in
    (S i, [NumberedListItem (processRichText text)])
  else if startsWith line (lit "> ") then
    let text := replaceFirst re_quote [] line in
    (S i, [Quote (processRichText text)])
  else if truthy line then
    (S i, [Paragraph (processRichText line)])
  else (S i, []).

(** [while (i < lines.length) { ... i++ }] *)
Fixpoint scanLoop (fuel : nat) (lines : list jsstring) (i : nat)
  : outcome (list (block richText)) :=
  match nth_error lines i with
  | None => Ret []
  | Some raw =>
      match fuel with
      | 0 => OutOfFuel
      | S fuel' =>
          let '(i', pushed) := iteration lines i raw in
          rest <- scanLoop fuel' lines i' ;;
          Ret (pushed ++ rest)
      end
  end.

Definition parseMarkdownWithMath (markdownContent : jsstring)
  : outcome (list (block richText)) :=
  let lines := splitOn LF markdownContent in
  scanLoop (length lines) lines 0.

End UploadNotion.

(* ================================================================== *)
(** ** src/unnamed/part_000 (the revision with display and inline math only) *)
(* ================================================================== *)

Module Part000.

Inductive richText : Type :=
| Text (content : jsstring)
| InlineEquation (expression : jsstring).

(** [/\$([^$]+)\$/] *)
Definition re_inline_math : regex :=
  rcat [RChar "$"; RGroup 1 (RPlus (CNoneOf ["$"%char])); RChar "$"].

Definition richItem (i : nat) (part : jsstring) : list richText :=
  if Nat.eqb (i mod 2) 0 then
    if truthy part then [Text part] else []
  else [InlineEquation (trim part)].

Fixpoint richLoop (parts : list jsstring) (i : nat) : list richText :=
  match parts with
  | [] => []
  | part :: rest => richItem i part ++ richLoop rest (S i)
  end.

Definition processInlineMath (text : jsstring) : list richText :=
  richLoop (splitRegex re_inline_math 1 text) 0.

(** [while (i < lines.length && !lines[i].trim().endsWith('$$'))] followed
    by [if (i < lines.length) { ... }]. *)
Fixpoint mathLoop (rest : list jsstring) (i : nat) (mathContent : list jsstring)
  : nat * list jsstring :=
  match rest with
  | [] => (i, mathContent)
  | l :: rest' =>
      if endsWith (trim l) (lit "$$") then
        let lastLine := trim (replaceStr l (lit "$$") []) in
        (i, if truthy lastLine then mathContent ++ [lastLine] else mathContent)
      else mathLoop rest' (S i) (mathContent ++ [l])
  end.

Definition iteration (lines : list jsstring) (i : nat) (raw : jsstring)
  : nat * list (block richText) :=
  let line := trim raw in
  if startsWith line (lit "$$") then
    let '(i', mathContent) := mathLoop (skipn (S i) lines) (S i) [] in
    (S i', [Equation (trim (join [LF] mathContent))])
  else if startsWith line (lit "#") then
    let level := length line - length (replaceFirst re_hashes [] line) in
    let text := replaceFirst re_heading [] line in
    (S i, [Heading (headingType level) (processInlineMath text)])
  else if truthy line && negb (startsWith line (lit "$$")) then
    (S i, [Paragraph (processInlineMath line)])
  else if negb (truthy line) then
    (S i, [Paragraph []])
  else (S i, []).

Fixpoint scanLoop (fuel : nat) (lines : list jsstring) (i : nat)
  : outcome (list (block richText)) :=
  match nth_error lines i with
  | None => Ret []
  | Some raw =>
      match fuel with
      | 0 => OutOfFuel
      | S fuel' =>
          let '(i', pushed) := iteration lines i raw in
          rest <- scanLoop fuel' lines i' ;;
          Ret (pushed ++ rest)
      end
  end.

Definition parseMarkdownWithMath (markdownContent : jsstring)
  : outcome (list (block richText)) :=
  let lines := splitOn LF markdownContent in
  scanLoop (length lines) lines 0.

End Part000.

(* ================================================================== *)
(** ** src/unnamed/part_001 (the revision with inline formatting) *)
(* ================================================================== *)

Module Part001.

(** The [annotations] objects: [{}], [{bold: true}], [{italic: true}],
    [{code: true}]. *)
Inductive annotations : Type := NoFormat | Bold | Italic | InlineCode.

(** [{type: "text", text: {content, link: {url}}, annotations}], where the
    fields [link] and [annotations] may be absent and [url] may be [null],
    and [{type: "equation", equation: {expression}}]. *)
Inductive richText : Type :=
| Text (content : jsstring) (link : option (option jsstring))
       (annot : option annotations)
| InlineEquation (expression : jsstring).

Inductive patternType : Type := TBold | TItalic | TCode | TLink.

Record pattern : Type := Pattern {
  p_regex : regex;
  p_format : option annotations;      (* [None] is [null] *)
  p_type : patternType
}.

Definition notStarNl : charset := CNoneOf ["*"%char; LF].

(** The four patterns of [processTextFormatting].  In the comments below
    [STAR] stands for the escaped asterisk of the source.

    bold: [/ STAR STAR ([^*\n]+?) STAR STAR /g] *)
Definition re_bold : regex :=
  rcat [RChar "*"; RChar "*"; RGroup 1 (RPlusLazy notStarNl); RChar "*"; RChar "*"].

(** italic: [/ (?<! STAR) STAR ([^*\n]+?) STAR (?! STAR) /g] *)
Definition re_italic : regex :=
  rcat [RNotBehind (COneOf ["*"%char]); RChar "*"; RGroup 1 (RPlusLazy notStarNl);
        RChar "*"; RNotAhead (COneOf ["*"%char])].

(** code: [/`([^`\n]+?)`/g] *)
Definition re_code : regex :=
  rcat [RChar "`"; RGroup 1 (RPlusLazy (CNoneOf ["`"%char; LF])); RChar "`"].

(** link: [/\[([^\]]+?)\]\(([^)\n]+?)\)/g] *)
Definition re_link : regex :=
  rcat [RChar "["; RGroup 1 (RPlusLazy (CNoneOf ["]"%char])); RChar "]"; RChar "(";
        RGroup 2 (RPlusLazy (CNoneOf [")"%char; LF])); RChar ")"].

Definition patterns : list pattern :=
  [ Pattern re_bold (Some Bold) TBold;
    Pattern re_italic (Some Italic) TItalic;
    Pattern re_code (Some InlineCode) TCode;
    Pattern re_link None TLink ].

(** The records pushed on [matches]. *)
Record fmatch : Type := FMatch {
  f_start : nat;
  f_end : nat;
  f_content : jsstring;
  f_fullMatch : jsstring;
  f_format : option annotations;
  f_type : patternType;
  f_url : option jsstring               (* [match[2] || null] *)
}.

Definition mkMatch (p : pattern) (m : rmatchResult) : fmatch :=
  FMatch (m_index m) (m_index m + length (m_text m)) (m_groupStr 1 m) (m_text m)
         (p_format p) (p_type p)
         (match m_group 2 m with
          | Some u => if truthy u then Some u else None
          | None => None
          end).

(** [patterns.forEach(pattern => { while (...exec...) matches.push(...) })] *)
Fixpoint collect (ps : list pattern) (text : jsstring) : outcome (list fmatch) :=
  match ps with
  | [] => Ret []
  | p :: ps' =>
      ms <- execLoop (S (length text)) (p_regex p) [] text ;;
      rest <- collect ps' text ;;
      Ret (map (mkMatch p) ms ++ rest)
  end.

(** [matches.sort((a, b) => a.start - b.start)]: a stable sort. *)
Fixpoint insertByStart (x : fmatch) (l : list fmatch) : list fmatch :=
  match l with
  | [] => [x]
  | y :: l' => if Nat.ltb (f_start x) (f_start y) then x :: l
               else y :: insertByStart x l'
  end.

Definition sortByStart (l : list fmatch) : list fmatch :=
  fold_left (fun acc x => insertByStart x acc) l [].

(** [current.start < existing.end && current.end > existing.start] *)
Definition overlaps (current existing : fmatch) : bool :=
  Nat.ltb (f_start current) (f_end existing) &&
  Nat.ltb (f_start existing) (f_end current).

(** The loop that fills [validMatches]. *)
Definition keepValid (matches : list fmatch) : list fmatch :=
  fold_left (fun validMatches current =>
               if existsb (overlaps current) validMatches then validMatches
               else validMatches ++ [current])
            matches [].

Definition plain (content : jsstring) : richText := Text content None None.

Definition formatted (m : fmatch) : richText :=
  match f_type m with
  | TLink => Text (f_content m) (Some (f_url m)) None
  | _ => Text (f_content m) None (f_format m)
  end.

(** The body of [validMatches.forEach], on the pair [(parts, lastEnd)]. *)
Definition buildStep (text : jsstring) (acc : list richText * nat) (m : fmatch)
  : list richText * nat :=
  let '(parts, lastEnd) := acc in
  let before :=
    if Nat.ltb lastEnd (f_start m) then
      let beforeText := substring text lastEnd (f_start m) in
      if truthy beforeText then [plain beforeText] else []
    else [] in
  (parts ++ before ++ [formatted m], f_end m).

Definition processTextFormatting (text : jsstring) : outcome (list richText) :=
  matches <- collect patterns text ;;
  let validMatches := keepValid (sortByStart matches) in
  let '(parts, lastEnd) := fold_left (buildStep text) validMatches ([], 0) in
  let parts1 :=
    if Nat.ltb lastEnd (length text) then
      let remainingText := substringFrom text lastEnd in
      if truthy remainingText then parts ++ [plain remainingText] else parts
    else parts in
  Ret (if Nat.eqb (length parts1) 0 && truthy (trim text)
       then parts1 ++ [plain text] else parts1).

(** [/\$([^$\n]+)\$/g] *)
Definition re_inline_math : regex :=
  rcat [RChar "$"; RGroup 1 (RPlus (CNoneOf ["$"%char; LF])); RChar "$"].

(** [/(__MATH_\d+__)/] *)
Definition re_placeholder : regex :=
  RGroup 1 (rcat [RStr "__MATH_"; RPlus CDigit; RStr "__"]).

(** [/\d+/] *)
Definition re_digits : regex := RPlus CDigit.

(** The callback of the first [replace]: it closes over [mathIndex] and
    [mathPlaceholders].  [mathIndex] is the length of [mathPlaceholders]
    at every call, so the assignment [mathPlaceholders[mathIndex] = ...]
    appends. *)
Definition protectMath (acc : nat * list jsstring) (m : rmatchResult)
  : (nat * list jsstring) * jsstring :=
  let '(mathIndex, mathPlaceholders) := acc in
  let equation := m_groupStr 1 m in
  let placeholder := lit "__MATH_" ++ toDecimal mathIndex ++ lit "__" in
  ((S mathIndex, mathPlaceholders ++ [trim equation]), placeholder).

(** The body of [for (const segment of segments)].  [segment.match(/\d+/)]
    is [null] when the segment holds no digit, and indexing [null]
    throws a [TypeError]. *)
Definition restoreSegment (mathPlaceholders : list jsstring)
    (annot : option annotations) (segment : jsstring) : outcome (list richText) :=
  if startsWith segment (lit "__MATH_") && endsWith segment (lit "__") then
    match matchFirst re_digits segment with
    | None => Throw "TypeError: Cannot read properties of null (reading '0')"
    | Some m =>
        let index := parseDigits (m_text m) in
        match nth_error mathPlaceholders index with
        | Some expression =>
            Ret (if truthy expression then [InlineEquation expression] else [])
        | None => Ret []
        end
    end
  else if truthy segment then
    Ret [Text segment None
           (Some (match annot with Some a => a | None => NoFormat end))]
  else Ret [].

Fixpoint restoreSegments (mathPlaceholders : list jsstring)
    (annot : option annotations) (segments : list jsstring)
  : outcome (list richText) :=
  match segments with
  | [] => Ret []
  | segment :: rest =>
      items <- restoreSegment mathPlaceholders annot segment ;;
      more <- restoreSegments mathPlaceholders annot rest ;;
      Ret (items ++ more)
  end.

(** The body of [for (const part of textParts)]. *)
Definition restorePart (mathPlaceholders : list jsstring) (part : richText)
  : outcome (list richText) :=
  match part with
  | Text content _ annot =>
      if includes content (lit "__MATH_") then
        restoreSegments mathPlaceholders annot (splitRegex re_placeholder 1 content)
      else Ret [part]
  | InlineEquation _ => Ret [part]
  end.

Fixpoint restoreParts (mathPlaceholders : list jsstring) (parts : list richText)
  : outcome (list richText) :=
  match parts with
  | [] => Ret []
  | part :: rest =>
      items <- restorePart mathPlaceholders part ;;
      more <- restoreParts mathPlaceholders rest ;;
      Ret (items ++ more)
  end.

Definition processRichText (text : jsstring) : outcome (list richText) :=
  let '((_, mathPlaceholders), tempText) :=
    replaceAll protectMath re_inline_math text (0, []) in
  textParts <- processTextFormatting tempText ;;
  restoreParts mathPlaceholders textParts.

(** [while (i < lines.length && !lines[i].trim().endsWith('$'))] followed
    by [if (i < lines.length) { ... }]. *)
Fixpoint mathLoop (rest : list jsstring) (i : nat) (mathContent : list jsstring)
  : nat * list jsstring :=
  match rest with
  | [] => (i, mathContent)
  | l :: rest' =>
      if endsWith (trim l) (lit "$") then
        let lastLine := trim (replaceStr l (lit "$") []) in
        (i, if truthy lastLine then mathContent ++ [lastLine] else mathContent)
      else mathLoop rest' (S i) (mathContent ++ [l])
  end.

(** One iteration of the outer [while] loop at cursor [i], where [raw] is
    [lines[i]]: the cursor after the final [i++] and the blocks pushed. *)
Definition iteration (lines : list jsstring) (i : nat) (raw : jsstring)
  : outcome (nat * list (block richText)) :=
  let line := trim raw in
  if startsWith line (lit "$") then
    let '(i', mathContent) := mathLoop (skipn (S i) lines) (S i) [] in
    Ret (S i', [Equation (trim (join [LF] mathContent))])
  else if startsWith line (lit "```") then
    let language := fenceLanguage line in
    let '(i', codeContent) := codeLoop (skipn (S i) lines) (S i) [] in
    Ret (S i', [Code (join [LF] codeContent) language])
  else if isDividerLine line then
    Ret (S i, [Divider])
  else if startsWith line (lit "#") then
    let level := length line - length (replaceFirst re_hashes [] line) in
    let text := replaceFirst re_heading [] line in
    rich <- processRichText text ;;
    Ret (S i, [Heading (headingType level) rich])
  else if startsWith line (lit "- ") || startsWith line (lit "* ") then
    let text := replaceFirst re_bullet [] line in
    rich <- processRichText text ;;
    Ret (S i, [BulletedListItem rich])
  else if test re_numbered_test line then
    let text := replaceFirst re_numbered [] line in
    rich <- processRichText text ;;
    Ret (S i, [NumberedListItem rich])
  else if startsWith line (lit "> ") then
    let text := replaceFirst re_quote [] line in
    rich <- processRichText text ;;
    Ret (S i, [Quote rich])
  else if truthy line && negb (startsWith line (lit "$")) then
    rich <- processRichText line ;;
    Ret (S i, [Paragraph rich])
  else if negb (truthy line) then
    Ret (S i, [Paragraph []])
  else Ret (S i, []).

Fixpoint scanLoop (fuel : nat) (lines : list jsstring) (i : nat)
  : outcome (list (block richText)) :=
  match nth_error lines i with
  | None => Ret []
  | Some raw =>
      match fuel with
      | 0 => OutOfFuel
      | S fuel' =>
          step <- iteration lines i raw ;;
          rest <- scanLoop fuel' lines (fst step) ;;
          Ret (snd step ++ rest)
      end
  end.

Definition parseMarkdownWithMath (markdownContent : jsstring)
  : outcome (list (block richText)) :=
  let lines := splitOn LF markdownContent in
  scanLoop (length lines) lines 0.

End Part001.

(* ================================================================== *)
(** ** Notions used by the statements *)
(* ================================================================== *)

(** The least number of code units a match of [r] spans. *)
Fixpoint minLen (r : regex) : nat :=
  match r with
  | REps | RBol | RNotBehind _ | RNotAhead _ => 0
  | RSet _ => 1
  | RRep _ min _ => min
  | RSeq r1 r2 => minLen r1 + minLen r2
  | RGroup _ r' => minLen r'
  end.

(** The numbers of the capture groups of [r]. *)
Fixpoint groups (r : regex) : list nat :=
  match r with
  | RSeq r1 r2 => groups r1 ++ groups r2
  | RGroup n r' => n :: groups r'
  | _ => []
  end.

(** Every capture group of [r] spans at least one code unit. *)
Fixpoint groupsNonEmpty (r : regex) : bool :=
  match r with
  | RSeq r1 r2 => groupsNonEmpty r1 && groupsNonEmpty r2
  | RGroup _ r' => Nat.ltb 0 (minLen r') && groupsNonEmpty r'
  | _ => true
  end.

(** [m] is the result of matching [r] at some position of some text. *)
Definition isMatchOf (r : regex) (m : rmatchResult) : Prop :=
  exists bef rem st,
    In st (rmatch r (MState bef rem [])) /\
    m = MatchResult (length bef) (position st)
          (rev (firstn (position st - length bef) (consumed st))) (captures st).

(** The constructs of the block scanner, in the order of its checks. *)
Inductive construct : Type :=
| CMath | CCode | CDivider | CHeading | CBullet | CNumber | CQuote | CParagraph.

Definition checkOrder : list construct :=
  [CMath; CCode; CDivider; CHeading; CBullet; CNumber; CQuote; CParagraph].

(** The condition the scanner tests for each construct on the trimmed line;
    [mathMark] is the opening mark of display math in the revision at hand. *)
Definition applies (mathMark : jsstring) (c : construct) (line : jsstring) : bool :=
  match c with
  | CMath => startsWith line mathMark
  | CCode => startsWith line (lit "```")
  | CDivider => isDividerLine line
  | CHeading => startsWith line (lit "#")
  | CBullet => startsWith line (lit "- ") || startsWith line (lit "* ")
  | CNumber => test re_numbered_test line
  | CQuote => startsWith line (lit "> ")
  | CParagraph => truthy line
  end.

(** The first construct, in the order of the checks, whose condition holds. *)
Definition firstMatch (mathMark : jsstring) (line : jsstring) : option construct :=
  find (fun c => applies mathMark c line) checkOrder.

Definition kindOf {R : Type} (b : block R) : construct :=
  match b with
  | Equation _ => CMath
  | Code _ _ => CCode
  | Divider => CDivider
  | Heading _ _ => CHeading
  | BulletedListItem _ => CBullet
  | NumberedListItem _ => CNumber
  | Quote _ => CQuote
  | Paragraph _ => CParagraph
  end.

(** A line without any construct marker: a plain paragraph line or a blank
    line. *)
Definition plainLine (mathMark : jsstring) (line : jsstring) : bool :=
  match firstMatch mathMark line with
  | None | Some CParagraph => true
  | Some _ => false
  end.

(** The heading of a line as the specification words it: the level is the
    number of leading [#], at most 3; the text is the line without its
    leading [#] and the white space that follows them. *)
Definition isHash (c : ascii) : bool := Ascii.eqb c "#".
Definition specHeadingLevel (line : jsstring) : nat :=
  Nat.min (length (takeWhile isHash line)) 3.
Definition specHeadingText (line : jsstring) : jsstring :=
  dropWhile isSpace (dropWhile isHash line).

(** The language of a fence as the specification words it. *)
Definition specLanguage (line : jsstring) : jsstring :=
  let remainder := trim (skipn 3 line) in
  match remainder with
  | [] => lit "plain text"
  | _ :: _ => remainder
  end.

(** The cursor positions the outer loop of
    [UploadNotion.parseMarkdownWithMath] goes through. *)
Inductive reaches (lines : list jsstring) : nat -> Prop :=
| reaches_start : reaches lines 0
| reaches_next : forall i raw,
    reaches lines i ->
    nth_error lines i = Some raw ->
    reaches lines (fst (UploadNotion.iteration lines i raw)).

(** Rich-text items that carry text. *)
Definition unNonEmpty (x : UploadNotion.richText) : Prop :=
  match x with
  | UploadNotion.Text content => content <> []
  | UploadNotion.InlineEquation expression => expression <> []
  end.

Definition p1NonEmpty (x : Part001.richText) : Prop :=
  match x with
  | Part001.Text content _ _ => content <> []
  | Part001.InlineEquation expression => expression <> []
  end.

Definition isLink (x : Part001.richText) : Prop :=
  match x with
  | Part001.Text _ (Some _) _ => True
  | _ => False
  end.

Definition hasAnnotation (a : Part001.annotations) (x : Part001.richText) : Prop :=
  match x with
  | Part001.Text _ _ (Some a') => a' = a
  | _ => False
  end.

Unset Implicit Arguments.

(** [st'] lies [x] to the right of [st]. *)
Definition advances (st st' : mstate) (x : list ascii) : Prop :=
  consumed st' = rev x ++ consumed st /\ remaining st = x ++ remaining st'.

(** Every capture recorded is non-empty. *)
Definition capsNonEmpty (caps : list (nat * jsstring)) : Prop :=
  forall n s, lookupCapture n caps = Some s -> s <> [].

(** The shape of the array [split] returns for a pattern with one group:
    pieces of the text alternate with captures. *)
Inductive alternating (P : jsstring -> Prop) : list jsstring -> Prop :=
| alt_nil : alternating P []
| alt_last : forall piece, alternating P [piece]
| alt_cons : forall piece g rest,
    P g -> alternating P rest -> alternating P (piece :: g :: rest).

(** [g] is the first capture of some match of [r]. *)
Definition captureOf (r : regex) (g : jsstring) : Prop :=
  exists m, isMatchOf r m /\ g = m_groupStr 1 m.

(** What every record of [matches] satisfies. *)
Definition goodMatch (fm : Part001.fmatch) : Prop :=
  Part001.f_content fm <> [] /\
  (Part001.f_type fm = Part001.TLink ->
   exists u, Part001.f_url fm = Some u /\ u <> []).

(** The selection loop from an arbitrary list of matches already kept. *)
Definition keepFrom (valid matches : list Part001.fmatch) : list Part001.fmatch :=
  fold_left (fun validMatches current =>
               if existsb (Part001.overlaps current) validMatches then validMatches
               else validMatches ++ [current])
            matches valid.

(** No two kept matches overlap. *)
Definition disjointMatches (l : list Part001.fmatch) : Prop :=
  ForallOrdPairs (fun a b => Part001.overlaps b a = false) l.

(** What every item of [parts] satisfies. *)
Definition goodPart (x : Part001.richText) : Prop :=
  p1NonEmpty x /\
  match x with
  | Part001.Text _ (Some url) _ => exists u, url = Some u /\ u <> []
  | _ => True
  end.


(** A row that is pushed only when it is not empty. *)
Definition optional (s : jsstring) : list jsstring :=
  if truthy s then [s] else [].


Definition overlapText : jsstring := lit "**a*b*c**".

(* ================================================================== *)
(** ** src/unnamed/part_001, first file: math to HTML *)
(* ================================================================== *)

Module Part001Html.

(** [/\$\$([^\$]+)\$\$/g] *)
Definition displayMathRegex : regex :=
  rcat [RChar "$"; RChar "$"; RGroup 1 (RPlus (CNoneOf ["$"%char])); RChar "$"; RChar "$"].

(** [/\$([^\$]+)\$/g] *)
Definition inlineMathRegex : regex :=
  rcat [RChar "$"; RGroup 1 (RPlus (CNoneOf ["$"%char])); RChar "$"].

(** The two callbacks; they close over nothing. *)
Definition displayCallback (acc : unit) (m : rmatchResult) : unit * jsstring :=
  (acc, lit "<div class='display-math'>" ++ m_groupStr 1 m ++ lit "</div>").

Definition inlineCallback (acc : unit) (m : rmatchResult) : unit * jsstring :=
  (acc, lit "<span class='inline-math'>" ++ m_groupStr 1 m ++ lit "</span>").

Definition parseMarkdownWithMath (markdown : jsstring) : jsstring :=
  let markdown1 := snd (replaceAll displayCallback displayMathRegex markdown tt) in
  snd (replaceAll inlineCallback inlineMathRegex markdown1 tt).

End Part001Html.

(* ================================================================== *)
(** ** src/netlify/functions/upload-notion.js: the request handler

    The handler is modelled over the network it talks to: [net n q] is what
    the [n]-th call of [fetch], with request [q], resolves to; it throws
    when the call is rejected and runs out of fuel when it never settles.
    The bodies of the request and of the responses are promises as well:
    each settles to a value, rejects, or stays pending.  The values are
    those [JSON.parse] builds, and [undefined] for a property that is
    missing; the text of a number is a parameter.  The string of a [Throw]
    names the error that is thrown.  The calls of [console.error] are left
    out. *)
(* ================================================================== *)

Module Handler.

(** The values [JSON.parse] builds, and [undefined], which a missing
    property reads as.  A number is a double. *)
#[warnings="-register-all"]
Inductive jsvalue : Type :=
| JUndefined
| JNull
| JBool (b : bool)
| JNumber (x : spec_float)
| JString (s : jsstring)
| JArray (items : list jsvalue)
| JObject (properties : list (jsstring * jsvalue)).

(** [ToBoolean]: what [!v] negates. *)
Definition toBoolean (v : jsvalue) : bool :=
  match v with
  | JUndefined | JNull => false
  | JBool b => b
  | JNumber (S754_zero _) | JNumber S754_nan => false
  | JNumber _ => true
  | JString s => truthy s
  | JArray _ | JObject _ => true
  end.

(** The own property [name] of a parsed object; of two members with the
    same name [JSON.parse] keeps the later one. *)
Fixpoint lookupProperty (name : jsstring) (properties : list (jsstring * jsvalue))
  : option jsvalue :=
  match properties with
  | [] => None
  | (k, v) :: rest =>
      match lookupProperty name rest with
      | Some later => Some later
      | None => if streq k name then Some v else None
      end
  end.

(** [v.name] for a value that is neither [null] nor [undefined] and a name
    that no built-in prototype defines ([title], [id], ...): an own
    property of an object, [undefined] on everything else. *)
Definition property (v : jsvalue) (name : string) : jsvalue :=
  match v with
  | JObject properties =>
      match lookupProperty (lit name) properties with
      | Some x => x
      | None => JUndefined
      end
  | _ => JUndefined
  end.

Section ToString.

(** [Number::toString], which the model does not compute. *)
Variable numberToString : spec_float -> jsstring.

(** [ToString], as a template literal applies it. *)
Fixpoint toString (v : jsvalue) : outcome jsstring :=
  match v with
  | JUndefined => Ret (lit "undefined")
  | JNull => Ret (lit "null")
  | JBool b => Ret (if b then lit "true" else lit "false")
  | JNumber x => Ret (numberToString x)
  | JString s => Ret s
  | JArray items =>
      pieces <- (fix each (l : list jsvalue) : outcome (list jsstring) :=
                   match l with
                   | [] => Ret []
                   | element :: l' =>
                       s <- match element with
                            | JUndefined | JNull => Ret []
                            | _ => toString element
                            end ;;
                       rest <- each l' ;;
                       Ret (s :: rest)
                   end) items ;;
      Ret (join (lit ",") pieces)
  | JObject properties =>
      match lookupProperty (lit "toString") properties with
      | Some _ => Throw "TypeError: Cannot convert object to primitive value"
      | None => Ret (lit "[object Object]")
      end
  end.

End ToString.

(** The body of a request sent to the API, before [JSON.stringify]:
    [pagePayload], or [{children: batch}]. *)
Inductive requestBody : Type :=
| PagePayload (parentPageId title : jsvalue)
| ChildrenPayload (children : list (block UploadNotion.richText)).

(** A call of [fetch]: the URL, and of the options the method, the
    [Authorization] header and the body. *)
Record fetchRequest : Type := FetchRequest {
  q_url : jsstring;
  q_method : jsstring;
  q_authorization : jsstring;
  q_body : requestBody
}.

(** What [fetch] resolves to: the status, and the promises [text()] and
    [json()], each of which settles to a value, rejects, or stays pending. *)
Record fetchResponse : Type := FetchResponse {
  r_status : nat;
  r_text : outcome jsstring;
  r_json : outcome jsvalue
}.

(** [response.ok]: the status is in the range 200 to 299. *)
Definition ok (r : fetchResponse) : bool :=
  Nat.leb 200 (r_status r) && Nat.leb (r_status r) 299.

(** The body given to [new Response]: a text, the JSON [{error: text}],
    the JSON [{error: `Server Error: ${error.message}`}] for the error
    caught, or [JSON.stringify(result)]. *)
Inductive responseBody : Type :=
| BodyText (text : jsstring)
| BodyError (error : jsstring)
| BodyServerError (caught : string)
| BodyJson (result : jsvalue).

(** A [Response] as the handler builds it: the status and the headers of
    the options, and the body. *)
Record response : Type := Response {
  status : nat;
  body : responseBody;
  headers : list (jsstring * jsstring)
}.

(** The statuses that go with no body. *)
Definition nullBodyStatus : list nat := [101; 103; 204; 205; 304].

(** [new Response(body, {status, headers})] with a body that is not
    [null]: the constructor throws a [RangeError] for a status outside 200
    to 599 and a [TypeError] for a status that goes with no body. *)
Definition newResponse (b : responseBody) (st : nat)
    (hs : list (jsstring * jsstring)) : outcome response :=
  if Nat.ltb st 200 || Nat.ltb 599 st then
    Throw "RangeError: the status is outside the range 200 to 599"
  else if existsb (Nat.eqb st) nullBodyStatus then
    Throw "TypeError: a response with this status cannot have a body"
  else Ret (Response st b hs).

(** The four variables bound by
    [const { title, markdownContent, notionToken, parentPageId } = ...]. *)
Record payload : Type := Payload {
  title : jsvalue;
  markdownContent : jsvalue;
  notionToken : jsvalue;
  parentPageId : jsvalue
}.

(** The destructuring itself: it throws on [null]. *)
Definition destructure (data : jsvalue) : outcome payload :=
  match data with
  | JUndefined => Throw "TypeError: Cannot destructure property 'title' of undefined"
  | JNull => Throw "TypeError: Cannot destructure property 'title' of null"
  | _ => Ret (Payload (property data "title") (property data "markdownContent")
                (property data "notionToken") (property data "parentPageId"))
  end.

(** The request: its method and the promise [request.json()]. *)
Record request : Type := Request {
  method : jsstring;
  json : outcome jsvalue
}.

(** [parseMarkdownWithMath(markdownContent)] on a value: the function
    starts with [markdownContent.split('\n')], and only a string has
    [split]. *)
Definition parseMarkdownWithMath (markdownContent : jsvalue)
  : outcome (list (block UploadNotion.richText)) :=
  match markdownContent with
  | JString s => UploadNotion.parseMarkdownWithMath s
  | JUndefined => Throw "TypeError: Cannot read properties of undefined (reading 'split')"
  | JNull => Throw "TypeError: Cannot read properties of null (reading 'split')"
  | _ => Throw "TypeError: markdownContent.split is not a function"
  end.

(** [pageResult.id] *)
Definition getId (pageResult : jsvalue) : outcome jsvalue :=
  match pageResult with
  | JUndefined => Throw "TypeError: Cannot read properties of undefined (reading 'id')"
  | JNull => Throw "TypeError: Cannot read properties of null (reading 'id')"
  | _ => Ret (property pageResult "id")
  end.

Definition jsonHeaders : list (jsstring * jsstring) :=
  [(lit "Content-Type", lit "application/json")].

Definition corsHeaders : list (jsstring * jsstring) :=
  [(lit "Content-Type", lit "application/json");
   (lit "Access-Control-Allow-Origin", lit "*")].

(** [blocks.slice(a, b)] for [a <= b]. *)
Definition slice {A : Type} (l : list A) (a b : nat) : list A :=
  firstn (b - a) (skipn a l).

Definition batchSize : nat := 100.

Definition pagesUrl : jsstring := lit "https://api.notion.com/v1/pages".

Definition createRequest (authorization : jsstring) (p : payload) : fetchRequest :=
  FetchRequest pagesUrl (lit "POST") authorization
    (PagePayload (parentPageId p) (title p)).

Definition appendRequest (authorization url : jsstring)
    (batch : list (block UploadNotion.richText)) : fetchRequest :=
  FetchRequest url (lit "PATCH") authorization (ChildrenPayload batch).

(** The response built from a response of the API that is not [ok]. *)
Definition apiError (prefix : jsstring) (st : nat) (errorData : jsstring)
  : outcome response :=
  newResponse (BodyError (prefix ++ toDecimal st ++ lit " - " ++ errorData)) st corsHeaders.

(** The effects of the handler: a computation calls [fetch], the calls are
    logged in order, and it ends as an [outcome]. *)
Definition io (A : Type) : Type :=
  list fetchRequest -> outcome A * list fetchRequest.

Definition ioBind {A B : Type} (m : io A) (k : A -> io B) : io B :=
  fun log =>
    match m log with
    | (Ret a, log') => k a log'
    | (Throw e, log') => (Throw e, log')
    | (OutOfFuel, log') => (OutOfFuel, log')
    end.

(** A step that sends nothing: a pure computation or an [await]. *)
Definition lift {A : Type} (m : outcome A) : io A := fun log => (m, log).

Notation "x <~ m ;; k" := (ioBind m (fun x => k))
  (at level 61, m at next level, right associativity).

Section WithNetwork.

Variable numberToString : spec_float -> jsstring.
Variable net : nat -> fetchRequest -> outcome fetchResponse.

(** [await fetch(...)]: the call is logged, then it settles as the network
    decides. *)
Definition fetch (q : fetchRequest) : io fetchResponse :=
  fun log => (net (length log) q, log ++ [q]).

(** [`Bearer ${notionToken}`] *)
Definition bearer (notionToken : jsvalue) : outcome jsstring :=
  s <- toString numberToString notionToken ;; Ret (lit "Bearer " ++ s).

(** [`https://api.notion.com/v1/blocks/${pageId}/children`] *)
Definition childrenUrl (pageId : jsvalue) : outcome jsstring :=
  s <- toString numberToString pageId ;;
  Ret (lit "https://api.notion.com/v1/blocks/" ++ s ++ lit "/children").

(** [for (let i = 0; i < blocks.length; i += batchSize)]: the result is
    [Some] of the response returned from inside the loop, or [None] when the
    loop runs to its end. *)
Fixpoint appendLoop (fuel : nat) (notionToken pageId : jsvalue)
    (blocks : list (block UploadNotion.richText)) (i : nat)
  : io (option response) :=
  if Nat.ltb i (length blocks) then
    match fuel with
    | 0 => lift OutOfFuel
    | S fuel' =>
        let batch := slice blocks i (i + batchSize) in
        url <~ lift (childrenUrl pageId) ;;
        authorization <~ lift (bearer notionToken) ;;
        appendResponse <~ fetch (appendRequest authorization url batch) ;;
        if negb (ok appendResponse) then
          errorData <~ lift (r_text appendResponse) ;;
          early <~ lift (apiError (lit "Notion API Error appending blocks: ")
                           (r_status appendResponse) errorData) ;;
          lift (Ret (Some early))
        else appendLoop fuel' notionToken pageId blocks (i + batchSize)
    end
  else lift (Ret None).

(** The [try] block. *)
Definition tryBlock (req : request) : io response :=
  data <~ lift (json req) ;;
  p <~ lift (destructure data) ;;
  if negb (toBoolean (title p)) || negb (toBoolean (markdownContent p)) ||
     negb (toBoolean (notionToken p)) || negb (toBoolean (parentPageId p))
  then
    lift (newResponse
            (BodyError (lit "Missing required fields: title, markdownContent, notionToken, parentPageId"))
            400 jsonHeaders)
  else
    blocks <~ lift (parseMarkdownWithMath (markdownContent p)) ;;
    authorization <~ lift (bearer (notionToken p)) ;;
    pageResponse <~ fetch (createRequest authorization p) ;;
    if negb (ok pageResponse) then
      errorData <~ lift (r_text pageResponse) ;;
      lift (apiError (lit "Notion API Error: ") (r_status pageResponse) errorData)
    else
      pageResult <~ lift (r_json pageResponse) ;;
      pageId <~ lift (getId pageResult) ;;
      early <~ appendLoop (length blocks) (notionToken p) pageId blocks 0 ;;
      match early with
      | Some r => lift (Ret r)
      | None => lift (newResponse (BodyJson pageResult) 200 corsHeaders)
      end.

(** The exported function: the response, and the calls of [fetch] it made. *)
Definition handler (req : request) : outcome response * list fetchRequest :=
  if negb (streq (method req) (lit "POST")) then
    (newResponse (BodyText (lit "Method not allowed")) 405 [], [])
  else
    match tryBlock req [] with
    | (Throw e, log) => (newResponse (BodyServerError e) 500 corsHeaders, log)
    | other => other
    end.

End WithNetwork.

End Handler.

(** The literal characters every match of [r] holds. *)
Fixpoint literalChars (r : regex) : list ascii :=
  match r with
  | RSet (COneOf [c]) => [c]
  | RSeq r1 r2 => literalChars r1 ++ literalChars r2
  | RGroup _ r' => literalChars r'
  | _ => []
  end.

(** The batches of at most [batchSize] blocks, as the specification of the
    loop: [fuel] bounds their number. *)
Fixpoint chunksFrom {A : Type} (fuel : nat) (l : list A) : list (list A) :=
  match fuel with
  | 0 => []
  | S fuel' =>
      match l with
      | [] => []
      | _ :: _ => firstn Handler.batchSize l :: chunksFrom fuel' (skipn Handler.batchSize l)
      end
  end.

Definition chunks {A : Type} (l : list A) : list (list A) := chunksFrom (length l) l.

(** A network that answers every call: [fetch] settles, and so do [text()]
    and [json()] on the response. *)
Definition answers
    (net : nat -> Handler.fetchRequest -> outcome Handler.fetchResponse) : Prop :=
  forall n q, terminates (net n q) /\
              forall r, net n q = Ret r ->
                        terminates (Handler.r_text r) /\ terminates (Handler.r_json r).

(** All four fields of the request body are truthy. *)
Definition complete (p : Handler.payload) : Prop :=
  Handler.toBoolean (Handler.title p) = true /\
  Handler.toBoolean (Handler.markdownContent p) = true /\
  Handler.toBoolean (Handler.notionToken p) = true /\
  Handler.toBoolean (Handler.parentPageId p) = true.

(** A status that [new Response] accepts together with a body. *)
Definition relayable (st : nat) : Prop :=
  200 <= st <= 599 /\ ~ In st Handler.nullBodyStatus.

(** The URL of the append requests and the [Authorization] header. *)
Definition childrenOf (pid : jsstring) : jsstring :=
  lit "https://api.notion.com/v1/blocks/" ++ pid ++ lit "/children".

Definition bearerOf (tok : jsstring) : jsstring := lit "Bearer " ++ tok.

(** The lines from the cursor on are enough to run the scanner: the
    conversion of a list of lines. *)
Definition scanLines (lines : list jsstring)
  : outcome (list (block UploadNotion.richText)) :=
  UploadNotion.scanLoop (length lines) lines 0.

(** The matches sorted by their start. *)
Definition byStart (a b : Part001.fmatch) : Prop :=
  Part001.f_start a <= Part001.f_start b.

(** A pattern whose whole text is its first capture. *)
Definition capturesAll (r : regex) : Prop :=
  forall bef rem m st, matchHere r bef rem = Some (m, st) -> m_groupStr 1 m = m_text m.

(** The annotation of a text fragment cut out of a part of part_001, and
    what such a fragment looks like. *)
Definition fragmentAnnotation (annot : option Part001.annotations) : Part001.annotations :=
  match annot with Some a => a | None => Part001.NoFormat end.

Definition fragmentOf (annot : option Part001.annotations) (x : Part001.richText) : Prop :=
  match x with
  | Part001.Text _ link a => link = None /\ a = Some (fragmentAnnotation annot)
  | Part001.InlineEquation _ => True
  end.

(** The Markdown source of a rich-text item of part_001: the printer that
    undoes the formatting pass. *)
Definition render (x : Part001.richText) : jsstring :=
  match x with
  | Part001.Text content (Some url) _ =>
      lit "[" ++ content ++ lit "](" ++
      (match url with Some u => u | None => [] end) ++ lit ")"
  | Part001.Text content None (Some Part001.Bold) => lit "**" ++ content ++ lit "**"
  | Part001.Text content None (Some Part001.Italic) => lit "*" ++ content ++ lit "*"
  | Part001.Text content None (Some Part001.InlineCode) => lit "`" ++ content ++ lit "`"
  | Part001.Text content None _ => content
  | Part001.InlineEquation expression => lit "$" ++ expression ++ lit "$"
  end.

(** The text of a match of [r] read off its captures, when [r] is made of
    literal characters, groups and assertions only. *)
Fixpoint shape (r : regex) (caps : list (nat * jsstring)) : option jsstring :=
  match r with
  | REps | RBol | RNotBehind _ | RNotAhead _ => Some []
  | RSet (COneOf [c]) => Some [c]
  | RGroup n _ => lookupCapture n caps
  | RSeq r1 r2 =>
      match shape r1 caps, shape r2 caps with
      | Some a, Some b => Some (a ++ b)
      | _, _ => None
      end
  | _ => None
  end.

(** A record of [matches] that spans a non-empty part of [text] whose
    source is the item it is turned into. *)
Definition goodSpan (text : jsstring) (fm : Part001.fmatch) : Prop :=
  Part001.f_start fm < Part001.f_end fm /\
  Part001.f_end fm <= length text /\
  firstn (Part001.f_end fm - Part001.f_start fm) (skipn (Part001.f_start fm) text) =
  render (Part001.formatted fm).

(** [a] ends before [b] starts. *)
Definition endsBefore (a b : Part001.fmatch) : Prop :=
  Part001.f_end a <= Part001.f_start b.

(** A request body, a created page and networks for the examples: one
    network answers every call with [ok], the other refuses the second
    call. *)
Definition sampleData : Handler.jsvalue :=
  Handler.JObject
    [(lit "title", Handler.JString (lit "Notes"));
     (lit "markdownContent", Handler.JString (lit "# a"));
     (lit "notionToken", Handler.JString (lit "secret"));
     (lit "parentPageId", Handler.JString (lit "parent-1"))].

Definition samplePayload : Handler.payload :=
  Handler.Payload (Handler.JString (lit "Notes")) (Handler.JString (lit "# a"))
    (Handler.JString (lit "secret")) (Handler.JString (lit "parent-1")).

Definition samplePage : Handler.jsvalue :=
  Handler.JObject [(lit "id", Handler.JString (lit "page-1"))].

Definition okResponse : Handler.fetchResponse :=
  Handler.FetchResponse 200 (Ret (lit "{}")) (Ret samplePage).

Definition refusal : Handler.fetchResponse :=
  Handler.FetchResponse 429 (Ret (lit "slow down")) (Throw "SyntaxError: no JSON").

Definition okNet (n : nat) (q : Handler.fetchRequest) : outcome Handler.fetchResponse :=
  Ret okResponse.

Definition refusingNet (n : nat) (q : Handler.fetchRequest)
  : outcome Handler.fetchResponse :=
  if Nat.eqb n 1 then Ret refusal else Ret okResponse.

(** The examples hold no number. *)
Definition noNumber (x : spec_float) : jsstring := [].

(** The states the outer loop of [UploadNotion.parseMarkdownWithMath] goes
    through: the cursor, with the blocks pushed so far.  The same for
    part_001, where an iteration may throw. *)
Inductive visits (lines : list jsstring)
  : nat -> list (block UploadNotion.richText) -> Prop :=
| visits_start : visits lines 0 []
| visits_next : forall i raw blocks,
    visits lines i blocks ->
    nth_error lines i = Some raw ->
    visits lines (fst (UploadNotion.iteration lines i raw))
      (blocks ++ snd (UploadNotion.iteration lines i raw)).

Inductive p1Visits (lines : list jsstring)
  : nat -> list (block Part001.richText) -> Prop :=
| p1Visits_start : p1Visits lines 0 []
| p1Visits_next : forall i raw blocks step,
    p1Visits lines i blocks ->
    nth_error lines i = Some raw ->
    Part001.iteration lines i raw = Ret step ->
    p1Visits lines (fst step) (blocks ++ snd step).

(** The texts a pattern can span, whatever stands around them. *)
Fixpoint spans (r : regex) (x : list ascii) : Prop :=
  match r with
  | REps | RBol | RNotBehind _ | RNotAhead _ => x = []
  | RSet cs => exists c, x = [c] /\ inClass cs c = true
  | RRep _ min cs => min <= length x /\ Forall (fun c => inClass cs c = true) x
  | RSeq r1 r2 => exists a b, x = a ++ b /\ spans r1 a /\ spans r2 b
  | RGroup _ r' => spans r' x
  end.

(** Where the matches of an [exec] loop lie in the text. *)
Definition liesIn (text : jsstring) (m : rmatchResult) : Prop :=
  exists a b, text = a ++ m_text m ++ b /\ m_index m = length a.

(** The message of the error thrown by part_001. *)
Definition typeError : string := "TypeError: Cannot read properties of null (reading '0')".

(* ================================================================== *)
(** ** Strings: basic facts *)
(* ================================================================== *)

Lemma truthy_nonempty (s : jsstring) : truthy s = true <-> s <> [].
Proof. destruct s; simpl; split; congruence. Qed.

Lemma startsWith_app (p s : jsstring) : startsWith (p ++ s) p = true.
Proof.
  induction p as [|a p IH]; simpl; [now destruct s|].
  now rewrite Ascii.eqb_refl, IH.
Qed.

Lemma startsWith_nil (s : jsstring) : startsWith s [] = true.
Proof. now destruct s. Qed.

Lemma startsWith_split (s p : jsstring) :
  startsWith s p = true -> s = p ++ skipn (length p) s.
Proof.
  revert s; induction p as [|a p IH]; intros s H; simpl in *; [reflexivity|].
  destruct s as [|c s]; [discriminate|]. simpl in H.
  apply andb_true_iff in H as [Hc Hs].
  apply Ascii.eqb_eq in Hc; subst c.
  simpl. f_equal. now apply IH.
Qed.

Lemma replaceStr_prefix (s p r : jsstring) :
  startsWith s p = true -> replaceStr s p r = r ++ skipn (length p) s.
Proof. intros H. destruct s; simpl in *; now rewrite H. Qed.

Lemma dropWhile_takeWhile (p : ascii -> bool) (s : jsstring) :
  takeWhile p s ++ dropWhile p s = s.
Proof.
  induction s as [|c s IH]; simpl; [reflexivity|].
  destruct (p c); simpl; [now rewrite IH | reflexivity].
Qed.

Lemma trim_nonempty (s : jsstring) : trim s <> [] -> s <> [].
Proof. intros H ->. now apply H. Qed.

(* ================================================================== *)
(** ** The matcher: what a match spans and captures *)
(* ================================================================== *)

Lemma advances_refl (st : mstate) : advances st st [].
Proof. now split. Qed.

Lemma advances_trans (a b c : mstate) (x y : list ascii) :
  advances a b x -> advances b c y -> advances a c (x ++ y).
Proof.
  intros [H1 H2] [H3 H4]; split.
  - now rewrite H3, H1, rev_app_distr, app_assoc.
  - now rewrite H2, H4, app_assoc.
Qed.

Lemma advances_text (st st' : mstate) (x : list ascii) :
  advances st st' x ->
  position st' - position st = length x /\
  rev (firstn (position st' - position st) (consumed st')) = x.
Proof.
  intros [H1 _]. unfold position. rewrite H1, length_app, length_rev.
  replace (length x + length (consumed st) - length (consumed st)) with (length x) by lia.
  split; [reflexivity|].
  rewrite <- (length_rev x), firstn_app, Nat.sub_diag, firstn_all. simpl.
  now rewrite app_nil_r, rev_involutive.
Qed.

Lemma rep_spec (g : bool) (cs : charset) (caps : list (nat * jsstring)) :
  forall rem min bef st',
    In st' (rep g cs min bef rem caps) ->
    exists x, consumed st' = rev x ++ bef /\ rem = x ++ remaining st' /\
              min <= length x /\ captures st' = caps.
Proof.
  induction rem as [|c rem IH]; intros min bef st' Hin.
  - simpl in Hin. assert (H : In st' (match min with 0 => [MState bef [] caps] | S _ => [] end)).
    { destruct g; simpl in Hin; [|rewrite app_nil_r in Hin]; exact Hin. }
    destruct min; simpl in H; [|contradiction].
    destruct H as [<-|[]]. exists []; simpl; auto.
  - simpl in Hin.
    assert (H : In st' (match min with 0 => [MState bef (c :: rem) caps] | S _ => [] end) \/
                In st' (if inClass cs c then rep g cs (pred min) (c :: bef) rem caps else [])).
    { destruct g; apply in_app_or in Hin; tauto. }
    destruct H as [H|H].
    + destruct min; simpl in H; [|contradiction].
      destruct H as [<-|[]]. exists []; simpl; auto.
    + destruct (inClass cs c); [|contradiction].
      apply IH in H as (x & H1 & H2 & H3 & H4).
      exists (c :: x); simpl. rewrite H1, <- app_assoc. simpl.
      repeat split; auto; [congruence | lia].
Qed.

Lemma rmatch_advances (r : regex) :
  forall st st', In st' (rmatch r st) ->
    exists x, advances st st' x /\ minLen r <= length x.
Proof.
  induction r as [|cs|g min cs|r1 IH1 r2 IH2|n r IH| |cs|cs]; intros st st' Hin; simpl in Hin.
  - destruct Hin as [<-|[]]. exists []. split; [apply advances_refl | simpl; lia].
  - destruct (remaining st) as [|c rem'] eqn:E; [contradiction|].
    destruct (inClass cs c); [|contradiction].
    destruct Hin as [<-|[]]. exists [c]. split; [split; simpl; auto | simpl; lia].
  - apply rep_spec in Hin as (x & H1 & H2 & H3 & _).
    exists x. split; [split; auto | exact H3].
  - apply in_flat_map in Hin as (mid & Hm & Hin).
    apply IH1 in Hm as (x & Hx & Lx). apply IH2 in Hin as (y & Hy & Ly).
    exists (x ++ y). split; [eapply advances_trans; eauto|].
    rewrite length_app. simpl. lia.
  - apply in_map_iff in Hin as (mid & <- & Hm).
    apply IH in Hm as (x & [H1 H2] & Lx). exists x. split; [split; simpl; auto | exact Lx].
  - destruct (consumed st); [|contradiction].
    destruct Hin as [<-|[]]. exists []. split; [apply advances_refl | simpl; lia].
  - exists []. split; [|simpl; lia].
    destruct (consumed st) as [|c ?]; [|destruct (inClass cs c); [contradiction|]];
      destruct Hin as [<-|[]]; apply advances_refl.
  - exists []. split; [|simpl; lia].
    destruct (remaining st) as [|c ?]; [|destruct (inClass cs c); [contradiction|]];
      destruct Hin as [<-|[]]; apply advances_refl.
Qed.

Lemma rmatch_capsNonEmpty (r : regex) :
  groupsNonEmpty r = true ->
  forall st st', In st' (rmatch r st) ->
    capsNonEmpty (captures st) -> capsNonEmpty (captures st').
Proof.
  induction r as [|cs|g min cs|r1 IH1 r2 IH2|n r IH| |cs|cs];
    intros Hg st st' Hin Hc; simpl in Hin, Hg.
  - destruct Hin as [<-|[]]; exact Hc.
  - destruct (remaining st) as [|c rem']; [contradiction|].
    destruct (inClass cs c); [|contradiction]. destruct Hin as [<-|[]]; exact Hc.
  - apply rep_spec in Hin as (x & _ & _ & _ & ->). exact Hc.
  - apply andb_true_iff in Hg as [G1 G2].
    apply in_flat_map in Hin as (mid & Hm & Hin). eauto.
  - apply andb_true_iff in Hg as [G1 G2]. apply Nat.ltb_lt in G1.
    apply in_map_iff in Hin as (mid & <- & Hm).
    intros k s. simpl. destruct (Nat.eqb n k).
    + intros [= <-]. destruct (rmatch_advances r _ _ Hm) as (x & Hx & Lx).
      apply advances_text in Hx as [_ ->]. destruct x; simpl in *; [lia | discriminate].
    + apply (IH G2 _ _ Hm Hc k s).
  - destruct (consumed st); [|contradiction]. destruct Hin as [<-|[]]; exact Hc.
  - destruct (consumed st) as [|c ?]; [|destruct (inClass cs c); [contradiction|]];
      destruct Hin as [<-|[]]; exact Hc.
  - destruct (remaining st) as [|c ?]; [|destruct (inClass cs c); [contradiction|]];
      destruct Hin as [<-|[]]; exact Hc.
Qed.

Lemma rmatch_capsDefined (r : regex) :
  forall st st' n, In st' (rmatch r st) ->
    In n (groups r) \/ lookupCapture n (captures st) <> None ->
    lookupCapture n (captures st') <> None.
Proof.
  induction r as [|cs|g min cs|r1 IH1 r2 IH2|k r IH| |cs|cs];
    intros st st' n Hin Hn; simpl in Hin, Hn.
  - destruct Hin as [<-|[]]; tauto.
  - destruct (remaining st) as [|c rem']; [contradiction|].
    destruct (inClass cs c); [|contradiction]. destruct Hin as [<-|[]]; simpl; tauto.
  - apply rep_spec in Hin as (x & _ & _ & _ & ->). tauto.
  - apply in_flat_map in Hin as (mid & Hm & Hin).
    apply (IH2 _ _ n Hin). destruct Hn as [Hn|Hn].
    + apply in_app_or in Hn as [Hn|Hn]; [right|now left].
      apply (IH1 _ _ n Hm). now left.
    + right. apply (IH1 _ _ n Hm). now right.
  - apply in_map_iff in Hin as (mid & <- & Hm). simpl.
    destruct (Nat.eqb k n) eqn:E; [discriminate|].
    apply (IH _ _ n Hm). destruct Hn as [[->|Hn]|Hn]; auto.
    now rewrite Nat.eqb_refl in E.
  - destruct (consumed st); [|contradiction]. destruct Hin as [<-|[]]; tauto.
  - destruct (consumed st) as [|c ?]; [|destruct (inClass cs c); [contradiction|]];
      destruct Hin as [<-|[]]; tauto.
  - destruct (remaining st) as [|c ?]; [|destruct (inClass cs c); [contradiction|]];
      destruct Hin as [<-|[]]; tauto.
Qed.

Lemma isMatchOf_text (r : regex) (m : rmatchResult) :
  isMatchOf r m -> minLen r <= length (m_text m).
Proof.
  intros (bef & rem & st & Hin & ->). simpl.
  destruct (rmatch_advances r _ _ Hin) as (x & Hx & Lx).
  apply advances_text in Hx as [_ Hx]. unfold position in *. simpl in *.
  now rewrite Hx.
Qed.

Lemma isMatchOf_group (r : regex) (m : rmatchResult) (n : nat) :
  isMatchOf r m -> groupsNonEmpty r = true -> In n (groups r) ->
  exists s, m_group n m = Some s /\ s <> [].
Proof.
  intros (bef & rem & st & Hin & ->) Hg Hn. unfold m_group. simpl.
  destruct (lookupCapture n (captures st)) as [s|] eqn:E.
  - exists s. split; [reflexivity|].
    refine (rmatch_capsNonEmpty r Hg _ _ Hin _ _ _ E). intros k t; discriminate.
  - exfalso. refine (rmatch_capsDefined r _ _ n Hin _ E). now left.
Qed.

Lemma isMatchOf_groupStr (r : regex) (m : rmatchResult) (n : nat) :
  isMatchOf r m -> groupsNonEmpty r = true -> In n (groups r) ->
  m_groupStr n m <> [].
Proof.
  intros Hm Hg Hn. destruct (isMatchOf_group r m n Hm Hg Hn) as (s & E & Hs).
  unfold m_groupStr. now rewrite E.
Qed.

Lemma matchHere_spec (r : regex) (bef rem : list ascii) (m : rmatchResult) (st : mstate) :
  matchHere r bef rem = Some (m, st) ->
  isMatchOf r m /\
  exists x, rem = x ++ remaining st /\ consumed st = rev x ++ bef /\
            minLen r <= length x /\ m_index m = length bef /\
            m_end m = length bef + length x /\ m_text m = x.
Proof.
  unfold matchHere. destruct (rmatch r (MState bef rem [])) as [|st0 l] eqn:E; [discriminate|].
  intros [= <- <-].
  assert (Hin : In st0 (rmatch r (MState bef rem []))) by (rewrite E; now left).
  split; [now exists bef, rem, st0|].
  destruct (rmatch_advances r _ _ Hin) as (x & Hx & Lx).
  exists x. destruct Hx as [H1 H2]. simpl in H1, H2.
  destruct (advances_text (MState bef rem []) st0 x) as [P1 P2]; [now split|].
  simpl. unfold position in *. simpl in *.
  repeat split; auto. rewrite H1, length_app, length_rev. lia.
Qed.

Lemma search_spec (r : regex) :
  forall rem bef m st,
    search r bef rem = Some (m, st) ->
    isMatchOf r m /\
    exists pre x, rem = pre ++ x ++ remaining st /\
                  consumed st = rev x ++ rev pre ++ bef /\
                  minLen r <= length x /\
                  m_index m = length bef + length pre /\
                  m_end m = m_index m + length x /\ m_text m = x.
Proof.
  induction rem as [|c rem IH]; intros bef m st H; simpl in H.
  - destruct (matchHere r bef []) as [[m0 st0]|] eqn:E; [|discriminate].
    injection H as <- <-. apply matchHere_spec in E as (Hm & x & H1 & H2 & H3 & H4 & H5 & H6).
    split; [exact Hm|]. exists [], x. simpl. repeat split; auto; lia.
  - destruct (matchHere r bef (c :: rem)) as [[m0 st0]|] eqn:E.
    + injection H as <- <-. apply matchHere_spec in E as (Hm & x & H1 & H2 & H3 & H4 & H5 & H6).
      split; [exact Hm|]. exists [], x. simpl. repeat split; auto; lia.
    + apply IH in H as (Hm & pre & x & H1 & H2 & H3 & H4 & H5 & H6).
      split; [exact Hm|]. exists (c :: pre), x. simpl.
      repeat split; auto.
      * now rewrite H1.
      * rewrite H2, <- !app_assoc. reflexivity.
      * simpl in H4. lia.
Qed.

(** The [exec] loop ends whenever the pattern cannot match the empty
    string: fuel beyond the length of the text is never used up. *)
Lemma execLoop_returns (r : regex) :
  0 < minLen r ->
  forall fuel rem bef, length rem < fuel ->
    exists ms, execLoop fuel r bef rem = Ret ms /\ Forall (isMatchOf r) ms.
Proof.
  intros Hr. induction fuel as [|fuel IH]; intros rem bef Hf; [lia|].
  simpl. destruct (search r bef rem) as [[m st]|] eqn:E.
  - apply search_spec in E as (Hm & pre & x & H1 & _ & H3 & _).
    destruct (IH (remaining st) (consumed st)) as (ms & -> & Hms).
    { rewrite H1, !length_app in Hf. lia. }
    exists (m :: ms). split; [reflexivity | now constructor].
  - exists []. split; [reflexivity | constructor].
Qed.

Lemma matchAllFrom_isMatch (r : regex) :
  forall rem bef skip, Forall (isMatchOf r) (matchAllFrom r bef rem skip).
Proof.
  induction rem as [|c rem IH]; intros bef skip; destruct skip as [|k]; simpl;
    try constructor.
  - destruct (matchHere r bef []) as [[m st]|] eqn:E; constructor; [|constructor].
    now apply matchHere_spec in E.
  - destruct (matchHere r bef (c :: rem)) as [[m st]|] eqn:E; [constructor|]; auto.
    now apply matchHere_spec in E.
  - apply IH.
Qed.

(* ================================================================== *)
(** ** [split] on a pattern with one capture group *)
(* ================================================================== *)

Lemma splitFrom_alternating (r : regex) :
  forall rem bef piece skip,
    alternating (captureOf r) (splitFrom r 1 bef rem piece skip).
Proof.
  induction rem as [|c rem IH]; intros bef piece skip; simpl; [constructor|].
  destruct skip as [|k]; [|apply IH].
  destruct (matchHere r bef (c :: rem)) as [[m st]|] eqn:E; [|apply IH].
  apply matchHere_spec in E as [Hm _].
  destruct (Nat.eqb (m_end m - m_index m) 0 && negb (truthy piece)); [apply IH|].
  unfold groupsOf. simpl. apply alt_cons; [now exists m|].
  destruct (Nat.eqb (m_end m - m_index m) 0); apply IH.
Qed.

Lemma splitRegex_alternating (r : regex) (s : jsstring) :
  alternating (captureOf r) (splitRegex r 1 s).
Proof.
  destruct s as [|c s]; simpl.
  - destruct (matchHere r [] []); constructor.
  - apply (splitFrom_alternating r (c :: s) [] [] 0).
Qed.

Lemma mod2_succ (i : nat) : i mod 2 = 0 -> S i mod 2 = 1 /\ S (S i) mod 2 = 0.
Proof.
  intros H. split.
  - replace (S i) with (i + 1) by lia. rewrite Nat.Div0.add_mod, H. reflexivity.
  - replace (S (S i)) with (i + 1 * 2) by lia. now rewrite Nat.Div0.mod_add.
Qed.

(* ================================================================== *)
(** ** upload-notion.js: the inline tokenizer *)
(* ================================================================== *)

Lemma un_inline_math_capture (g : jsstring) :
  captureOf UploadNotion.re_inline_math g -> g <> [].
Proof.
  intros (m & Hm & ->). apply (isMatchOf_groupStr _ _ 1 Hm); [reflexivity | now left].
Qed.

Lemma un_richItem_nonEmpty (i : nat) (seg : jsstring) :
  (i mod 2 = 1 -> seg <> []) ->
  Forall unNonEmpty (UploadNotion.richItem i seg).
Proof.
  intros H. unfold UploadNotion.richItem.
  destruct (Nat.eqb (i mod 2) 0) eqn:E.
  - destruct (truthy seg) eqn:T; [|constructor].
    constructor; [|constructor]. now apply truthy_nonempty.
  - apply Nat.eqb_neq in E.
    assert (Hi : i mod 2 = 1).
    { pose proof (Nat.mod_upper_bound i 2). lia. }
    destruct (startsWith seg (lit "$") && endsWith seg (lit "$")).
    + destruct (truthy (trim (slice_1_m1 seg))) eqn:T; [|constructor].
      constructor; [|constructor]. now apply truthy_nonempty.
    + constructor; [|constructor]. simpl. auto.
Qed.

Lemma un_richLoop_nonEmpty (segs : list jsstring) :
  alternating (captureOf UploadNotion.re_inline_math) segs ->
  forall i, i mod 2 = 0 -> Forall unNonEmpty (UploadNotion.richLoop segs i).
Proof.
  induction 1 as [|piece|piece g rest Hg Halt IH]; intros i Hi; simpl.
  - constructor.
  - rewrite app_nil_r. apply un_richItem_nonEmpty. intros Hodd. congruence.
  - destruct (mod2_succ i Hi) as [H1 H2].
    apply Forall_app; split; [apply un_richItem_nonEmpty; intros; congruence|].
    apply Forall_app; split; [|now apply IH].
    apply un_richItem_nonEmpty. intros _. now apply un_inline_math_capture.
Qed.

Lemma un_processRichText_nonEmpty (text : jsstring) :
  Forall unNonEmpty (UploadNotion.processRichText text).
Proof.
  apply un_richLoop_nonEmpty; [apply splitRegex_alternating | reflexivity].
Qed.

(* ================================================================== *)
(** ** part_001: the formatting pass *)
(* ================================================================== *)

Lemma p1_patterns_progress :
  Forall (fun p => 0 < minLen (Part001.p_regex p)) Part001.patterns.
Proof. repeat constructor. Qed.

Lemma p1_mkMatch_good (p : Part001.pattern) (m : rmatchResult) :
  In p Part001.patterns -> isMatchOf (Part001.p_regex p) m ->
  goodMatch (Part001.mkMatch p m).
Proof.
  intros Hp Hm. unfold goodMatch, Part001.mkMatch; simpl.
  destruct Hp as [<-|[<-|[<-|[<-|[]]]]]; simpl in *;
    (split; [apply (isMatchOf_groupStr _ _ 1 Hm); [reflexivity | simpl; tauto]|]);
    try discriminate.
  intros _. destruct (isMatchOf_group _ _ 2 Hm) as (u & -> & Hu);
    [reflexivity | simpl; tauto|].
  exists u. apply truthy_nonempty in Hu as Ht. now rewrite Ht.
Qed.

Lemma p1_collect_returns (text : jsstring) :
  forall ps, incl ps Part001.patterns ->
    exists ms, Part001.collect ps text = Ret ms /\ Forall goodMatch ms.
Proof.
  induction ps as [|p ps IH]; intros Hincl; simpl.
  - exists []. split; [reflexivity | constructor].
  - assert (Hp : In p Part001.patterns) by (apply Hincl; now left).
    destruct (execLoop_returns (Part001.p_regex p)) with
      (fuel := S (length text)) (rem := text) (bef := @nil ascii) as (ms & E & Hms).
    { exact (proj1 (Forall_forall _ _) p1_patterns_progress p Hp). }
    { lia. }
    simpl in E. rewrite E. simpl.
    destruct IH as (rest & -> & Hrest).
    { intros q Hq. apply Hincl. now right. }
    simpl. eexists. split; [reflexivity|].
    apply Forall_app; split; [|exact Hrest].
    apply Forall_forall. intros fm Hfm. apply in_map_iff in Hfm as (m & <- & Hin).
    apply p1_mkMatch_good; [exact Hp|].
    exact (proj1 (Forall_forall _ _) Hms m Hin).
Qed.

Lemma p1_insertByStart_In (x y : Part001.fmatch) (l : list Part001.fmatch) :
  In y (Part001.insertByStart x l) -> y = x \/ In y l.
Proof.
  induction l as [|z l IH]; simpl.
  - intros [<-|[]]; auto.
  - destruct (Nat.ltb (Part001.f_start x) (Part001.f_start z)); simpl.
    + intros [<-|H]; auto.
    + intros [<-|H]; auto. destruct (IH H); auto.
Qed.

Lemma p1_sortByStart_Forall (P : Part001.fmatch -> Prop) (l : list Part001.fmatch) :
  Forall P l -> Forall P (Part001.sortByStart l).
Proof.
  unfold Part001.sortByStart.
  assert (G : forall l acc, Forall P l -> Forall P acc ->
            Forall P (fold_left (fun acc x => Part001.insertByStart x acc) l acc)).
  { clear l. induction l as [|x l IH]; intros acc Hl Hacc; simpl; [exact Hacc|].
    inversion Hl as [|? ? Hx Hl']; subst. apply IH; [exact Hl'|].
    apply Forall_forall. intros y Hy.
    destruct (p1_insertByStart_In x y acc Hy) as [->|Hin]; [exact Hx|].
    exact (proj1 (Forall_forall _ _) Hacc y Hin). }
  intros H. apply G; [exact H | constructor].
Qed.

Lemma keepFrom_cons (acc : list Part001.fmatch) (x : Part001.fmatch)
    (l : list Part001.fmatch) :
  keepFrom acc (x :: l) =
  keepFrom (if existsb (Part001.overlaps x) acc then acc else acc ++ [x]) l.
Proof. reflexivity. Qed.

Lemma p1_keepFrom_Forall (P : Part001.fmatch -> Prop) :
  forall l acc, Forall P l -> Forall P acc -> Forall P (keepFrom acc l).
Proof.
  induction l as [|x l IH]; intros acc Hl Hacc; [exact Hacc|].
  rewrite keepFrom_cons.
  inversion Hl as [|? ? Hx Hl']; subst. apply IH; [exact Hl'|].
  destruct (existsb (Part001.overlaps x) acc); [exact Hacc|].
  apply Forall_app; split; [exact Hacc | now constructor].
Qed.

(** What is kept is never dropped again. *)
Lemma p1_keepFrom_prefix :
  forall l acc, exists tl, keepFrom acc l = acc ++ tl.
Proof.
  induction l as [|x l IH]; intros acc.
  - exists []. simpl. now rewrite app_nil_r.
  - rewrite keepFrom_cons.
    destruct (existsb (Part001.overlaps x) acc); [apply IH|].
    destruct (IH (acc ++ [x])) as (tl & E). exists (x :: tl).
    rewrite E, <- app_assoc. reflexivity.
Qed.

Lemma ForallOrdPairs_snoc {A : Type} (R : A -> A -> Prop) (l : list A) (x : A) :
  ForallOrdPairs R l -> Forall (fun a => R a x) l -> ForallOrdPairs R (l ++ [x]).
Proof.
  induction 1 as [|a l Ha Hl IH]; intros Hx; simpl.
  - constructor; constructor.
  - inversion Hx as [|? ? Hax Hx']; subst. constructor; [|now apply IH].
    apply Forall_app; split; [exact Ha | now constructor].
Qed.

Lemma p1_keepFrom_disjoint :
  forall l acc, disjointMatches acc -> disjointMatches (keepFrom acc l).
Proof.
  induction l as [|x l IH]; intros acc Hacc; [exact Hacc|].
  rewrite keepFrom_cons.
  destruct (existsb (Part001.overlaps x) acc) eqn:E; apply IH; [exact Hacc|].
  apply ForallOrdPairs_snoc; [exact Hacc|].
  apply Forall_forall. intros a Ha.
  destruct (Part001.overlaps x a) eqn:O; [|reflexivity].
  assert (existsb (Part001.overlaps x) acc = true)
    by (apply existsb_exists; now exists a).
  congruence.
Qed.

(** The selection is greedy from the left: the first candidate is always
    kept, and no two kept matches overlap. *)
Lemma p1_keepValid_greedy (m : Part001.fmatch) (ms : list Part001.fmatch) :
  (exists tl, Part001.keepValid (m :: ms) = m :: tl) /\
  disjointMatches (Part001.keepValid (m :: ms)).
Proof.
  split.
  - destruct (p1_keepFrom_prefix ms [m]) as (tl & E). now exists tl.
  - apply (p1_keepFrom_disjoint (m :: ms) []). constructor.
Qed.

Lemma p1_plain_good (s : jsstring) : s <> [] -> goodPart (Part001.plain s).
Proof. intros H. split; [exact H | exact I]. Qed.

Lemma p1_formatted_good (m : Part001.fmatch) :
  goodMatch m -> goodPart (Part001.formatted m).
Proof.
  intros [Hc Hu]. unfold Part001.formatted.
  destruct (Part001.f_type m); (split; [exact Hc|]); simpl; auto.
Qed.

Lemma p1_build_good (text : jsstring) :
  forall ms parts lastEnd,
    Forall goodMatch ms -> Forall goodPart parts ->
    Forall goodPart (fst (fold_left (Part001.buildStep text) ms (parts, lastEnd))).
Proof.
  induction ms as [|m ms IH]; intros parts lastEnd Hms Hparts; simpl; [exact Hparts|].
  inversion Hms as [|? ? Hm Hms']; subst. apply IH; [exact Hms'|].
  apply Forall_app; split; [exact Hparts|].
  apply Forall_app; split; [|constructor; [now apply p1_formatted_good | constructor]].
  destruct (Nat.ltb lastEnd (Part001.f_start m)); [|constructor].
  destruct (truthy (substring text lastEnd (Part001.f_start m))) eqn:T; [|constructor].
  constructor; [|constructor]. apply p1_plain_good. now apply truthy_nonempty.
Qed.

(** The formatting pass returns on every text, and its parts are never
    empty; a part with a link has a non-empty URL. *)
Lemma p1_processTextFormatting_returns (text : jsstring) :
  exists parts, Part001.processTextFormatting text = Ret parts /\
                Forall goodPart parts.
Proof.
  unfold Part001.processTextFormatting.
  destruct (p1_collect_returns text Part001.patterns (incl_refl _)) as (ms & -> & Hms).
  simpl.
  pose proof (p1_build_good text
                (Part001.keepValid (Part001.sortByStart ms)) [] 0) as Hb.
  destruct (fold_left (Part001.buildStep text)
              (Part001.keepValid (Part001.sortByStart ms)) ([], 0)) as [parts lastEnd].
  simpl in Hb.
  assert (Hparts : Forall goodPart parts).
  { apply Hb; [|constructor].
    apply (p1_keepFrom_Forall goodMatch); [|constructor].
    now apply p1_sortByStart_Forall. }
  eexists. split; [reflexivity|].
  assert (Hparts1 : Forall goodPart
            (if Nat.ltb lastEnd (length text)
             then if truthy (substringFrom text lastEnd)
                  then parts ++ [Part001.plain (substringFrom text lastEnd)]
                  else parts
             else parts)).
  { destruct (Nat.ltb lastEnd (length text)); [|exact Hparts].
    destruct (truthy (substringFrom text lastEnd)) eqn:T; [|exact Hparts].
    apply Forall_app; split; [exact Hparts|].
    constructor; [|constructor]. apply p1_plain_good. now apply truthy_nonempty. }
  match goal with |- Forall _ (if ?c then _ else _) => destruct c eqn:C end;
    [|exact Hparts1].
  apply Forall_app; split; [exact Hparts1|].
  constructor; [|constructor]. apply p1_plain_good.
  apply andb_true_iff in C as [_ C]. apply truthy_nonempty in C.
  now apply trim_nonempty.
Qed.

(* ================================================================== *)
(** ** part_001: restoring the equations *)
(* ================================================================== *)

Ltac case_outcome m :=
  let E := fresh "E" in destruct m eqn:E; simpl; try discriminate.

Lemma p1_restoreSegment_good (ph : list jsstring) (annot : option Part001.annotations)
    (segment : jsstring) (items : list Part001.richText) :
  Part001.restoreSegment ph annot segment = Ret items -> Forall goodPart items.
Proof.
  unfold Part001.restoreSegment.
  destruct (startsWith segment (lit "__MATH_") && endsWith segment (lit "__")).
  - destruct (matchFirst Part001.re_digits segment) as [m|]; [|discriminate].
    destruct (nth_error ph (parseDigits (m_text m))) as [e|]; intros [= <-]; [|constructor].
    destruct (truthy e) eqn:T; [|constructor].
    constructor; [|constructor]. split; [|exact I]. now apply truthy_nonempty.
  - destruct (truthy segment) eqn:T; intros [= <-]; [|constructor].
    constructor; [|constructor]. split; [|exact I]. now apply truthy_nonempty.
Qed.

Lemma p1_restoreSegment_terminates (ph : list jsstring)
    (annot : option Part001.annotations) (segment : jsstring) :
  terminates (Part001.restoreSegment ph annot segment).
Proof.
  unfold terminates, Part001.restoreSegment.
  destruct (startsWith segment (lit "__MATH_") && endsWith segment (lit "__")).
  - destruct (matchFirst Part001.re_digits segment) as [m|]; [|discriminate].
    destruct (nth_error ph (parseDigits (m_text m))); discriminate.
  - destruct (truthy segment); discriminate.
Qed.

Lemma p1_restoreSegments_good (ph : list jsstring) (annot : option Part001.annotations) :
  forall segments items,
    Part001.restoreSegments ph annot segments = Ret items -> Forall goodPart items.
Proof.
  induction segments as [|seg rest IH]; intros items; simpl.
  - intros [= <-]. constructor.
  - case_outcome (Part001.restoreSegment ph annot seg).
    case_outcome (Part001.restoreSegments ph annot rest).
    intros [= <-]. apply Forall_app; split; [|now apply IH].
    eapply p1_restoreSegment_good; eauto.
Qed.

Lemma p1_restoreSegments_terminates (ph : list jsstring)
    (annot : option Part001.annotations) :
  forall segments, terminates (Part001.restoreSegments ph annot segments).
Proof.
  unfold terminates. induction segments as [|seg rest IH]; simpl; [discriminate|].
  pose proof (p1_restoreSegment_terminates ph annot seg) as H. unfold terminates in H.
  destruct (Part001.restoreSegment ph annot seg); simpl; try congruence.
  destruct (Part001.restoreSegments ph annot rest); simpl; congruence.
Qed.

Lemma p1_restorePart_good (ph : list jsstring) (part : Part001.richText)
    (items : list Part001.richText) :
  goodPart part -> Part001.restorePart ph part = Ret items -> Forall goodPart items.
Proof.
  intros Hp. destruct part as [content link annot|e]; unfold Part001.restorePart.
  - destruct (includes content (lit "__MATH_")).
    + apply p1_restoreSegments_good.
    + intros [= <-]. now constructor.
  - intros [= <-]. now constructor.
Qed.

Lemma p1_restorePart_terminates (ph : list jsstring) (part : Part001.richText) :
  terminates (Part001.restorePart ph part).
Proof.
  destruct part as [content link annot|e]; unfold Part001.restorePart; [|discriminate].
  destruct (includes content (lit "__MATH_")); [|discriminate].
  apply p1_restoreSegments_terminates.
Qed.

Lemma p1_restoreParts_good (ph : list jsstring) :
  forall parts items,
    Forall goodPart parts ->
    Part001.restoreParts ph parts = Ret items -> Forall goodPart items.
Proof.
  induction parts as [|part rest IH]; intros items Hparts; simpl.
  - intros [= <-]. constructor.
  - inversion Hparts as [|? ? Hp Hrest]; subst.
    case_outcome (Part001.restorePart ph part).
    case_outcome (Part001.restoreParts ph rest).
    intros [= <-]. apply Forall_app; split; [|now apply IH].
    eapply p1_restorePart_good; eauto.
Qed.

Lemma p1_restoreParts_terminates (ph : list jsstring) :
  forall parts, terminates (Part001.restoreParts ph parts).
Proof.
  unfold terminates. induction parts as [|part rest IH]; simpl; [discriminate|].
  pose proof (p1_restorePart_terminates ph part) as H. unfold terminates in H.
  destruct (Part001.restorePart ph part); simpl; try congruence.
  destruct (Part001.restoreParts ph rest); simpl; congruence.
Qed.

Lemma p1_processRichText_good (text : jsstring) (segs : list Part001.richText) :
  Part001.processRichText text = Ret segs -> Forall goodPart segs.
Proof.
  unfold Part001.processRichText.
  destruct (replaceAll Part001.protectMath Part001.re_inline_math text (0, []))
    as [[idx ph] tempText].
  destruct (p1_processTextFormatting_returns tempText) as (parts & -> & Hparts).
  simpl. now apply p1_restoreParts_good.
Qed.

(** The tokenizer of part_001 ends on every text: it returns or throws. *)
Lemma p1_processRichText_terminates (text : jsstring) :
  terminates (Part001.processRichText text).
Proof.
  unfold Part001.processRichText.
  destruct (replaceAll Part001.protectMath Part001.re_inline_math text (0, []))
    as [[idx ph] tempText].
  destruct (p1_processTextFormatting_returns tempText) as (parts & -> & _).
  simpl. apply p1_restoreParts_terminates.
Qed.

(* ================================================================== *)
(** ** The block scanners: progress of the cursor *)
(* ================================================================== *)

Lemma codeLoop_bounds :
  forall rest i acc,
    i <= fst (codeLoop rest i acc) <= i + length rest.
Proof.
  induction rest as [|l rest IH]; intros i acc; simpl; [lia|].
  destruct (startsWith (trim l) (lit "```")); simpl; [lia|].
  specialize (IH (S i) (acc ++ [l])). lia.
Qed.

Lemma un_mathLoop_bounds :
  forall rest i acc,
    i <= fst (UploadNotion.mathLoop rest i acc) <= i + length rest.
Proof.
  induction rest as [|l rest IH]; intros i acc; simpl; [lia|].
  destruct (endsWith (trim l) (lit "$$")); simpl; [lia|].
  specialize (IH (S i) (acc ++ [l])). lia.
Qed.

Lemma p1_mathLoop_bounds :
  forall rest i acc,
    i <= fst (Part001.mathLoop rest i acc) <= i + length rest.
Proof.
  induction rest as [|l rest IH]; intros i acc; simpl; [lia|].
  destruct (endsWith (trim l) (lit "$")); simpl; [lia|].
  specialize (IH (S i) (acc ++ [l])). lia.
Qed.

Lemma skipn_S_length (lines : list jsstring) (i : nat) (raw : jsstring) :
  nth_error lines i = Some raw -> S i + length (skipn (S i) lines) = length lines.
Proof.
  intros H. assert (i < length lines) by (apply nth_error_Some; congruence).
  rewrite length_skipn. lia.
Qed.

(** Every iteration of the outer loop of upload-notion.js moves the cursor
    forward, the inner loops included, and at most one past the end. *)
Lemma un_iteration_progress (lines : list jsstring) (i : nat) (raw : jsstring) :
  nth_error lines i = Some raw ->
  i < fst (UploadNotion.iteration lines i raw) <= S (length lines).
Proof.
  intros H. pose proof (skipn_S_length lines i raw H) as L.
  unfold UploadNotion.iteration.
  repeat match goal with
  | |- context [let '(_, _) := UploadNotion.mathLoop ?r ?k ?a in _] =>
      pose proof (un_mathLoop_bounds r k a);
      destruct (UploadNotion.mathLoop r k a); simpl in *
  | |- context [let '(_, _) := codeLoop ?r ?k ?a in _] =>
      pose proof (codeLoop_bounds r k a);
      destruct (codeLoop r k a); simpl in *
  | |- context [if ?c then _ else _] => destruct c; simpl
  end; lia.
Qed.

(** The outer loop of upload-notion.js returns when its fuel covers the
    lines that are left. *)
Lemma un_scanLoop_returns (lines : list jsstring) :
  forall fuel i, length lines <= fuel + i ->
    returns (UploadNotion.scanLoop fuel lines i).
Proof.
  induction fuel as [|fuel IH]; intros i Hf; simpl;
    destruct (nth_error lines i) as [raw|] eqn:E; try (now exists []).
  - assert (i < length lines) by (apply nth_error_Some; congruence). lia.
  - pose proof (un_iteration_progress lines i raw E) as P.
    destruct (UploadNotion.iteration lines i raw) as [i' pushed]. simpl in P.
    destruct (IH i') as (rest & ->); [lia|]. simpl. now eexists.
Qed.

Lemma un_scanLoop_fuel (lines : list jsstring) :
  forall fuel fuel' i,
    length lines <= fuel + i -> length lines <= fuel' + i ->
    UploadNotion.scanLoop fuel lines i = UploadNotion.scanLoop fuel' lines i.
Proof.
  induction fuel as [|fuel IH]; intros fuel' i Hf Hf'.
  - destruct fuel'; simpl; destruct (nth_error lines i) as [raw|] eqn:E; try reflexivity.
    assert (i < length lines) by (apply nth_error_Some; congruence). lia.
  - destruct fuel' as [|fuel']; simpl; destruct (nth_error lines i) as [raw|] eqn:E;
      try reflexivity.
    + assert (i < length lines) by (apply nth_error_Some; congruence). lia.
    + pose proof (un_iteration_progress lines i raw E) as P.
      destruct (UploadNotion.iteration lines i raw) as [i' pushed]. simpl in P.
      rewrite (IH fuel' i'); [reflexivity | lia | lia].
Qed.

(** What the loop pushes from a cursor it reaches is the end of what it
    pushes in all. *)
Lemma un_reaches_suffix (lines : list jsstring) (i : nat) :
  reaches lines i ->
  forall fuel rest,
    length lines <= fuel + i ->
    UploadNotion.scanLoop fuel lines i = Ret rest ->
    exists bs, UploadNotion.scanLoop (length lines) lines 0 = Ret (bs ++ rest).
Proof.
  induction 1 as [|i raw Hr IH Hn]; intros fuel rest Hf Hs.
  - exists []. simpl. rewrite <- Hs. apply un_scanLoop_fuel; lia.
  - pose proof (un_iteration_progress lines i raw Hn) as P.
    destruct (IH (S (length lines)) (snd (UploadNotion.iteration lines i raw) ++ rest))
      as (bs & Q).
    + lia.
    + simpl. rewrite Hn.
      destruct (UploadNotion.iteration lines i raw) as [i' pushed]. simpl in *.
      rewrite (un_scanLoop_fuel lines (length lines) fuel i') by lia.
      now rewrite Hs.
    + exists (bs ++ snd (UploadNotion.iteration lines i raw)).
      now rewrite <- app_assoc.
Qed.

Lemma codeLoop_open :
  forall rest i acc,
    Forall (fun l => startsWith (trim l) (lit "```") = false) rest ->
    codeLoop rest i acc = (i + length rest, acc ++ rest).
Proof.
  induction rest as [|l rest IH]; intros i acc H; simpl.
  - now rewrite Nat.add_0_r, app_nil_r.
  - inversion H as [|? ? Hl Hrest]; subst. rewrite Hl, IH by exact Hrest.
    rewrite <- app_assoc. simpl. f_equal. lia.
Qed.

Lemma backtick_not_dollar (line : jsstring) :
  startsWith line (lit "```") = true -> startsWith line (lit "$$") = false.
Proof.
  destruct line as [|c line]; [discriminate|].
  unfold lit; simpl. destruct (Ascii.eqb c "`") eqn:E; [|discriminate].
  apply Ascii.eqb_eq in E; subst c. reflexivity.
Qed.

Lemma hash_not_others (line : jsstring) :
  startsWith line (lit "#") = true ->
  startsWith line (lit "$$") = false /\ startsWith line (lit "```") = false /\
  isDividerLine line = false.
Proof.
  destruct line as [|c line]; [discriminate|].
  unfold lit; simpl. destruct (Ascii.eqb c "#") eqn:E; [|discriminate].
  apply Ascii.eqb_eq in E; subst c. intros _. repeat split.
Qed.

(* ================================================================== *)
(** ** Greedy repetition and the heading patterns *)
(* ================================================================== *)

Lemma rep_greedy_head (cs : charset) (caps : list (nat * jsstring)) :
  forall rem min bef,
    min <= length (takeWhile (inClass cs) rem) ->
    exists tl,
      rep true cs min bef rem caps =
      MState (rev (takeWhile (inClass cs) rem) ++ bef)
             (dropWhile (inClass cs) rem) caps :: tl.
Proof.
  induction rem as [|c rem IH]; intros min bef Hmin; simpl in *.
  - assert (min = 0) by lia; subst. now exists [].
  - destruct (inClass cs c); simpl in *.
    + destruct (IH (pred min) (c :: bef)) as (tl & ->); [lia|].
      rewrite <- app_assoc. simpl. now eexists.
    + assert (min = 0) by lia; subst. now exists [].
Qed.

Lemma search_here (r : regex) (bef rem : list ascii) (res : rmatchResult * mstate) :
  matchHere r bef rem = Some res -> search r bef rem = Some res.
Proof. intros H. destruct rem; simpl; now rewrite H. Qed.

Lemma takeWhile_ext (p q : ascii -> bool) (s : jsstring) :
  (forall c, p c = q c) -> takeWhile p s = takeWhile q s.
Proof. intros H. induction s as [|c s IH]; simpl; [reflexivity|]. now rewrite H, IH. Qed.

Lemma dropWhile_ext (p q : ascii -> bool) (s : jsstring) :
  (forall c, p c = q c) -> dropWhile p s = dropWhile q s.
Proof. intros H. induction s as [|c s IH]; simpl; [reflexivity|]. now rewrite H, IH. Qed.

Lemma inClass_hash (c : ascii) : inClass (COneOf ["#"%char]) c = isHash c.
Proof. unfold isHash. simpl. apply orb_false_r. Qed.

Lemma hashes_at_least_one (line : jsstring) :
  startsWith line (lit "#") = true -> 1 <= length (takeWhile isHash line).
Proof.
  destruct line as [|c line]; [discriminate|]. unfold lit, isHash; simpl.
  destruct (Ascii.eqb c "#"); [simpl; lia | discriminate].
Qed.

(** On a line that starts with [#], replacing the hash pattern by the empty
    string removes exactly the leading run of [#]. *)
Lemma replace_hashes (line : jsstring) :
  startsWith line (lit "#") = true ->
  replaceFirst re_hashes [] line = dropWhile isHash line.
Proof.
  intros H. apply hashes_at_least_one in H.
  rewrite (takeWhile_ext _ _ line (fun c => eq_sym (inClass_hash c))) in H.
  unfold replaceFirst.
  destruct (rep_greedy_head (COneOf ["#"%char]) [] line 1 [] H) as (tl & E).
  rewrite (search_here re_hashes [] line
             (MatchResult 0
                (length (rev (takeWhile (inClass (COneOf ["#"%char])) line) ++ []))
                (rev (firstn
                   (length (rev (takeWhile (inClass (COneOf ["#"%char])) line) ++ []) - 0)
                   (rev (takeWhile (inClass (COneOf ["#"%char])) line) ++ [])))
                [],
              MState (rev (takeWhile (inClass (COneOf ["#"%char])) line) ++ [])
                (dropWhile (inClass (COneOf ["#"%char])) line) [])).
  - simpl. apply dropWhile_ext, inClass_hash.
  - unfold matchHere, re_hashes. simpl. unfold RPlus. simpl rmatch.
    rewrite E. reflexivity.
Qed.

(** Replacing the heading pattern removes the leading run of [#] and the
    white space after it. *)
Lemma replace_heading (line : jsstring) :
  startsWith line (lit "#") = true ->
  replaceFirst re_heading [] line = dropWhile isSpace (dropWhile isHash line).
Proof.
  intros H. apply hashes_at_least_one in H.
  rewrite (takeWhile_ext _ _ line (fun c => eq_sym (inClass_hash c))) in H.
  rewrite <- (dropWhile_ext _ _ line inClass_hash).
  set (hs := takeWhile (inClass (COneOf ["#"%char])) line) in *.
  set (rest := dropWhile (inClass (COneOf ["#"%char])) line).
  destruct (rep_greedy_head (COneOf ["#"%char]) [] line 1 [] H) as (tl & E).
  destruct (rep_greedy_head CSpace [] rest 0 (rev hs ++ []) (Nat.le_0_l _)) as (tl' & E').
  fold hs rest in E.
  unfold replaceFirst.
  set (st := MState (rev (takeWhile (inClass CSpace) rest) ++ rev hs ++ [])
               (dropWhile (inClass CSpace) rest) []) in *.
  rewrite (search_here re_heading [] line
             (MatchResult 0 (position st)
                (rev (firstn (position st - 0) (consumed st))) [], st)).
  - reflexivity.
  - unfold matchHere, re_heading. simpl. unfold RPlus, RStar. simpl rmatch.
    rewrite E. simpl. rewrite E'. reflexivity.
Qed.

Lemma headingType_min (n : nat) : 1 <= n -> headingType n = Nat.min n 3.
Proof.
  intros H. unfold headingType.
  destruct n as [|[|[|n]]]; simpl; try lia; reflexivity.
Qed.

Lemma hashes_level (line : jsstring) :
  length line - length (dropWhile isHash line) = length (takeWhile isHash line).
Proof.
  rewrite <- (dropWhile_takeWhile isHash line) at 1. rewrite length_app. lia.
Qed.

(* ================================================================== *)
(** ** upload-notion.js: the block scanner *)
(* ================================================================== *)

Lemma skipn_nth_error {A : Type} (l : list A) :
  forall i x, nth_error l i = Some x -> skipn i l = x :: skipn (S i) l.
Proof.
  induction l as [|a l IH]; intros [|i] x H; simpl in *; try discriminate.
  - now injection H as ->.
  - now apply IH.
Qed.

Lemma un_iteration_plain (lines : list jsstring) (i : nat) (raw : jsstring) :
  plainLine (lit "$$") (trim raw) = true ->
  UploadNotion.iteration lines i raw =
  (S i, if truthy (trim raw)
        then [Paragraph (UploadNotion.processRichText (trim raw))] else []).
Proof.
  unfold plainLine, firstMatch, checkOrder, UploadNotion.iteration. simpl.
  repeat match goal with
  | |- context [if ?c then _ else _] => destruct c; simpl; try discriminate
  end; reflexivity.
Qed.

Lemma un_scanLoop_plain (lines : list jsstring) :
  Forall (fun l => plainLine (lit "$$") (trim l) = true) lines ->
  forall fuel i, length lines <= fuel + i ->
    UploadNotion.scanLoop fuel lines i =
    Ret (map (fun l => Paragraph (UploadNotion.processRichText (trim l)))
             (filter (fun l => truthy (trim l)) (skipn i lines))).
Proof.
  intros Hall. induction fuel as [|fuel IH]; intros i Hf; simpl;
    destruct (nth_error lines i) as [raw|] eqn:E.
  - assert (i < length lines) by (apply nth_error_Some; congruence). lia.
  - apply nth_error_None in E. now rewrite skipn_all2.
  - rewrite (skipn_nth_error lines i raw E).
    rewrite un_iteration_plain
      by (apply (proj1 (Forall_forall _ _) Hall); eapply nth_error_In; eauto).
    rewrite IH by lia. simpl. destruct (truthy (trim raw)); reflexivity.
  - apply nth_error_None in E. now rewrite skipn_all2.
Qed.

(** C3.  For every document whose lines carry no construct marker (each is
    a plain paragraph line or blank), [parseMarkdownWithMath] of
    upload-notion.js returns exactly one [Paragraph] per non-blank line, in
    the order of the lines; its text is the tokenized trimmed line. *)
Theorem C3_plain_paragraphs (markdownContent : jsstring) :
  Forall (fun l => plainLine (lit "$$") (trim l) = true) (splitOn LF markdownContent) ->
  UploadNotion.parseMarkdownWithMath markdownContent =
  Ret (map (fun l => Paragraph (UploadNotion.processRichText (trim l)))
           (filter (fun l => truthy (trim l)) (splitOn LF markdownContent))).
Proof.
  intros H. unfold UploadNotion.parseMarkdownWithMath.
  rewrite (un_scanLoop_plain _ H) by lia. reflexivity.
Qed.

Lemma C3_plain_paragraphs_witness :
  UploadNotion.parseMarkdownWithMath (lit "one" ++ [LF] ++ lit "  " ++ [LF] ++ lit " two $x$") =
  Ret [Paragraph [UploadNotion.Text (lit "one")];
       Paragraph [UploadNotion.Text (lit "two "); UploadNotion.InlineEquation (lit "x")]].
Proof.
  rewrite C3_plain_paragraphs.
  - vm_compute. reflexivity.
  - vm_compute. repeat constructor.
Defined.

Lemma un_scanLoop_end (lines : list jsstring) (fuel i : nat) :
  length lines <= i -> UploadNotion.scanLoop fuel lines i = Ret [].
Proof.
  intros H. apply nth_error_None in H. destruct fuel; simpl; now rewrite H.
Qed.

Lemma un_scanLoop_step (lines : list jsstring) (fuel i : nat) (raw : jsstring) :
  nth_error lines i = Some raw ->
  UploadNotion.scanLoop (S fuel) lines i =
  (rest <- UploadNotion.scanLoop fuel lines (fst (UploadNotion.iteration lines i raw)) ;;
   Ret (snd (UploadNotion.iteration lines i raw) ++ rest)).
Proof.
  intros H. simpl. rewrite H. now destruct (UploadNotion.iteration lines i raw).
Qed.

(** C5.  When the outer loop of upload-notion.js reaches a line that opens
    a code fence and no later line closes it, the conversion still returns:
    its last block is a [Code] block whose content is every line after the
    opener, joined with newlines. *)
Theorem C5_unterminated_fence (markdownContent : jsstring) (i : nat) (raw : jsstring) :
  reaches (splitOn LF markdownContent) i ->
  nth_error (splitOn LF markdownContent) i = Some raw ->
  startsWith (trim raw) (lit "```") = true ->
  Forall (fun l => startsWith (trim l) (lit "```") = false)
         (skipn (S i) (splitOn LF markdownContent)) ->
  exists bs,
    UploadNotion.parseMarkdownWithMath markdownContent =
    Ret (bs ++ [Code (join [LF] (skipn (S i) (splitOn LF markdownContent)))
                     (fenceLanguage (trim raw))]).
Proof.
  intros Hr Hn Ho Hc. unfold UploadNotion.parseMarkdownWithMath.
  set (lines := splitOn LF markdownContent) in *.
  apply (un_reaches_suffix lines i Hr (S (length lines))); [lia|].
  rewrite (un_scanLoop_step lines _ i raw Hn). unfold UploadNotion.iteration.
  rewrite (backtick_not_dollar _ Ho), Ho, (codeLoop_open _ _ _ Hc).
  cbn [fst snd]. rewrite un_scanLoop_end; [reflexivity|].
  pose proof (skipn_S_length lines i raw Hn). lia.
Qed.

Lemma C5_unterminated_fence_witness :
  exists bs,
    UploadNotion.parseMarkdownWithMath
      (lit "intro" ++ [LF] ++ lit "```js" ++ [LF] ++ lit "x = 1" ++ [LF] ++ lit "# y") =
    Ret (bs ++ [Code (lit "x = 1" ++ [LF] ++ lit "# y") (lit "js")]).
Proof.
  apply (C5_unterminated_fence
           (lit "intro" ++ [LF] ++ lit "```js" ++ [LF] ++ lit "x = 1" ++ [LF] ++ lit "# y")
           1 (lit "```js")).
  - apply (@reaches_next _ 0 (lit "intro")); [apply reaches_start | reflexivity].
  - reflexivity.
  - reflexivity.
  - vm_compute. repeat constructor.
Defined.

Lemma fenceLanguage_spec (line : jsstring) :
  startsWith line (lit "```") = true -> fenceLanguage line = specLanguage line.
Proof.
  intros H. unfold fenceLanguage, specLanguage.
  rewrite (replaceStr_prefix line (lit "```") [] H).
  change ([] ++ skipn (length (lit "```")) line) with (skipn 3 line).
  destruct (trim (skipn 3 line)); reflexivity.
Qed.

(** What the loop pushes from a state it visits completes what it has
    pushed so far to the result of the conversion. *)
Lemma un_visits_output (lines : list jsstring) (i : nat)
    (before : list (block UploadNotion.richText)) :
  visits lines i before ->
  forall fuel rest,
    length lines <= fuel + i ->
    UploadNotion.scanLoop fuel lines i = Ret rest ->
    UploadNotion.scanLoop (length lines) lines 0 = Ret (before ++ rest).
Proof.
  induction 1 as [|i raw before Hv IH Hn]; intros fuel rest Hf Hs.
  - simpl. rewrite <- Hs. apply un_scanLoop_fuel; lia.
  - pose proof (un_iteration_progress lines i raw Hn) as P.
    rewrite <- app_assoc. apply (IH (S (length lines))); [lia|].
    rewrite (un_scanLoop_step lines _ i raw Hn).
    rewrite (un_scanLoop_fuel lines (length lines) fuel) by lia.
    now rewrite Hs.
Qed.

(** What the scanner returns when its loop visits line [i]: the blocks
    pushed before, the blocks the iteration on that line pushes, and the
    blocks of the lines after it. *)
Lemma un_visits_line (markdownContent : jsstring) (i : nat) (raw : jsstring)
    (before : list (block UploadNotion.richText)) :
  visits (splitOn LF markdownContent) i before ->
  nth_error (splitOn LF markdownContent) i = Some raw ->
  exists after,
    UploadNotion.parseMarkdownWithMath markdownContent =
    Ret (before ++
         snd (UploadNotion.iteration (splitOn LF markdownContent) i raw) ++ after).
Proof.
  intros Hv Hn. unfold UploadNotion.parseMarkdownWithMath.
  set (lines := splitOn LF markdownContent) in *.
  pose proof (un_iteration_progress lines i raw Hn) as P.
  destruct (un_scanLoop_returns lines (length lines)
              (fst (UploadNotion.iteration lines i raw))) as (after & A); [lia|].
  exists after. apply (un_visits_output lines i before Hv (S (length lines))); [lia|].
  rewrite (un_scanLoop_step lines _ i raw Hn), A. reflexivity.
Qed.

(** On a line that opens a code fence the iteration pushes one [Code] block
    with the language of the line. *)
Lemma un_iteration_fence (lines : list jsstring) (i : nat) (raw : jsstring) :
  startsWith (trim raw) (lit "```") = true ->
  snd (UploadNotion.iteration lines i raw) =
  [Code (join [LF] (snd (codeLoop (skipn (S i) lines) (S i) [])))
        (specLanguage (trim raw))].
Proof.
  intros H. unfold UploadNotion.iteration.
  rewrite (backtick_not_dollar _ H), H, (fenceLanguage_spec _ H).
  destruct (codeLoop (skipn (S i) lines) (S i) []) as [i' codeContent].
  reflexivity.
Qed.

(** C8.  When the outer loop of upload-notion.js comes to a line that opens
    a code fence, the block it puts next into the result is a [Code] block
    whose language is the rest of the trimmed line after the fence mark,
    trimmed, and ["plain text"] when that is empty: the conversion returns
    the blocks pushed before the line, that block, and the blocks of the
    lines after the fence. *)
Theorem C8_fence_language (markdownContent : jsstring) (i : nat) (raw : jsstring)
    (before : list (block UploadNotion.richText)) :
  visits (splitOn LF markdownContent) i before ->
  nth_error (splitOn LF markdownContent) i = Some raw ->
  startsWith (trim raw) (lit "```") = true ->
  exists content after,
    UploadNotion.parseMarkdownWithMath markdownContent =
    Ret (before ++ Code content (specLanguage (trim raw)) :: after).
Proof.
  intros Hv Hn H. destruct (un_visits_line markdownContent i raw before Hv Hn) as (after & A).
  rewrite (un_iteration_fence _ i raw H) in A. eexists. exists after. exact A.
Qed.

Lemma C8_fence_language_witness :
  (exists content after,
     UploadNotion.parseMarkdownWithMath
       (lit "intro" ++ [LF] ++ lit "``` python " ++ [LF] ++ lit "x" ++ [LF] ++ lit "```") =
     Ret ([Paragraph [UploadNotion.Text (lit "intro")]] ++
          Code content (lit "python") :: after)) /\
  (exists content after,
     UploadNotion.parseMarkdownWithMath (lit " ```" ++ [LF] ++ lit "x") =
     Ret ([] ++ Code content (lit "plain text") :: after)).
Proof.
  split.
  - apply (C8_fence_language
             (lit "intro" ++ [LF] ++ lit "``` python " ++ [LF] ++ lit "x" ++ [LF] ++ lit "```")
             1 (lit "``` python ") [Paragraph [UploadNotion.Text (lit "intro")]]).
    + apply (visits_next _ 0 (lit "intro") []); [apply visits_start | reflexivity].
    + reflexivity.
    + reflexivity.
  - apply (C8_fence_language (lit " ```" ++ [LF] ++ lit "x") 0 (lit " ```") []).
    + apply visits_start.
    + reflexivity.
    + reflexivity.
Defined.

(** On a line that starts with [#] the iteration pushes one heading. *)
Lemma un_iteration_heading (lines : list jsstring) (i : nat) (raw : jsstring) :
  startsWith (trim raw) (lit "#") = true ->
  UploadNotion.iteration lines i raw =
  (S i, [Heading (specHeadingLevel (trim raw))
                 (UploadNotion.processRichText (specHeadingText (trim raw)))]).
Proof.
  intros H. unfold UploadNotion.iteration.
  destruct (hash_not_others _ H) as (-> & -> & ->). rewrite H.
  rewrite (replace_hashes _ H), (replace_heading _ H), hashes_level.
  rewrite headingType_min by now apply hashes_at_least_one.
  reflexivity.
Qed.

(** C7.  When the outer loop of upload-notion.js comes to a line whose
    trimmed form starts with [#], the block it puts next into the result is
    a heading whose level is the number of leading [#], every run of three
    or more giving level 3, and whose text is the line without the leading
    [#] and the white space after them, tokenized; the conversion returns
    the blocks pushed before the line, that heading, and the blocks of the
    lines after it, and the cursor moves on by one line. *)
Theorem C7_heading_level (markdownContent : jsstring) (i : nat) (raw : jsstring)
    (before : list (block UploadNotion.richText)) :
  visits (splitOn LF markdownContent) i before ->
  nth_error (splitOn LF markdownContent) i = Some raw ->
  startsWith (trim raw) (lit "#") = true ->
  exists after,
    UploadNotion.parseMarkdownWithMath markdownContent =
    Ret (before ++
         Heading (specHeadingLevel (trim raw))
                 (UploadNotion.processRichText (specHeadingText (trim raw))) :: after) /\
    visits (splitOn LF markdownContent) (S i)
      (before ++ [Heading (specHeadingLevel (trim raw))
                          (UploadNotion.processRichText (specHeadingText (trim raw)))]).
Proof.
  intros Hv Hn H. destruct (un_visits_line markdownContent i raw before Hv Hn) as (after & A).
  pose proof (visits_next _ i raw before Hv Hn) as V.
  rewrite (un_iteration_heading _ i raw H) in A, V.
  exists after. split; [exact A | exact V].
Qed.

Lemma C7_heading_level_witness :
  exists after,
    UploadNotion.parseMarkdownWithMath
      (lit "##Two" ++ [LF] ++ lit " #####  Deep  " ++ [LF] ++ lit "end") =
    Ret ([Heading 2 [UploadNotion.Text (lit "Two")]] ++
         Heading 3 [UploadNotion.Text (lit "Deep")] :: after) /\
    visits (splitOn LF (lit "##Two" ++ [LF] ++ lit " #####  Deep  " ++ [LF] ++ lit "end")) 2
      ([Heading 2 [UploadNotion.Text (lit "Two")]] ++
       [Heading 3 [UploadNotion.Text (lit "Deep")]]).
Proof.
  apply (C7_heading_level
           (lit "##Two" ++ [LF] ++ lit " #####  Deep  " ++ [LF] ++ lit "end")
           1 (lit " #####  Deep  ") [Heading 2 [UploadNotion.Text (lit "Two")]]).
  - apply (visits_next _ 0 (lit "##Two") []); [apply visits_start | reflexivity].
  - reflexivity.
  - reflexivity.
Defined.

(* ================================================================== *)
(** ** The order of the checks *)
(* ================================================================== *)

Ltac split_checks :=
  repeat match goal with
  | |- context [let '(_, _) := ?p in _] => destruct p
  | H : context [let '(_, _) := ?p in _] |- _ => destruct p
  | |- context [if ?c then _ else _] => destruct c
  | H : context [if ?c then _ else _] |- _ => destruct c
  | H : bind ?m _ = Ret _ |- _ => destruct m; simpl in H; try discriminate H
  end.

Lemma un_check_order (lines : list jsstring) (i : nat) (raw : jsstring) :
  match firstMatch (lit "$$") (trim raw) with
  | Some CMath =>
      length (snd (UploadNotion.iteration lines i raw)) <= 1 /\
      Forall (fun b => kindOf b = CMath) (snd (UploadNotion.iteration lines i raw))
  | Some c =>
      exists b, snd (UploadNotion.iteration lines i raw) = [b] /\ kindOf b = c
  | None => snd (UploadNotion.iteration lines i raw) = []
  end.
Proof.
  unfold firstMatch, checkOrder, UploadNotion.iteration. cbn [find applies].
  split_checks; cbn [snd length kindOf];
    first [ reflexivity
          | split; [lia | repeat constructor]
          | eexists; split; reflexivity ].
Qed.

Lemma p1_check_order (lines : list jsstring) (i : nat) (raw : jsstring)
    (step : nat * list (block Part001.richText)) :
  Part001.iteration lines i raw = Ret step ->
  match firstMatch (lit "$") (trim raw) with
  | Some c => exists b, snd step = [b] /\ kindOf b = c
  | None => snd step = [Paragraph []]
  end.
Proof.
  unfold firstMatch, checkOrder, Part001.iteration. cbn [find applies].
  intros H. destruct (startsWith (trim raw) (lit "$"));
    destruct (truthy (trim raw)); cbn [negb andb] in H;
    split_checks; try discriminate H;
    injection H as <-; cbn [snd kindOf];
    first [ reflexivity | eexists; split; reflexivity ].
Qed.

(* ================================================================== *)
(** ** Display equations over several lines *)
(* ================================================================== *)




(* ================================================================== *)
(** ** Termination of the conversion *)
(* ================================================================== *)

(** upload-notion.js: the conversion returns a list of blocks on every
    document. *)
Lemma un_parse_returns (markdownContent : jsstring) :
  returns (UploadNotion.parseMarkdownWithMath markdownContent).
Proof. apply un_scanLoop_returns. lia. Qed.

Lemma p1_iteration_terminates (lines : list jsstring) (i : nat) (raw : jsstring) :
  terminates (Part001.iteration lines i raw).
Proof.
  unfold terminates, Part001.iteration.
  repeat match goal with
  | |- context [let '(_, _) := ?p in _] => destruct p
  | |- context [bind (Part001.processRichText ?t) _] =>
      pose proof (p1_processRichText_terminates t);
      destruct (Part001.processRichText t); simpl
  | |- context [if ?c then _ else _] => destruct c
  end; unfold terminates in *; congruence.
Qed.

(** part_001: every iteration of the outer loop that completes moves the
    cursor forward, and at most one past the end. *)
Lemma p1_iteration_progress (lines : list jsstring) (i : nat) (raw : jsstring)
    (step : nat * list (block Part001.richText)) :
  nth_error lines i = Some raw ->
  Part001.iteration lines i raw = Ret step ->
  i < fst step <= S (length lines).
Proof.
  intros Hn. pose proof (skipn_S_length lines i raw Hn) as L.
  unfold Part001.iteration. intros H.
  repeat match goal with
  | H : context [let '(_, _) := Part001.mathLoop ?r ?k ?a in _] |- _ =>
      pose proof (p1_mathLoop_bounds r k a);
      destruct (Part001.mathLoop r k a); simpl in *
  | H : context [let '(_, _) := codeLoop ?r ?k ?a in _] |- _ =>
      pose proof (codeLoop_bounds r k a);
      destruct (codeLoop r k a); simpl in *
  | H : context [if ?c then _ else _] |- _ => destruct c
  | H : bind ?m _ = Ret _ |- _ => destruct m; simpl in H; try discriminate H
  end; injection H as <-; simpl; lia.
Qed.

(** part_001: the conversion ends on every document; it returns a list of
    blocks or throws. *)
Lemma p1_scanLoop_terminates (lines : list jsstring) :
  forall fuel i, length lines <= fuel + i ->
    terminates (Part001.scanLoop fuel lines i).
Proof.
  unfold terminates.
  induction fuel as [|fuel IH]; intros i Hf; simpl;
    destruct (nth_error lines i) as [raw|] eqn:E; try discriminate.
  - assert (i < length lines) by (apply nth_error_Some; congruence). lia.
  - pose proof (p1_iteration_terminates lines i raw) as T.
    pose proof (p1_iteration_progress lines i raw) as P.
    unfold terminates in T.
    destruct (Part001.iteration lines i raw) as [step| |]; simpl; try congruence.
    specialize (P step E eq_refl). specialize (IH (fst step)).
    destruct (Part001.scanLoop fuel lines (fst step)); simpl; try discriminate.
    apply IH. lia.
Qed.

Lemma p1_parse_terminates (markdownContent : jsstring) :
  terminates (Part001.parseMarkdownWithMath markdownContent).
Proof. apply p1_scanLoop_terminates. lia. Qed.

(* ================================================================== *)
(** ** The order of the checks, on the result of the conversion *)
(* ================================================================== *)

Lemma p1_scanLoop_fuel (lines : list jsstring) :
  forall fuel fuel' i,
    length lines <= fuel + i -> length lines <= fuel' + i ->
    Part001.scanLoop fuel lines i = Part001.scanLoop fuel' lines i.
Proof.
  induction fuel as [|fuel IH]; intros fuel' i Hf Hf'.
  - destruct fuel'; simpl; destruct (nth_error lines i) as [raw|] eqn:E; try reflexivity.
    assert (i < length lines) by (apply nth_error_Some; congruence). lia.
  - destruct fuel' as [|fuel']; simpl; destruct (nth_error lines i) as [raw|] eqn:E;
      try reflexivity.
    + assert (i < length lines) by (apply nth_error_Some; congruence). lia.
    + pose proof (p1_iteration_progress lines i raw) as P.
      destruct (Part001.iteration lines i raw) as [step| |]; try reflexivity.
      specialize (P step E eq_refl). simpl.
      rewrite (IH fuel' (fst step)); [reflexivity | lia | lia].
Qed.

Lemma p1_visits_output (lines : list jsstring)
    (blocks : list (block Part001.richText)) :
  Part001.scanLoop (length lines) lines 0 = Ret blocks ->
  forall i before,
    p1Visits lines i before ->
    forall fuel, length lines <= fuel + i ->
      exists rest, Part001.scanLoop fuel lines i = Ret rest /\ blocks = before ++ rest.
Proof.
  intros Hb. induction 1 as [|i raw before step Hv IH Hn Hs]; intros fuel Hf.
  - exists blocks. split; [|reflexivity].
    rewrite <- Hb. apply p1_scanLoop_fuel; lia.
  - pose proof (p1_iteration_progress lines i raw step Hn Hs) as P.
    destruct (IH (S (length lines))) as (rest & R & ->); [lia|].
    simpl in R. rewrite Hn, Hs in R. simpl in R.
    destruct (Part001.scanLoop (length lines) lines (fst step)) as [rest'| |] eqn:E;
      simpl in R; try discriminate R.
    injection R as <-. exists rest'. split; [|now rewrite <- app_assoc].
    rewrite <- E. apply p1_scanLoop_fuel; lia.
Qed.

Lemma p1_visits_line (markdownContent : jsstring)
    (blocks : list (block Part001.richText)) (i : nat) (raw : jsstring)
    (before : list (block Part001.richText)) :
  Part001.parseMarkdownWithMath markdownContent = Ret blocks ->
  p1Visits (splitOn LF markdownContent) i before ->
  nth_error (splitOn LF markdownContent) i = Some raw ->
  exists step after,
    Part001.iteration (splitOn LF markdownContent) i raw = Ret step /\
    blocks = before ++ snd step ++ after.
Proof.
  unfold Part001.parseMarkdownWithMath. intros Hb Hv Hn.
  set (lines := splitOn LF markdownContent) in *.
  destruct (p1_visits_output lines blocks Hb i before Hv (S (length lines)))
    as (rest & R & ->); [lia|].
  simpl in R. rewrite Hn in R.
  destruct (Part001.iteration lines i raw) as [step| |]; simpl in R; try discriminate R.
  destruct (Part001.scanLoop (length lines) lines (fst step)) as [after| |];
    simpl in R; try discriminate R.
  injection R as <-. now exists step, after.
Qed.

Lemma firstMatch_stars (mathMark : jsstring) :
  startsWith (lit "***") mathMark = false ->
  firstMatch mathMark (lit "***") = Some CDivider.
Proof. intros H. unfold firstMatch, checkOrder. cbn [find applies]. now rewrite H. Qed.

Lemma firstMatch_hash (mathMark line : jsstring) :
  startsWith line mathMark = false ->
  startsWith line (lit "#") = true ->
  firstMatch mathMark line = Some CHeading.
Proof.
  intros Hm H. destruct line as [|c line]; [discriminate|].
  unfold lit in H; simpl in H. destruct (Ascii.eqb c "#") eqn:E; [|discriminate].
  apply Ascii.eqb_eq in E; subst c.
  unfold firstMatch, checkOrder. cbn [find applies]. rewrite Hm.
  unfold lit; simpl. destruct line; reflexivity.
Qed.

Lemma divider_kind {R : Type} (b : block R) : kindOf b = CDivider -> b = Divider.
Proof. destruct b; simpl; intros H; try discriminate H; reflexivity. Qed.

Lemma heading_kind {R : Type} (b : block R) :
  kindOf b = CHeading -> exists level text, b = Heading level text.
Proof. destruct b; simpl; intros H; try discriminate H. now eexists; eexists. Qed.

(** C6.  In both revisions that have all the constructs, the blocks the
    scanner returns for a line its outer loop comes to are those of the
    first construct, in the order math, code, divider, heading, bulleted
    item, numbered item, quote, paragraph, whose check holds on the trimmed
    line.  The result of the conversion is the blocks pushed before the
    line, the blocks of the line, and the blocks of the lines after it; the
    blocks of the line are one block of that construct (a display equation
    of upload-notion.js may come out empty and push nothing).  A line on
    which no check holds is blank: upload-notion.js pushes nothing for it,
    part_001 an empty paragraph.  So a line that is [***] gives a divider
    and a line that starts with [#] a heading.  For part_001, whose
    conversion may throw, this is stated of the conversions that return. *)
Theorem C6_check_order :
  (forall markdownContent i raw before,
     visits (splitOn LF markdownContent) i before ->
     nth_error (splitOn LF markdownContent) i = Some raw ->
     exists pushed after,
       UploadNotion.parseMarkdownWithMath markdownContent =
         Ret (before ++ pushed ++ after) /\
       pushed = snd (UploadNotion.iteration (splitOn LF markdownContent) i raw) /\
       match firstMatch (lit "$$") (trim raw) with
       | Some CMath => length pushed <= 1 /\ Forall (fun b => kindOf b = CMath) pushed
       | Some c => exists b, pushed = [b] /\ kindOf b = c
       | None => pushed = []
       end /\
       (trim raw = lit "***" -> pushed = [Divider]) /\
       (startsWith (trim raw) (lit "#") = true ->
        exists level text, pushed = [Heading level text])) /\
  (forall markdownContent blocks i raw before,
     Part001.parseMarkdownWithMath markdownContent = Ret blocks ->
     p1Visits (splitOn LF markdownContent) i before ->
     nth_error (splitOn LF markdownContent) i = Some raw ->
     exists cursor pushed after,
       blocks = before ++ pushed ++ after /\
       Part001.iteration (splitOn LF markdownContent) i raw = Ret (cursor, pushed) /\
       match firstMatch (lit "$") (trim raw) with
       | Some c => exists b, pushed = [b] /\ kindOf b = c
       | None => pushed = [Paragraph []]
       end /\
       (trim raw = lit "***" -> pushed = [Divider]) /\
       (startsWith (trim raw) (lit "#") = true ->
        exists level text, pushed = [Heading level text])).
Proof.
  split.
  - intros markdownContent i raw before Hv Hn.
    destruct (un_visits_line markdownContent i raw before Hv Hn) as (after & A).
    pose proof (un_check_order (splitOn LF markdownContent) i raw) as K.
    set (pushed := snd (UploadNotion.iteration (splitOn LF markdownContent) i raw)) in *.
    exists pushed, after. split; [exact A|]. split; [reflexivity|].
    split; [exact K|]. split.
    + intros E. rewrite E, (firstMatch_stars (lit "$$") eq_refl) in K.
      destruct K as (b & -> & Hb). now rewrite (divider_kind b Hb).
    + intros H. destruct (hash_not_others _ H) as (Hm & _).
      rewrite (firstMatch_hash (lit "$$") (trim raw) Hm H) in K.
      destruct K as (b & -> & Hb). destruct (heading_kind b Hb) as (level & text & ->).
      now exists level, text.
  - intros markdownContent blocks i raw before Hb Hv Hn.
    destruct (p1_visits_line markdownContent blocks i raw before Hb Hv Hn)
      as ([cursor pushed] & after & It & A).
    pose proof (p1_check_order (splitOn LF markdownContent) i raw (cursor, pushed) It) as K.
    cbn [snd] in A, K.
    exists cursor, pushed, after. split; [exact A|]. split; [exact It|].
    split; [exact K|]. split.
    + intros E. rewrite E, (firstMatch_stars (lit "$") eq_refl) in K.
      destruct K as (b & -> & Hk). now rewrite (divider_kind b Hk).
    + intros H.
      assert (Hm : startsWith (trim raw) (lit "$") = false).
      { destruct (trim raw) as [|c line]; [discriminate|].
        unfold lit in H; simpl in H. destruct (Ascii.eqb c "#") eqn:E; [|discriminate].
        apply Ascii.eqb_eq in E; subst c. reflexivity. }
      rewrite (firstMatch_hash (lit "$") (trim raw) Hm H) in K.
      destruct K as (b & -> & Hk). destruct (heading_kind b Hk) as (level & text & ->).
      now exists level, text.
Qed.

Lemma C6_check_order_witness :
  (exists pushed after,
     UploadNotion.parseMarkdownWithMath (lit "# x" ++ [LF] ++ lit " *** " ++ [LF] ++ lit "* y") =
       Ret ([Heading 1 [UploadNotion.Text (lit "x")]] ++ pushed ++ after) /\
     pushed = [Divider] /\
     (exists b, pushed = [b] /\ kindOf b = CDivider) /\
     (lit "***" = lit "***" -> pushed = [Divider]) /\
     (false = true -> exists level text, pushed = [Heading level text])) /\
  (exists cursor pushed after,
     [Heading 1 [Part001.Text (lit "x") None None]; Divider;
      BulletedListItem [Part001.Text (lit "y") None None]] =
       [] ++ pushed ++ after /\
     Ret (1, [Heading 1 [Part001.Text (lit "x") None None]]) = Ret (cursor, pushed) /\
     (exists b, pushed = [b] /\ kindOf b = CHeading) /\
     (lit "# x" = lit "***" -> pushed = [Divider]) /\
     (true = true -> exists level text, pushed = [Heading level text])).
Proof.
  split.
  - apply (proj1 C6_check_order
             (lit "# x" ++ [LF] ++ lit " *** " ++ [LF] ++ lit "* y") 1 (lit " *** ")
             [Heading 1 [UploadNotion.Text (lit "x")]]).
    + apply (visits_next _ 0 (lit "# x") []); [apply visits_start | reflexivity].
    + reflexivity.
  - apply (proj2 C6_check_order
             (lit "# x" ++ [LF] ++ lit " *** " ++ [LF] ++ lit "* y")
             [Heading 1 [Part001.Text (lit "x") None None]; Divider;
              BulletedListItem [Part001.Text (lit "y") None None]]
             0 (lit "# x") []).
    + reflexivity.
    + apply p1Visits_start.
    + reflexivity.
Defined.

(** C9.  The conversion of part_001 is not defined on every input: on the
    one-line documents [__MATH___] and [__MATH_CONSTANTS__] the nested
    inline tokenizer throws a [TypeError] (the segment starts with
    [__MATH_] and ends with [__] but holds no digit, so
    [segment.match(/\d+/)] is [null]), and no list of blocks is returned. *)
Theorem C9_part001_throws :
  Part001.processRichText (lit "__MATH___") =
    Throw "TypeError: Cannot read properties of null (reading '0')" /\
  Part001.parseMarkdownWithMath (lit "__MATH___") =
    Throw "TypeError: Cannot read properties of null (reading '0')" /\
  Part001.parseMarkdownWithMath (lit "__MATH_CONSTANTS__") =
    Throw "TypeError: Cannot read properties of null (reading '0')" /\
  ~ returns (Part001.parseMarkdownWithMath (lit "__MATH___")).
Proof.
  split; [reflexivity|]. split; [reflexivity|]. split; [reflexivity|].
  intros (bs & H). discriminate H.
Qed.

(* ================================================================== *)
(** ** The inline tokenizer: overlaps, links, empty segments *)
(* ================================================================== *)

(** C1, as the specification states it, fails: on [**a*b*c**] the tokenizer
    of part_001 returns an italic segment and no bold segment. *)
Lemma C1_counterexample :
  exists segs,
    Part001.processRichText overlapText = Ret segs /\
    Exists (hasAnnotation Part001.Italic) segs /\
    ~ Exists (hasAnnotation Part001.Bold) segs.
Proof.
  eexists. split; [reflexivity|]. split.
  - right. left. reflexivity.
  - intros H. repeat (inversion H as [? ? H'|? ? H']; subst; clear H;
                      [simpl in H'; try discriminate; try contradiction | rename H' into H]).
    inversion H.
Qed.

(** C1, amended.  On [**a*b*c**] the bold pattern has no match, since the
    text between its marks may not hold [*]; the only candidate is the
    italic match of [*b*] at offsets 3 to 6.  The selection, which always
    keeps the leftmost candidate and never keeps two overlapping matches,
    accepts it, and the tokenizer returns the plain text [**a], the italic
    text [b] and the plain text [c**]. *)
Theorem C1_overlap_amended :
  execLoop (S (length overlapText)) Part001.re_bold [] overlapText = Ret [] /\
  Part001.collect Part001.patterns overlapText =
    Ret [Part001.FMatch 3 6 (lit "b") (lit "*b*") (Some Part001.Italic)
           Part001.TItalic None] /\
  (forall m ms,
     (exists tl, Part001.keepValid (m :: ms) = m :: tl) /\
     disjointMatches (Part001.keepValid (m :: ms))) /\
  Part001.processRichText overlapText =
    Ret [Part001.Text (lit "**a") None None;
         Part001.Text (lit "b") None (Some Part001.Italic);
         Part001.Text (lit "c**") None None].
Proof.
  split; [reflexivity|]. split; [reflexivity|].
  split; [exact p1_keepValid_greedy | reflexivity].
Qed.

(** C2, as the specification states it, fails: a link construct whose text
    or URL is empty yields no link segment. *)
Lemma C2_counterexample :
  Part001.processRichText (lit "[](http://x)") =
    Ret [Part001.Text (lit "[](http://x)") None None] /\
  Part001.processRichText (lit "[text]()") =
    Ret [Part001.Text (lit "[text]()") None None] /\
  ~ Exists isLink [Part001.Text (lit "[](http://x)") None None] /\
  ~ Exists isLink [Part001.Text (lit "[text]()") None None].
Proof.
  split; [reflexivity|]. split; [reflexivity|].
  split; intros H; inversion H as [? ? H'|? ? H']; subst;
    [exact H' | inversion H' | exact H' | inversion H'].
Qed.

(** C10.  Every rich-text item the inline tokenizer returns carries text: a
    text item has a non-empty content and an equation item a non-empty
    expression, in upload-notion.js on every text and in part_001 on every
    text on which the tokenizer returns. *)
Theorem C10_segments_nonempty :
  (forall text, Forall unNonEmpty (UploadNotion.processRichText text)) /\
  (forall text segs,
     Part001.processRichText text = Ret segs -> Forall p1NonEmpty segs).
Proof.
  split; [exact un_processRichText_nonEmpty|].
  intros text segs H. apply p1_processRichText_good in H.
  eapply Forall_impl; [|exact H]. intros x [Hx _]. exact Hx.
Qed.

Lemma C10_segments_nonempty_witness :
  Forall p1NonEmpty
    [Part001.Text (lit "a ") None (Some Part001.NoFormat);
     Part001.InlineEquation (lit "x");
     Part001.Text (lit " ") None (Some Part001.NoFormat)].
Proof.
  apply (proj2 C10_segments_nonempty (lit "a $x$ $ $")). reflexivity.
Defined.

(* ================================================================== *)
(** ** More on strings and on the matcher *)
(* ================================================================== *)

Lemma splitOn_nonempty (sep : ascii) (s : jsstring) : splitOn sep s <> [].
Proof.
  destruct s as [|c s]; simpl; [discriminate|].
  destruct (Ascii.eqb c sep); [discriminate|].
  destruct (splitOn sep s); discriminate.
Qed.

Lemma join_splitOn (sep : ascii) (s : jsstring) : join [sep] (splitOn sep s) = s.
Proof.
  induction s as [|c s IH]; [reflexivity|]. simpl.
  destruct (Ascii.eqb c sep) eqn:E.
  - apply Ascii.eqb_eq in E; subst c.
    pose proof (splitOn_nonempty sep s) as N.
    destruct (splitOn sep s) as [|p ps]; [contradiction|].
    simpl in *. now rewrite IH.
  - pose proof (splitOn_nonempty sep s) as N.
    destruct (splitOn sep s) as [|p ps]; [contradiction|].
    destruct ps as [|p' ps]; simpl in *; now rewrite <- IH.
Qed.

Lemma splitOn_app (sep : ascii) (a b : jsstring) :
  ~ In sep a -> splitOn sep (a ++ sep :: b) = a :: splitOn sep b.
Proof.
  induction a as [|c a IH]; intros H; simpl.
  - now rewrite Ascii.eqb_refl.
  - destruct (Ascii.eqb c sep) eqn:E.
    + apply Ascii.eqb_eq in E. exfalso. apply H. now left.
    + rewrite IH; [reflexivity|]. intros Hin. apply H. now right.
Qed.

Lemma splitOn_single (sep : ascii) (a : jsstring) :
  ~ In sep a -> splitOn sep a = [a].
Proof.
  induction a as [|c a IH]; intros H; simpl; [reflexivity|].
  destruct (Ascii.eqb c sep) eqn:E.
  - apply Ascii.eqb_eq in E. exfalso. apply H. now left.
  - rewrite IH; [reflexivity|]. intros Hin. apply H. now right.
Qed.

Lemma mem_In (c : ascii) (l : list ascii) : mem c l = true <-> In c l.
Proof.
  unfold mem. rewrite existsb_exists. split.
  - intros (x & Hx & E). apply Ascii.eqb_eq in E. now subst.
  - intros H. exists c. split; [exact H | apply Ascii.eqb_refl].
Qed.

Lemma substring_from_0 (s : jsstring) (k : nat) :
  k <= length s -> substring s 0 k = firstn k s.
Proof.
  intros H. unfold substring.
  rewrite (Nat.min_l k (length s)) by exact H.
  change (Nat.min 0 (length s)) with 0.
  now rewrite Nat.min_0_l, Nat.max_0_l, Nat.sub_0_r.
Qed.

Lemma substringFrom_skipn (s : jsstring) (a : nat) :
  a <= length s -> substringFrom s a = skipn a s.
Proof.
  intros H. unfold substringFrom, substring.
  rewrite (Nat.min_l a (length s)) by exact H.
  rewrite Nat.min_id, (Nat.min_l a (length s)), (Nat.max_r a (length s)) by exact H.
  rewrite <- length_skipn. apply firstn_all.
Qed.

Lemma endsWith_app (s p : jsstring) : endsWith (s ++ p) p = true.
Proof. unfold endsWith. rewrite rev_app_distr. apply startsWith_app. Qed.

(** Every match of [r] holds the literal characters of [r]. *)
Lemma rmatch_literals (r : regex) :
  forall st st', In st' (rmatch r st) ->
    exists x, advances st st' x /\ incl (literalChars r) x.
Proof.
  induction r as [|cs|g min cs|r1 IH1 r2 IH2|n r IH| |cs|cs]; intros st st' Hin;
    try (destruct (rmatch_advances _ _ _ Hin) as (x & Hx & _);
         exists x; split; [exact Hx | intros ? Hf; exact (False_ind _ Hf)]; fail).
  - simpl in Hin. destruct (remaining st) as [|c rem'] eqn:E; [contradiction|].
    destruct (inClass cs c) eqn:C; [|contradiction].
    destruct Hin as [<-|[]]. exists [c]. split; [split; simpl; auto|].
    destruct cs as [l| | |]; try (intros ? Hf; exact (False_ind _ Hf)).
    destruct l as [|c0 [|c1 l]]; try (intros ? Hf; exact (False_ind _ Hf)).
    simpl in C. rewrite orb_false_r in C. apply Ascii.eqb_eq in C; subst c0.
    intros a [<-|[]]. now left.
  - simpl in Hin. apply in_flat_map in Hin as (mid & Hm & Hin).
    apply IH1 in Hm as (x & Hx & Lx). apply IH2 in Hin as (y & Hy & Ly).
    exists (x ++ y). split; [eapply advances_trans; eauto|].
    simpl. intros c Hc. apply in_or_app. apply in_app_or in Hc as [Hc|Hc]; auto.
  - simpl in Hin. apply in_map_iff in Hin as (mid & <- & Hm).
    apply IH in Hm as (x & [H1 H2] & Lx). exists x. split; [split; simpl; auto | exact Lx].
Qed.

Lemma matchHere_literals (r : regex) (bef rem : list ascii)
    (m : rmatchResult) (st : mstate) (c : ascii) :
  matchHere r bef rem = Some (m, st) -> In c (literalChars r) -> In c rem.
Proof.
  unfold matchHere. destruct (rmatch r (MState bef rem [])) as [|st0 l] eqn:E; [discriminate|].
  intros _ Hc.
  assert (Hin : In st0 (rmatch r (MState bef rem []))) by (rewrite E; now left).
  apply rmatch_literals in Hin as (x & [_ H2] & Hx). simpl in H2.
  rewrite H2. apply in_or_app. left. now apply Hx.
Qed.

Lemma matchHere_absent (r : regex) (bef rem : list ascii) (c : ascii) :
  In c (literalChars r) -> ~ In c rem -> matchHere r bef rem = None.
Proof.
  intros Hc Hn. destruct (matchHere r bef rem) as [[m st]|] eqn:E; [|reflexivity].
  exfalso. apply Hn. eapply matchHere_literals; eauto.
Qed.

(** A text without one of the literal characters of a pattern has no
    match of it. *)
Lemma search_absent (r : regex) (c : ascii) :
  In c (literalChars r) ->
  forall rem bef, ~ In c rem -> search r bef rem = None.
Proof.
  intros Hc. induction rem as [|a rem IH]; intros bef Hn; simpl;
    rewrite (matchHere_absent r bef _ c Hc Hn); [reflexivity|].
  apply IH. intros H. apply Hn. now right.
Qed.

Lemma matchAllFrom_absent (r : regex) (c : ascii) :
  In c (literalChars r) ->
  forall rem bef skip, ~ In c rem -> matchAllFrom r bef rem skip = [].
Proof.
  intros Hc. induction rem as [|a rem IH]; intros bef skip Hn; destruct skip; simpl;
    try reflexivity; try rewrite (matchHere_absent r bef _ c Hc Hn); try reflexivity;
    apply IH; intros H; apply Hn; now right.
Qed.

Lemma splitFrom_absent (r : regex) (ng : nat) (c : ascii) :
  In c (literalChars r) ->
  forall rem bef piece, ~ In c rem ->
    splitFrom r ng bef rem piece 0 = [rev piece ++ rem].
Proof.
  intros Hc. induction rem as [|a rem IH]; intros bef piece Hn; simpl.
  - now rewrite app_nil_r.
  - rewrite (matchHere_absent r bef _ c Hc Hn).
    rewrite IH by (intros H; apply Hn; now right).
    simpl. now rewrite <- app_assoc.
Qed.

Lemma splitFrom_skip (r : regex) (ng : nat) :
  forall rem bef, splitFrom r ng bef rem [] (length rem) = [[]].
Proof. induction rem as [|a rem IH]; intros bef; simpl; [reflexivity | apply IH]. Qed.

Lemma matchAllFrom_skip (r : regex) (c : ascii) :
  In c (literalChars r) ->
  forall rem bef, matchAllFrom r bef rem (length rem) = [].
Proof.
  intros Hc. induction rem as [|a rem IH]; intros bef; simpl; [|apply IH].
  now rewrite (matchHere_absent r bef [] c Hc).
Qed.

(** The first result of a sequence when the first result of its head lets
    the tail match. *)
Lemma rmatch_seq_head (r1 r2 : regex) (st s1 s2 : mstate) (tl1 tl2 : list mstate) :
  rmatch r1 st = s1 :: tl1 -> rmatch r2 s1 = s2 :: tl2 ->
  exists tl, rmatch (RSeq r1 r2) st = s2 :: tl.
Proof.
  intros H1 H2. simpl. rewrite H1. simpl. rewrite H2. simpl. now eexists.
Qed.

Lemma rmatch_char_hit (c : ascii) (bef rem : list ascii) (caps : list (nat * jsstring)) :
  rmatch (RChar c) (MState bef (c :: rem) caps) = [MState (c :: bef) rem caps].
Proof. simpl. now rewrite Ascii.eqb_refl. Qed.

Lemma rmatch_set_miss (cs : charset) (c : ascii) (bef rem : list ascii)
    (caps : list (nat * jsstring)) :
  inClass cs c = false -> rmatch (RSet cs) (MState bef (c :: rem) caps) = [].
Proof. intros H. simpl. now rewrite H. Qed.

Lemma takeWhile_all (p : ascii -> bool) (e rest : jsstring) (d : ascii) :
  Forall (fun c => p c = true) e -> p d = false ->
  takeWhile p (e ++ d :: rest) = e /\ dropWhile p (e ++ d :: rest) = d :: rest.
Proof.
  intros He Hd. induction He as [|c e Hc He IH]; simpl.
  - now rewrite Hd.
  - rewrite Hc. destruct IH as [-> ->]. auto.
Qed.

Lemma takeWhile_end (p : ascii -> bool) (e : jsstring) :
  Forall (fun c => p c = true) e -> takeWhile p e = e /\ dropWhile p e = [].
Proof.
  intros He. induction He as [|c e Hc He IH]; simpl; [auto|].
  rewrite Hc. destruct IH as [-> ->]. auto.
Qed.

(** A lazy repetition of a class followed by a character outside the
    class: the only way through is to take the whole run. *)
Lemma lazy_until (cs : charset) (d : ascii) (k : regex) (caps : list (nat * jsstring)) :
  inClass cs d = false ->
  forall e bef rest,
    Forall (fun c => inClass cs c = true) e ->
    flat_map (rmatch (RSeq (RChar d) k)) (rep false cs 0 bef (e ++ d :: rest) caps) =
    rmatch k (MState (d :: rev e ++ bef) rest caps).
Proof.
  intros Hd. induction e as [|c e IH]; intros bef rest He; simpl.
  - rewrite Hd. simpl. rewrite Ascii.eqb_refl. simpl. now rewrite !app_nil_r.
  - inversion He as [|? ? Hc He']; subst. rewrite Hc.
    assert (Ascii.eqb c d = false) as N.
    { destruct (Ascii.eqb c d) eqn:E; [|reflexivity].
      apply Ascii.eqb_eq in E. congruence. }
    rewrite N. simpl.
    specialize (IH (c :: bef) rest He'). simpl in IH.
    rewrite IH, <- app_assoc. reflexivity.
Qed.

(* ================================================================== *)
(** ** upload-notion.js: the scanner works on the lines from the cursor on *)
(* ================================================================== *)

Lemma codeLoop_shift (n : nat) :
  forall rest i acc,
    codeLoop rest (n + i) acc =
    (n + fst (codeLoop rest i acc), snd (codeLoop rest i acc)).
Proof.
  induction rest as [|l rest IH]; intros i acc; simpl; [reflexivity|].
  destruct (startsWith (trim l) (lit "```")); [reflexivity|].
  rewrite <- IH. f_equal. lia.
Qed.

Lemma un_mathLoop_shift (n : nat) :
  forall rest i acc,
    UploadNotion.mathLoop rest (n + i) acc =
    (n + fst (UploadNotion.mathLoop rest i acc), snd (UploadNotion.mathLoop rest i acc)).
Proof.
  induction rest as [|l rest IH]; intros i acc; simpl; [reflexivity|].
  destruct (endsWith (trim l) (lit "$$")); [reflexivity|].
  rewrite <- IH. f_equal. lia.
Qed.

Lemma skipn_shift {A : Type} (pre l : list A) (k : nat) :
  skipn (length pre + k) (pre ++ l) = skipn k l.
Proof.
  rewrite skipn_app, skipn_all2 by lia.
  replace (length pre + k - length pre) with k by lia. reflexivity.
Qed.

Lemma un_iteration_shift (pre l : list jsstring) (i : nat) (raw : jsstring) :
  UploadNotion.iteration (pre ++ l) (length pre + i) raw =
  (length pre + fst (UploadNotion.iteration l i raw),
   snd (UploadNotion.iteration l i raw)).
Proof.
  unfold UploadNotion.iteration.
  replace (S (length pre + i)) with (length pre + S i) by lia.
  rewrite skipn_shift, !un_mathLoop_shift, !codeLoop_shift.
  repeat match goal with
  | |- context [UploadNotion.mathLoop ?r ?k ?a] =>
      destruct (UploadNotion.mathLoop r k a); cbn [fst snd]
  | |- context [codeLoop ?r ?k ?a] => destruct (codeLoop r k a); cbn [fst snd]
  | |- context [if ?c then _ else _] => destruct c; cbn [fst snd]
  end; f_equal; lia.
Qed.

Lemma nth_error_shift {A : Type} (pre l : list A) (k : nat) :
  nth_error (pre ++ l) (length pre + k) = nth_error l k.
Proof.
  rewrite nth_error_app2 by lia. f_equal. lia.
Qed.

Lemma un_scanLoop_shift (pre l : list jsstring) :
  forall fuel i,
    UploadNotion.scanLoop fuel (pre ++ l) (length pre + i) =
    UploadNotion.scanLoop fuel l i.
Proof.
  induction fuel as [|fuel IH]; intros i; simpl; rewrite nth_error_shift;
    destruct (nth_error l i) as [raw|]; try reflexivity.
  rewrite un_iteration_shift.
  destruct (UploadNotion.iteration l i raw) as [i' pushed]. cbn [fst snd].
  now rewrite IH.
Qed.

(** Scanning a list of lines that starts with an iteration's lines: the
    blocks of that iteration, then the blocks of the lines after it. *)
Lemma un_scanLines_first (raw : jsstring) (used rest : list jsstring)
    (pushed : list (block UploadNotion.richText)) :
  UploadNotion.iteration (raw :: used ++ rest) 0 raw = (S (length used), pushed) ->
  scanLines (raw :: used ++ rest) = (bs <- scanLines rest ;; Ret (pushed ++ bs)).
Proof.
  intros H. unfold scanLines.
  change (length (raw :: used ++ rest)) with (S (length (used ++ rest))).
  rewrite (un_scanLoop_step (raw :: used ++ rest) (length (used ++ rest)) 0 raw eq_refl), H.
  cbn [fst snd].
  change (raw :: used ++ rest) with ((raw :: used) ++ rest).
  replace (S (length used)) with (length (raw :: used) + 0) by (simpl; lia).
  rewrite un_scanLoop_shift.
  rewrite (un_scanLoop_fuel rest (length (used ++ rest)) (length rest) 0);
    [reflexivity | rewrite length_app; lia | lia].
Qed.

Lemma un_iteration_one (lines : list jsstring) (i : nat) (raw : jsstring) :
  length (snd (UploadNotion.iteration lines i raw)) <= 1.
Proof.
  pose proof (un_check_order lines i raw) as H.
  destruct (firstMatch (lit "$$") (trim raw)) as [c|].
  - destruct c; try (destruct H as (b & -> & _); simpl; lia). tauto.
  - rewrite H. simpl. lia.
Qed.

Lemma un_scanLoop_count (lines : list jsstring) :
  forall fuel i bs,
    UploadNotion.scanLoop fuel lines i = Ret bs ->
    length bs <= length lines - i.
Proof.
  induction fuel as [|fuel IH]; intros i bs; simpl;
    destruct (nth_error lines i) as [raw|] eqn:E; try discriminate;
    try (intros [= <-]; simpl; lia).
  pose proof (un_iteration_progress lines i raw E) as P.
  pose proof (un_iteration_one lines i raw) as O.
  assert (i < length lines) by (apply nth_error_Some; congruence).
  destruct (UploadNotion.iteration lines i raw) as [i' pushed]. simpl in *.
  destruct (UploadNotion.scanLoop fuel lines i') as [rest| |] eqn:R; simpl; try discriminate.
  intros [= <-]. apply IH in R. rewrite length_app. lia.
Qed.

(** X1.  upload-notion.js: the conversion returns a list of blocks on every
    document (it neither throws nor loops), and never more blocks than the
    document has lines. *)
Theorem X1_conversion_returns (markdownContent : jsstring) :
  exists blocks,
    UploadNotion.parseMarkdownWithMath markdownContent = Ret blocks /\
    length blocks <= length (splitOn LF markdownContent).
Proof.
  destruct (un_scanLoop_returns (splitOn LF markdownContent)
              (length (splitOn LF markdownContent)) 0) as (bs & E); [lia|].
  exists bs. split; [exact E|].
  apply un_scanLoop_count in E. lia.
Qed.

(** X2.  upload-notion.js: an iteration of the outer loop that starts on a
    line of the document ends with the cursor strictly further, and at most
    one past the last line; this holds through the inner loops of display
    math and of code fences. *)
Theorem X2_cursor_progress (lines : list jsstring) (i : nat) (raw : jsstring) :
  nth_error lines i = Some raw ->
  i < fst (UploadNotion.iteration lines i raw) <= S (length lines).
Proof. apply un_iteration_progress. Qed.

Lemma X2_cursor_progress_witness :
  1 < fst (UploadNotion.iteration [lit "a"; lit "```"; lit "b"; lit "```"; lit "c"]
             1 (lit "```")) <= 6.
Proof.
  apply (X2_cursor_progress [lit "a"; lit "```"; lit "b"; lit "```"; lit "c"] 1 (lit "```")).
  reflexivity.
Defined.

Lemma codeLoop_closed :
  forall body i acc closer rest,
    Forall (fun l => startsWith (trim l) (lit "```") = false) body ->
    startsWith (trim closer) (lit "```") = true ->
    codeLoop (body ++ closer :: rest) i acc = (i + length body, acc ++ body).
Proof.
  induction body as [|l body IH]; intros i acc closer rest Hb Hc; simpl.
  - now rewrite Hc, Nat.add_0_r, app_nil_r.
  - inversion Hb as [|? ? Hl Hbody]; subst. rewrite Hl, IH by assumption.
    rewrite <- app_assoc. simpl. f_equal. lia.
Qed.

(** X3.  upload-notion.js: a closed code fence.  When the lines start with
    a fence opener, then lines that are no fence, then a fence line, the
    conversion gives one [Code] block holding the lines in between joined by
    newlines, untouched, followed by the conversion of the lines after the
    closing fence; the closing line itself gives nothing. *)
Theorem X3_closed_fence (opener : jsstring) (body : list jsstring)
    (closer : jsstring) (rest : list jsstring) :
  startsWith (trim opener) (lit "```") = true ->
  Forall (fun l => startsWith (trim l) (lit "```") = false) body ->
  startsWith (trim closer) (lit "```") = true ->
  exists bs,
    scanLines rest = Ret bs /\
    scanLines (opener :: body ++ closer :: rest) =
    Ret (Code (join [LF] body) (fenceLanguage (trim opener)) :: bs).
Proof.
  intros Ho Hb Hc.
  destruct (un_scanLoop_returns rest (length rest) 0) as (bs & E); [lia|].
  exists bs. split; [exact E|].
  change (opener :: body ++ closer :: rest)
    with (opener :: (body ++ closer :: rest)).
  replace (body ++ closer :: rest) with ((body ++ [closer]) ++ rest)
    by (rewrite <- app_assoc; reflexivity).
  rewrite (un_scanLines_first opener (body ++ [closer]) rest
             [Code (join [LF] body) (fenceLanguage (trim opener))]).
  - unfold scanLines in *. now rewrite E.
  - unfold UploadNotion.iteration.
    rewrite (backtick_not_dollar _ Ho), Ho. cbn [skipn].
    rewrite <- app_assoc. cbn [app].
    rewrite (codeLoop_closed body 1 [] closer rest Hb Hc).
    rewrite length_app. cbn [length app]. f_equal. lia.
Qed.

Lemma X3_closed_fence_witness :
  exists bs,
    scanLines [lit "# after"] = Ret bs /\
    scanLines [lit "```python"; lit "x = 1"; lit "# no heading"; lit " ```"; lit "# after"] =
    Ret (Code (lit "x = 1" ++ [LF] ++ lit "# no heading") (lit "python") :: bs).
Proof.
  apply (X3_closed_fence (lit "```python") [lit "x = 1"; lit "# no heading"]
           (lit " ```") [lit "# after"]).
  - reflexivity.
  - repeat constructor.
  - reflexivity.
Defined.

Lemma un_scanLines_parse (markdownContent : jsstring) :
  UploadNotion.parseMarkdownWithMath markdownContent =
  scanLines (splitOn LF markdownContent).
Proof. reflexivity. Qed.

(** X4.  upload-notion.js: the text of an unclosed code fence is kept as it
    is.  For a document made of an opening fence line and, after the first
    newline, a text none of whose lines is a fence, the conversion gives one
    [Code] block whose content is that text, character for character. *)
Theorem X4_code_verbatim (opener body : jsstring) :
  ~ In LF opener ->
  startsWith (trim opener) (lit "```") = true ->
  Forall (fun l => startsWith (trim l) (lit "```") = false) (splitOn LF body) ->
  UploadNotion.parseMarkdownWithMath (opener ++ LF :: body) =
  Ret [Code body (fenceLanguage (trim opener))].
Proof.
  intros Hn Ho Hb. rewrite un_scanLines_parse, (splitOn_app LF opener body Hn).
  unfold scanLines.
  change (length (opener :: splitOn LF body)) with (S (length (splitOn LF body))).
  rewrite (un_scanLoop_step (opener :: splitOn LF body) _ 0 opener eq_refl).
  unfold UploadNotion.iteration.
  rewrite (backtick_not_dollar _ Ho), Ho. cbn [skipn].
  rewrite (codeLoop_open _ 1 [] Hb). cbn [fst snd app].
  rewrite un_scanLoop_end by (simpl; lia).
  now rewrite join_splitOn.
Qed.

Lemma X4_code_verbatim_witness :
  UploadNotion.parseMarkdownWithMath
    (lit "```" ++ LF :: (lit "  **a**  " ++ [LF] ++ lit "" ++ [LF] ++ lit "$x$ ")) =
  Ret [Code (lit "  **a**  " ++ [LF] ++ lit "" ++ [LF] ++ lit "$x$ ") (lit "plain text")].
Proof.
  apply (X4_code_verbatim (lit "```")
           (lit "  **a**  " ++ [LF] ++ lit "" ++ [LF] ++ lit "$x$ ")).
  - intros H. repeat (destruct H as [H|H]; [discriminate H|]). exact H.
  - reflexivity.
  - repeat constructor.
Defined.

(** X5.  upload-notion.js: a display equation on one line.  When the
    trimmed line is [$$], a text, [$$], the iteration pushes one [Equation]
    whose expression is the text trimmed, and nothing when the text is
    blank; the cursor moves by one line. *)
Theorem X5_one_line_equation (lines : list jsstring) (i : nat) (raw e : jsstring) :
  trim raw = lit "$$" ++ e ++ lit "$$" ->
  UploadNotion.iteration lines i raw =
  (S i, if truthy (trim e) then [Equation (trim e)] else []).
Proof.
  intros H. unfold UploadNotion.iteration. rewrite H, startsWith_app.
  assert (F : substringFrom (lit "$$" ++ e ++ lit "$$") 2 = e ++ lit "$$").
  { rewrite substringFrom_skipn; [reflexivity|]. rewrite length_app. simpl. lia. }
  rewrite F, endsWith_app.
  assert (G : substring (e ++ lit "$$") 0 (length (e ++ lit "$$") - 2) = e).
  { rewrite substring_from_0 by lia. rewrite length_app.
    replace (length e + length (lit "$$") - 2) with (length e + 0) by (simpl; lia).
    now rewrite firstn_app_2, app_nil_r. }
  now rewrite G.
Qed.

Lemma X5_one_line_equation_witness :
  UploadNotion.iteration [lit " $$ a^2 $$ "] 0 (lit " $$ a^2 $$ ") =
  (1, [Equation (lit "a^2")]) /\
  UploadNotion.iteration [lit "$$$$"] 0 (lit "$$$$") = (1, []).
Proof.
  split.
  - apply (X5_one_line_equation [lit " $$ a^2 $$ "] 0 (lit " $$ a^2 $$ ") (lit " a^2 ")).
    reflexivity.
  - apply (X5_one_line_equation [lit "$$$$"] 0 (lit "$$$$") []). reflexivity.
Defined.

Lemma un_mathLoop_open :
  forall rest i acc,
    Forall (fun l => endsWith (trim l) (lit "$$") = false) rest ->
    UploadNotion.mathLoop rest i acc = (i + length rest, acc ++ rest).
Proof.
  induction rest as [|l rest IH]; intros i acc H; simpl.
  - now rewrite Nat.add_0_r, app_nil_r.
  - inversion H as [|? ? Hl Hrest]; subst. rewrite Hl, IH by exact Hrest.
    rewrite <- app_assoc. simpl. f_equal. lia.
Qed.

(** X6.  upload-notion.js: a display equation that is never closed takes
    all the lines that are left.  When a line opens display math without
    closing it and no later line ends with [$$], the conversion of these
    lines is one [Equation] made of the rest of the opening line (when not
    blank) and of all later lines as they are, joined by newlines and
    trimmed; it is nothing at all when there is no such row. *)
Theorem X6_unclosed_equation (raw : jsstring) (rest : list jsstring) :
  startsWith (trim raw) (lit "$$") = true ->
  endsWith (substringFrom (trim raw) 2) (lit "$$") = false ->
  Forall (fun l => endsWith (trim l) (lit "$$") = false) rest ->
  scanLines (raw :: rest) =
  Ret (match optional (trim (substringFrom (trim raw) 2)) ++ rest with
       | [] => []
       | rows => [Equation (trim (join [LF] rows))]
       end).
Proof.
  intros Ho Hs Hr. unfold scanLines.
  change (length (raw :: rest)) with (S (length rest)).
  rewrite (un_scanLoop_step (raw :: rest) _ 0 raw eq_refl).
  unfold UploadNotion.iteration. rewrite Ho, Hs. cbn [skipn].
  rewrite (un_mathLoop_open rest 1 _ Hr). cbn [fst snd].
  rewrite un_scanLoop_end by (simpl; lia).
  fold (optional (trim (substringFrom (trim raw) 2))).
  destruct (optional (trim (substringFrom (trim raw) 2)) ++ rest); reflexivity.
Qed.

Lemma X6_unclosed_equation_witness :
  scanLines [lit "$$ a"; lit "# b"; lit " c"] =
  Ret [Equation (lit "a" ++ [LF] ++ lit "# b" ++ [LF] ++ lit " c")].
Proof.
  apply (X6_unclosed_equation (lit "$$ a") [lit "# b"; lit " c"]).
  - reflexivity.
  - reflexivity.
  - repeat constructor.
Defined.

(* ================================================================== *)
(** ** upload-notion.js: list items and quotes *)
(* ================================================================== *)

Lemma streq_true (a b : jsstring) : streq a b = true -> a = b.
Proof. unfold streq. destruct (list_eq_dec ascii_dec a b); [auto | discriminate]. Qed.

Lemma isDividerLine_cases (line : jsstring) :
  isDividerLine line = true ->
  line = lit "---" \/ line = lit "***" \/ line = lit "___".
Proof.
  unfold isDividerLine. intros H.
  apply orb_true_iff in H as [H|H]; [apply orb_true_iff in H as [H|H]|];
    apply streq_true in H; auto.
Qed.

Lemma replaceFirst_head (r : regex) (s : jsstring) (st : mstate) :
  (exists tl, rmatch r (MState [] s []) = st :: tl) ->
  replaceFirst r [] s = remaining st.
Proof.
  intros (tl & H). unfold replaceFirst.
  rewrite (search_here r [] s
             (MatchResult 0 (position st)
                (rev (firstn (position st - 0) (consumed st))) (captures st), st)).
  - reflexivity.
  - unfold matchHere. now rewrite H.
Qed.

Lemma test_head (r : regex) (s : jsstring) (st : mstate) :
  (exists tl, rmatch r (MState [] s []) = st :: tl) -> test r s = true.
Proof.
  intros (tl & H). unfold test.
  rewrite (search_here r [] s
             (MatchResult 0 (position st)
                (rev (firstn (position st - 0) (consumed st))) (captures st), st)).
  - reflexivity.
  - unfold matchHere. now rewrite H.
Qed.

(** A pattern anchored at the start matches only there. *)
Lemma search_anchored (r : regex) :
  forall rem c bef, search (RSeq RBol r) (c :: bef) rem = None.
Proof.
  induction rem as [|a rem IH]; intros c bef; simpl; [reflexivity | apply IH].
Qed.

Lemma test_anchored_fail (r : regex) (s : jsstring) :
  rmatch (RSeq RBol r) (MState [] s []) = [] -> test (RSeq RBol r) s = false.
Proof.
  intros H. unfold test.
  destruct s as [|c s]; simpl search; unfold matchHere; rewrite H; [reflexivity|].
  now rewrite search_anchored.
Qed.

Lemma space_is_space : isSpace " " = true.
Proof. reflexivity. Qed.

Lemma spaces_head (sp : ascii) (rest bef : jsstring) :
  isSpace sp = true ->
  exists tl,
    rep true CSpace 1 bef (sp :: rest) [] =
    MState (rev (takeWhile isSpace (sp :: rest)) ++ bef)
           (dropWhile isSpace rest) [] :: tl.
Proof.
  intros H.
  destruct (rep_greedy_head CSpace [] (sp :: rest) 1 bef) as (tl & E).
  { simpl. rewrite H. simpl. lia. }
  exists tl. rewrite E. simpl. now rewrite H.
Qed.

(** X7.  upload-notion.js: a bulleted item.  On a trimmed line that starts
    with [- ] or [* ], the iteration pushes one bulleted item whose text is
    the line without its mark and the white space after it, tokenized. *)
Theorem X7_bullet_text (lines : list jsstring) (i : nat) (raw : jsstring) :
  startsWith (trim raw) (lit "- ") || startsWith (trim raw) (lit "* ") = true ->
  UploadNotion.iteration lines i raw =
  (S i, [BulletedListItem
           (UploadNotion.processRichText (dropWhile isSpace (skipn 1 (trim raw))))]).
Proof.
  intros H. unfold UploadNotion.iteration. rewrite H.
  destruct (trim raw) as [|c [|sp rest]] eqn:T;
    try (unfold lit in H; simpl in H; rewrite ?andb_false_r in H; discriminate H).
  assert (Hc : (c = "-"%char \/ c = "*"%char) /\ sp = " "%char).
  { unfold lit in H. simpl in H.
    destruct (Ascii.eqb sp " ") eqn:S1;
      [|rewrite !andb_false_r in H; discriminate H].
    apply Ascii.eqb_eq in S1. split; [|exact S1].
    destruct (Ascii.eqb c "-") eqn:C1; [apply Ascii.eqb_eq in C1; auto|].
    destruct (Ascii.eqb c "*") eqn:C2; [apply Ascii.eqb_eq in C2; auto|].
    discriminate H. }
  destruct Hc as [Hc ->].
  assert (D : isDividerLine (c :: " "%char :: rest) = false).
  { destruct (isDividerLine (c :: " "%char :: rest)) eqn:D; [|reflexivity].
    apply isDividerLine_cases in D as [D|[D|D]]; discriminate D. }
  destruct (spaces_head " " rest [c] space_is_space) as (tl & E).
  assert (R : replaceFirst re_bullet [] (c :: " "%char :: rest) = dropWhile isSpace rest).
  { set (st := MState (rev (takeWhile isSpace (" "%char :: rest)) ++ [c])
                  (dropWhile isSpace rest) []) in *.
    change (dropWhile isSpace rest) with (remaining st).
    destruct Hc as [-> | ->].
    - apply (replaceFirst_head re_bullet _ st). eexists.
      unfold re_bullet, RPlus. cbn -[rep]. rewrite E. simpl. reflexivity.
    - apply (replaceFirst_head re_bullet _ st). eexists.
      unfold re_bullet, RPlus. cbn -[rep]. rewrite E. simpl. reflexivity. }
  rewrite D, R. cbn [skipn dropWhile]. rewrite space_is_space.
  destruct Hc as [-> | ->]; reflexivity.
Qed.

Lemma X7_bullet_text_witness :
  UploadNotion.iteration [lit " *   item $x$"] 0 (lit " *   item $x$") =
  (1, [BulletedListItem [UploadNotion.Text (lit "item ");
                         UploadNotion.InlineEquation (lit "x")]]).
Proof.
  rewrite X7_bullet_text; reflexivity.
Defined.

(** X8.  upload-notion.js: a quote.  On a trimmed line that starts with
    [> ], the iteration pushes one quote whose text is the line without the
    mark and the white space after it, tokenized. *)
Theorem X8_quote_text (lines : list jsstring) (i : nat) (raw : jsstring) :
  startsWith (trim raw) (lit "> ") = true ->
  UploadNotion.iteration lines i raw =
  (S i, [Quote (UploadNotion.processRichText (dropWhile isSpace (skipn 1 (trim raw))))]).
Proof.
  intros H. unfold UploadNotion.iteration. rewrite H.
  destruct (trim raw) as [|c [|sp rest]] eqn:T;
    try (unfold lit in H; simpl in H; rewrite ?andb_false_r in H; discriminate H).
  assert (Hc : c = ">"%char /\ sp = " "%char).
  { unfold lit in H. simpl in H.
    destruct (Ascii.eqb c ">") eqn:C1; [|discriminate H].
    destruct (Ascii.eqb sp " ") eqn:S1; [|discriminate H].
    apply Ascii.eqb_eq in C1, S1. auto. }
  destruct Hc as [-> ->].
  assert (D : isDividerLine (">"%char :: " "%char :: rest) = false) by reflexivity.
  assert (N : test re_numbered_test (">"%char :: " "%char :: rest) = false).
  { apply test_anchored_fail. reflexivity. }
  destruct (spaces_head " " rest [">"%char] space_is_space) as (tl & E).
  assert (R : replaceFirst re_quote [] (">"%char :: " "%char :: rest) =
              dropWhile isSpace rest).
  { set (st := MState (rev (takeWhile isSpace (" "%char :: rest)) ++ [">"%char])
                  (dropWhile isSpace rest) []) in *.
    change (dropWhile isSpace rest) with (remaining st).
    apply (replaceFirst_head re_quote _ st). eexists.
    unfold re_quote, RPlus. cbn -[rep]. rewrite E. simpl. reflexivity. }
  rewrite N, R. reflexivity.
Qed.

Lemma X8_quote_text_witness :
  UploadNotion.iteration [lit ">  wise words"] 0 (lit ">  wise words") =
  (1, [Quote [UploadNotion.Text (lit "wise words")]]).
Proof.
  rewrite X8_quote_text; reflexivity.
Defined.

Lemma digit_first (d : ascii) (t : jsstring) :
  isDigit d = true ->
  startsWith (d :: t) (lit "$$") = false /\
  startsWith (d :: t) (lit "```") = false /\
  isDividerLine (d :: t) = false /\
  startsWith (d :: t) (lit "#") = false /\
  startsWith (d :: t) (lit "- ") || startsWith (d :: t) (lit "* ") = false.
Proof.
  intros H. apply mem_In in H. unfold lit in H. simpl in H.
  repeat (destruct H as [<-|H]; [repeat split|]). contradiction.
Qed.

Lemma digits_head (ds rest bef : jsstring) (d : ascii) :
  ds <> [] -> Forall (fun c => isDigit c = true) ds -> isDigit d = false ->
  exists tl,
    rep true CDigit 1 bef (ds ++ d :: rest) [] =
    MState (rev ds ++ bef) (d :: rest) [] :: tl.
Proof.
  intros Hne Hds Hd.
  destruct (takeWhile_all (inClass CDigit) ds rest d Hds Hd) as [T D].
  destruct (rep_greedy_head CDigit [] (ds ++ d :: rest) 1 bef) as (tl & E).
  { rewrite T. destruct ds; [contradiction | simpl; lia]. }
  exists tl. now rewrite E, T, D.
Qed.

(** X9.  upload-notion.js: a numbered item.  On a trimmed line made of
    digits, a dot, a white-space character and a rest, the iteration pushes
    one numbered item whose text is the rest without leading white space,
    tokenized: the number itself is not kept. *)
Theorem X9_numbered_text (lines : list jsstring) (i : nat)
    (raw ds : jsstring) (sp : ascii) (rest : jsstring) :
  trim raw = ds ++ "."%char :: sp :: rest ->
  ds <> [] -> Forall (fun c => isDigit c = true) ds -> isSpace sp = true ->
  UploadNotion.iteration lines i raw =
  (S i, [NumberedListItem (UploadNotion.processRichText (dropWhile isSpace rest))]).
Proof.
  intros T Hne Hds Hsp. unfold UploadNotion.iteration. rewrite T.
  destruct (digits_head ds (sp :: rest) [] "." Hne Hds eq_refl) as (tl & E).
  destruct (spaces_head sp rest ("."%char :: rev ds ++ []) Hsp) as (tl' & E').
  assert (N : test re_numbered_test (ds ++ "."%char :: sp :: rest) = true).
  { apply (test_head re_numbered_test _
             (MState (sp :: "."%char :: rev ds ++ []) rest [])).
    eexists. unfold re_numbered_test, RPlus. cbn -[rep isSpace isDigit]. rewrite E.
    cbn -[rep isSpace isDigit]. rewrite Hsp. simpl. reflexivity. }
  assert (R : replaceFirst re_numbered [] (ds ++ "."%char :: sp :: rest) =
              dropWhile isSpace rest).
  { set (st := MState (rev (takeWhile isSpace (sp :: rest)) ++ "."%char :: rev ds ++ [])
                  (dropWhile isSpace rest) []) in *.
    change (dropWhile isSpace rest) with (remaining st).
    apply (replaceFirst_head re_numbered _ st). eexists.
    unfold re_numbered, RPlus. cbn -[rep isSpace isDigit]. rewrite E.
    cbn -[rep isSpace isDigit]. rewrite E'. simpl. reflexivity. }
  rewrite N, R.
  destruct ds as [|d ds]; [contradiction|]. inversion Hds as [|? ? Hd _]; subst.
  cbn [app].
  destruct (digit_first d (ds ++ "."%char :: sp :: rest) Hd) as (-> & -> & -> & -> & ->).
  reflexivity.
Qed.

Lemma X9_numbered_text_witness :
  UploadNotion.iteration [lit "12.  twelfth"] 0 (lit "12.  twelfth") =
  (1, [NumberedListItem [UploadNotion.Text (lit "twelfth")]]).
Proof.
  apply (X9_numbered_text [lit "12.  twelfth"] 0 (lit "12.  twelfth")
           (lit "12") " " (lit " twelfth")).
  - reflexivity.
  - discriminate.
  - repeat constructor.
  - reflexivity.
Defined.

(* ================================================================== *)
(** ** upload-notion.js: the inline tokenizer on plain text and on one equation *)
(* ================================================================== *)

(** X10.  upload-notion.js: a text without any [$] is one text item holding
    the text unchanged, and the empty text gives no item. *)
Theorem X10_plain_text (text : jsstring) :
  ~ In "$"%char text ->
  UploadNotion.processRichText text =
  if truthy text then [UploadNotion.Text text] else [].
Proof.
  intros H. unfold UploadNotion.processRichText, splitRegex.
  destruct text as [|c text]; simpl truthy.
  - rewrite (matchHere_absent UploadNotion.re_inline_math [] [] "$"); auto.
    simpl. now left.
  - rewrite (splitFrom_absent UploadNotion.re_inline_math 1 "$"); auto.
    simpl. now left.
Qed.

Lemma X10_plain_text_witness :
  UploadNotion.processRichText (lit "**not bold** here") =
  [UploadNotion.Text (lit "**not bold** here")].
Proof.
  rewrite X10_plain_text; [reflexivity|].
  intros H. repeat (destruct H as [H|H]; [discriminate H|]). exact H.
Defined.

Lemma splitFrom_skip_then (r : regex) (ng : nat) :
  forall x bef rest,
    splitFrom r ng bef (x ++ rest) [] (length x) =
    splitFrom r ng (rev x ++ bef) rest [] 0.
Proof.
  induction x as [|c x IH]; intros bef rest; simpl.
  - destruct rest; reflexivity.
  - rewrite IH, <- app_assoc. reflexivity.
Qed.

Lemma un_math_miss (bef rem : list ascii) (c : ascii) :
  c <> "$"%char -> matchHere UploadNotion.re_inline_math bef (c :: rem) = None.
Proof.
  intros H. unfold matchHere, UploadNotion.re_inline_math. simpl.
  destruct (Ascii.eqb c "$") eqn:E; [apply Ascii.eqb_eq in E; contradiction|].
  reflexivity.
Qed.

Lemma un_split_pre :
  forall pre bef piece rest,
    ~ In "$"%char pre ->
    splitFrom UploadNotion.re_inline_math 1 bef (pre ++ rest) piece 0 =
    splitFrom UploadNotion.re_inline_math 1 (rev pre ++ bef) rest (rev pre ++ piece) 0.
Proof.
  induction pre as [|c pre IH]; intros bef piece rest H; [reflexivity|].
  cbn [app]. destruct rest as [|d rest].
  - cbn [splitFrom]. rewrite un_math_miss by (intros ->; apply H; now left).
    rewrite IH by (intros Hin; apply H; now right).
    simpl. now rewrite <- !app_assoc.
  - cbn [splitFrom]. rewrite un_math_miss by (intros ->; apply H; now left).
    rewrite IH by (intros Hin; apply H; now right).
    simpl. now rewrite <- !app_assoc.
Qed.

Lemma rmatch_group_eq (n : nat) (r : regex) (st : mstate) :
  rmatch (RGroup n r) st = map (setCapture n st) (rmatch r st).
Proof. reflexivity. Qed.

Lemma rmatch_seq_eq (r1 r2 : regex) (st : mstate) :
  rmatch (RSeq r1 r2) st = flat_map (rmatch r2) (rmatch r1 st).
Proof. reflexivity. Qed.

Lemma rmatch_rep_eq (g : bool) (min : nat) (cs : charset) (st : mstate) :
  rmatch (RRep g min cs) st = rep g cs min (consumed st) (remaining st) (captures st).
Proof. reflexivity. Qed.

Lemma flat_map_one {A B : Type} (f : A -> list B) (a : A) : flat_map f [a] = f a.
Proof. simpl. apply app_nil_r. Qed.

Lemma un_math_rmatch (bef e post : list ascii) :
  Forall (fun c => inClass (CNoneOf ["$"%char; CR; LF]) c = true) e ->
  rmatch UploadNotion.re_inline_math (MState bef ("$"%char :: e ++ "$"%char :: post) []) =
  [setCapture 1 (MState bef ("$"%char :: e ++ "$"%char :: post) [])
                (MState ("$"%char :: rev e ++ "$"%char :: bef) post [])].
Proof.
  intros He. unfold UploadNotion.re_inline_math, rcat, RStarLazy. cbn [fold_right].
  rewrite rmatch_group_eq, rmatch_seq_eq, rmatch_char_hit, flat_map_one.
  rewrite rmatch_seq_eq, rmatch_rep_eq. cbn [consumed remaining captures].
  rewrite (lazy_until (CNoneOf ["$"%char; CR; LF]) "$" REps [] eq_refl e _ post He).
  reflexivity.
Qed.

Lemma matchHere_one (r : regex) (bef rem x : list ascii) (st0 st : mstate) :
  st0 = MState bef rem [] ->
  rmatch r st0 = [st] -> advances st0 st x ->
  matchHere r bef rem =
  Some (MatchResult (length bef) (length bef + length x) x (captures st), st).
Proof.
  intros -> H A. unfold matchHere. rewrite H.
  destruct (advances_text _ _ _ A) as [P1 P2].
  change (position (MState bef rem [])) with (length bef) in P1, P2.
  rewrite P2.
  assert (Z : position st = length bef + length x).
  { unfold position. rewrite (proj1 A), length_app, length_rev. simpl. lia. }
  now rewrite Z.
Qed.

Lemma un_math_hit (bef e post : list ascii) :
  Forall (fun c => inClass (CNoneOf ["$"%char; CR; LF]) c = true) e ->
  exists m st,
    matchHere UploadNotion.re_inline_math bef ("$"%char :: e ++ "$"%char :: post) =
    Some (m, st) /\
    m_end m - m_index m = S (S (length e)) /\
    groupsOf 1 m = ["$"%char :: e ++ ["$"%char]].
Proof.
  intros He.
  set (st0 := MState bef ("$"%char :: e ++ "$"%char :: post) []).
  set (stf := MState ("$"%char :: rev e ++ "$"%char :: bef) post []).
  assert (A : advances st0 (setCapture 1 st0 stf) ("$"%char :: e ++ ["$"%char])).
  { split; simpl.
    - rewrite rev_app_distr. simpl. now rewrite <- app_assoc.
    - now rewrite <- app_assoc. }
  pose proof (matchHere_one UploadNotion.re_inline_math bef _ _ st0 _ eq_refl
                (un_math_rmatch bef e post He) A) as M.
  eexists. eexists. split; [exact M|]. split.
  - simpl. rewrite length_app. simpl. lia.
  - destruct (advances_text st0 stf ("$"%char :: e ++ ["$"%char])) as [_ P2].
    { split; simpl.
      - rewrite rev_app_distr. simpl. now rewrite <- app_assoc.
      - now rewrite <- app_assoc. }
    unfold groupsOf, m_groupStr, m_group.
    cbn [seq map m_caps lookupCapture captures setCapture Nat.eqb].
    unfold st0, stf in P2. now rewrite P2.
Qed.

Lemma splitRegex_nonempty (r : regex) (ng : nat) (s : jsstring) :
  s <> [] -> splitRegex r ng s = splitFrom r ng [] s [] 0.
Proof. destruct s; [contradiction | reflexivity]. Qed.

Lemma un_richItem_equation (e : jsstring) :
  UploadNotion.richItem 1 ("$"%char :: e ++ ["$"%char]) =
  if truthy (trim e) then [UploadNotion.InlineEquation (trim e)] else [].
Proof.
  unfold UploadNotion.richItem. cbn [Nat.modulo Nat.divmod Nat.eqb snd Nat.sub].
  assert (S1 : startsWith ("$"%char :: e ++ ["$"%char]) (lit "$") = true).
  { unfold lit. simpl. apply startsWith_nil. }
  assert (S2 : endsWith ("$"%char :: e ++ ["$"%char]) (lit "$") = true).
  { apply (endsWith_app ("$"%char :: e) (lit "$")). }
  assert (S3 : slice_1_m1 ("$"%char :: e ++ ["$"%char]) = e).
  { unfold slice_1_m1. cbn [length skipn]. rewrite length_app. cbn [length].
    replace (S (length e + 1) - 1 - 1) with (length e + 0) by lia.
    now rewrite firstn_app_2, app_nil_r. }
  now rewrite S1, S2, S3.
Qed.

(** X11.  upload-notion.js: one inline equation inside plain text.  For a
    text made of a part without [$], then [$], an expression without [$],
    carriage return or newline, then [$], then a part without [$], the
    tokenizer returns the first part as text, an equation whose expression
    is the expression trimmed, and the last part as text; a part that is
    empty and an expression that is blank give no item. *)
Theorem X11_one_inline_equation (pre e post : jsstring) :
  ~ In "$"%char pre ->
  Forall (fun c => inClass (CNoneOf ["$"%char; CR; LF]) c = true) e ->
  ~ In "$"%char post ->
  UploadNotion.processRichText (pre ++ "$"%char :: e ++ "$"%char :: post) =
  (if truthy pre then [UploadNotion.Text pre] else []) ++
  (if truthy (trim e) then [UploadNotion.InlineEquation (trim e)] else []) ++
  (if truthy post then [UploadNotion.Text post] else []).
Proof.
  intros Hpre He Hpost. unfold UploadNotion.processRichText.
  rewrite splitRegex_nonempty by (destruct pre; discriminate).
  rewrite (un_split_pre pre [] [] _ Hpre).
  destruct (un_math_hit (rev pre ++ []) e post He) as (m & st & M & N & G).
  cbn [splitFrom]. rewrite M, N, G. cbn [Nat.eqb andb Nat.sub].
  replace (e ++ "$"%char :: post) with ((e ++ ["$"%char]) ++ post)
    by (rewrite <- app_assoc; reflexivity).
  replace (length e - 0) with (length e) by lia.
  replace (S (length e)) with (length (e ++ ["$"%char]))
    by (rewrite length_app; simpl; lia).
  rewrite splitFrom_skip_then.
  rewrite (splitFrom_absent UploadNotion.re_inline_math 1 "$") by (simpl; auto).
  rewrite app_nil_r, rev_involutive. cbn [app rev UploadNotion.richLoop].
  rewrite un_richItem_equation. unfold UploadNotion.richItem.
  cbn [Nat.modulo Nat.divmod Nat.eqb snd Nat.sub fst]. now rewrite app_nil_r.
Qed.

Lemma X11_one_inline_equation_witness :
  UploadNotion.processRichText (lit "area: $ pi r^2 $.") =
  [UploadNotion.Text (lit "area: "); UploadNotion.InlineEquation (lit "pi r^2");
   UploadNotion.Text (lit ".")].
Proof.
  apply (X11_one_inline_equation (lit "area: ") (lit " pi r^2 ") (lit ".")).
  - intros H. repeat (destruct H as [H|H]; [discriminate H|]). exact H.
  - repeat constructor.
  - intros H. repeat (destruct H as [H|H]; [discriminate H|]). exact H.
Defined.

Lemma splitFrom_concat (r : regex) :
  capturesAll r ->
  forall rem bef piece skip,
    skip <= length rem -> (skip = 0 \/ piece = []) ->
    concat (splitFrom r 1 bef rem piece skip) = rev piece ++ skipn skip rem.
Proof.
  intros G. induction rem as [|c rem IH]; intros bef piece skip Hs Hp.
  - simpl in Hs. assert (skip = 0) by lia; subst. simpl. now rewrite app_nil_r.
  - cbn [splitFrom]. destruct skip as [|k].
    + cbn [skipn]. destruct (matchHere r bef (c :: rem)) as [[m st]|] eqn:E.
      * pose proof (G _ _ _ _ E) as Gm.
        apply matchHere_spec in E as (_ & x & H1 & _ & _ & H4 & H5 & H6).
        replace (m_end m - m_index m) with (length x) by lia.
        destruct (Nat.eqb (length x) 0 && negb (truthy piece)) eqn:B.
        -- rewrite IH by (auto; lia). simpl. now rewrite <- app_assoc.
        -- unfold groupsOf. cbn [seq map]. rewrite Gm, H6.
           destruct (Nat.eqb (length x) 0) eqn:Z; cbn [app concat].
           ++ apply Nat.eqb_eq in Z. destruct x; [|discriminate].
              rewrite IH by (auto; lia). simpl. reflexivity.
           ++ destruct x as [|c' x]; [discriminate|].
              simpl in H1. injection H1 as <- H1.
              rewrite IH by (rewrite ?H1, ?length_app; simpl; auto; lia).
              cbn [length Nat.sub rev app]. rewrite Nat.sub_0_r, H1.
              rewrite skipn_app, skipn_all, Nat.sub_diag. simpl.
              reflexivity.
      * rewrite IH by (auto; lia). simpl. now rewrite <- app_assoc.
    + destruct Hp as [Hp|Hp]; [discriminate|]. subst piece.
      rewrite IH by (simpl in Hs; auto; lia). reflexivity.
Qed.

Lemma un_capturesAll : capturesAll UploadNotion.re_inline_math.
Proof.
  intros bef rem m st. unfold matchHere, UploadNotion.re_inline_math.
  rewrite rmatch_group_eq.
  destruct (rmatch _ (MState bef rem [])) as [|s l]; [discriminate|].
  cbn [map]. intros [= <- <-]. unfold m_groupStr, m_group. simpl.
  reflexivity.
Qed.

(** X12.  upload-notion.js: the segments the tokenizer works on lose
    nothing.  The array that [text.split] returns for the inline-math
    pattern, pieces of text and matched [$...$] spans in turn, put together
    again gives the text. *)
Theorem X12_segments_cover_text (text : jsstring) :
  concat (splitRegex UploadNotion.re_inline_math 1 text) = text.
Proof.
  unfold splitRegex. destruct text as [|c text].
  - destruct (matchHere UploadNotion.re_inline_math [] []); reflexivity.
  - rewrite (splitFrom_concat _ un_capturesAll); [reflexivity | lia | auto].
Qed.

(* ================================================================== *)
(** ** part_001: sorting and selecting the matches *)
(* ================================================================== *)

Lemma p1_insert_HdRel (y x : Part001.fmatch) (l : list Part001.fmatch) :
  HdRel byStart y l -> byStart y x -> HdRel byStart y (Part001.insertByStart x l).
Proof.
  intros H Hx. destruct l as [|z l]; simpl.
  - now constructor.
  - destruct (Nat.ltb (Part001.f_start x) (Part001.f_start z)); constructor; auto.
    now inversion H.
Qed.

Lemma p1_insert_sorted (x : Part001.fmatch) (l : list Part001.fmatch) :
  Sorted byStart l -> Sorted byStart (Part001.insertByStart x l).
Proof.
  induction l as [|y l IH]; intros H; simpl.
  - repeat constructor.
  - inversion H as [|? ? Hs Hh]; subst.
    destruct (Nat.ltb (Part001.f_start x) (Part001.f_start y)) eqn:E.
    + apply Nat.ltb_lt in E. constructor; [exact H|]. constructor.
      unfold byStart. lia.
    + apply Nat.ltb_ge in E. constructor; [now apply IH|].
      now apply p1_insert_HdRel.
Qed.

Lemma p1_insert_perm (x : Part001.fmatch) (l : list Part001.fmatch) :
  Permutation (Part001.insertByStart x l) (x :: l).
Proof.
  induction l as [|y l IH]; simpl; [reflexivity|].
  destruct (Nat.ltb (Part001.f_start x) (Part001.f_start y)); [reflexivity|].
  rewrite IH. apply perm_swap.
Qed.

Lemma p1_sort_from (l : list Part001.fmatch) :
  forall acc, Sorted byStart acc ->
    Sorted byStart (fold_left (fun acc x => Part001.insertByStart x acc) l acc) /\
    Permutation (fold_left (fun acc x => Part001.insertByStart x acc) l acc) (acc ++ l).
Proof.
  induction l as [|x l IH]; intros acc H; simpl.
  - split; [exact H | now rewrite app_nil_r].
  - destruct (IH _ (p1_insert_sorted x acc H)) as [S P]. split; [exact S|].
    rewrite P, p1_insert_perm. apply Permutation_middle.
Qed.

(** X13.  part_001: [matches.sort] as modelled puts the matches in
    non-decreasing order of their start and neither adds nor loses one. *)
Theorem X13_sort_by_start (matches : list Part001.fmatch) :
  Sorted byStart (Part001.sortByStart matches) /\
  Permutation (Part001.sortByStart matches) matches.
Proof.
  destruct (p1_sort_from matches [] (Sorted_nil _)) as [S P]. split; assumption.
Qed.

Lemma p1_keepFrom_incl :
  forall l acc x, In x acc -> In x (keepFrom acc l).
Proof.
  intros l acc x H. destruct (p1_keepFrom_prefix l acc) as (tl & ->).
  apply in_or_app. now left.
Qed.

Lemma p1_keepFrom_maximal :
  forall l acc m, In m l ->
    In m (keepFrom acc l) \/
    exists k, In k (keepFrom acc l) /\ Part001.overlaps m k = true.
Proof.
  induction l as [|x l IH]; intros acc m Hin; [contradiction|].
  rewrite keepFrom_cons. destruct Hin as [->|Hin]; [|now apply IH].
  destruct (existsb (Part001.overlaps m) acc) eqn:E.
  - right. apply existsb_exists in E as (k & Hk & O).
    exists k. split; [now apply p1_keepFrom_incl | exact O].
  - left. apply p1_keepFrom_incl. apply in_or_app. right. now left.
Qed.

(** X14.  part_001: the selection drops a candidate only for an overlap.
    Every match kept is one of the candidates, and every candidate is kept
    or overlaps a match that is kept. *)
Theorem X14_selection_maximal (matches : list Part001.fmatch) :
  (forall k, In k (Part001.keepValid matches) -> In k matches) /\
  (forall m, In m matches ->
     In m (Part001.keepValid matches) \/
     exists k, In k (Part001.keepValid matches) /\ Part001.overlaps m k = true).
Proof.
  split.
  - intros k Hk.
    pose proof (p1_keepFrom_Forall (fun x => In x matches) matches []) as F.
    assert (Forall (fun x => In x matches) (keepFrom [] matches)) as G.
    { apply F; [apply Forall_forall; auto | constructor]. }
    exact (proj1 (Forall_forall _ _) G k Hk).
  - intros m Hm. apply (p1_keepFrom_maximal matches [] m Hm).
Qed.

(* ================================================================== *)
(** ** part_001: what restoring the equations does to a part *)
(* ================================================================== *)

Lemma p1_restoreSegments_fragments (ph : list jsstring)
    (annot : option Part001.annotations) :
  forall segments items,
    Part001.restoreSegments ph annot segments = Ret items ->
    Forall (fragmentOf annot) items.
Proof.
  induction segments as [|seg rest IH]; intros items; simpl.
  - intros [= <-]. constructor.
  - destruct (Part001.restoreSegment ph annot seg) as [its| |] eqn:E; simpl;
      try discriminate.
    destruct (Part001.restoreSegments ph annot rest) as [more| |] eqn:R; simpl;
      try discriminate.
    intros [= <-]. apply Forall_app; split; [|now apply IH].
    unfold Part001.restoreSegment in E.
    destruct (startsWith seg (lit "__MATH_") && endsWith seg (lit "__")).
    + destruct (matchFirst Part001.re_digits seg) as [m|]; [|discriminate].
      destruct (nth_error ph (parseDigits (m_text m))) as [e|];
        injection E as <-; [|constructor].
      destruct (truthy e); repeat constructor.
    + destruct (truthy seg); injection E as <-; repeat constructor.
Qed.

(** X15.  part_001: when the content of a part holds a placeholder, the
    part is replaced by equations and text fragments; every fragment carries
    the annotation of the part (the empty annotation when the part had
    none) and no link, so a link whose text holds an equation loses its
    URL. *)
Theorem X15_restored_fragments (ph : list jsstring) (content : jsstring)
    (link : option (option jsstring)) (annot : option Part001.annotations)
    (items : list Part001.richText) :
  includes content (lit "__MATH_") = true ->
  Part001.restorePart ph (Part001.Text content link annot) = Ret items ->
  Forall (fragmentOf annot) items.
Proof.
  intros H. unfold Part001.restorePart. rewrite H.
  apply p1_restoreSegments_fragments.
Qed.

Lemma X15_restored_fragments_witness :
  Forall (fragmentOf None)
    [Part001.Text (lit "see ") None (Some Part001.NoFormat);
     Part001.InlineEquation (lit "x")].
Proof.
  apply (X15_restored_fragments [lit "x"] (lit "see __MATH_0__")
           (Some (Some (lit "http://u"))) None).
  - reflexivity.
  - reflexivity.
Defined.

Lemma p1_build_length (text : jsstring) :
  forall ms parts lastEnd,
    length parts + length ms <=
    length (fst (fold_left (Part001.buildStep text) ms (parts, lastEnd))).
Proof.
  induction ms as [|m ms IH]; intros parts lastEnd; simpl; [lia|].
  etransitivity; [|apply IH]. rewrite !length_app. simpl. lia.
Qed.

(** X16.  part_001: the formatting pass returns on every text (its four
    [exec] loops end and nothing throws), and on a text that is not empty
    it returns at least one part. *)
Theorem X16_formatting_returns (text : jsstring) :
  exists parts,
    Part001.processTextFormatting text = Ret parts /\
    (text <> [] -> parts <> []).
Proof.
  destruct (p1_processTextFormatting_returns text) as (parts & E & _).
  exists parts. split; [exact E|]. intros Hne.
  unfold Part001.processTextFormatting in E.
  destruct (p1_collect_returns text Part001.patterns (incl_refl _)) as (ms & C & _).
  rewrite C in E. simpl in E.
  pose proof (p1_build_length text (Part001.keepValid (Part001.sortByStart ms)) [] 0) as L.
  destruct (Part001.keepValid (Part001.sortByStart ms)) as [|v vs] eqn:V.
  - simpl in E. assert (T : Nat.ltb 0 (length text) = true).
    { apply Nat.ltb_lt. destruct text; [contradiction | simpl; lia]. }
    rewrite T in E. rewrite substringFrom_skipn in E by lia. simpl skipn in E.
    apply truthy_nonempty in Hne. rewrite Hne in E. simpl in E.
    injection E as <-. discriminate.
  - destruct (fold_left (Part001.buildStep text) (v :: vs) ([], 0)) as [ps lastEnd].
    simpl in L.
    assert (P : ps <> []) by (destruct ps; [simpl in L; lia | discriminate]).
    injection E as <-.
    assert (Q : (if Nat.ltb lastEnd (length text)
                 then if truthy (substringFrom text lastEnd)
                      then ps ++ [Part001.plain (substringFrom text lastEnd)]
                      else ps
                 else ps) <> []).
    { destruct (Nat.ltb lastEnd (length text)); [|exact P].
      destruct (truthy (substringFrom text lastEnd)); [|exact P].
      destruct ps; [contradiction | discriminate]. }
    match goal with |- (if ?c then _ else _) <> [] => destruct c end; [|exact Q].
    intros Z. apply app_eq_nil in Z as [_ Z]. discriminate.
Qed.

(* ================================================================== *)
(** ** part_001: the inline tokenizer on plain text and on one equation *)
(* ================================================================== *)

Lemma execLoop_absent (r : regex) (c : ascii) (fuel : nat) (text : jsstring) :
  In c (literalChars r) -> ~ In c text ->
  execLoop (S fuel) r [] text = Ret [].
Proof. intros Hc Hn. simpl. now rewrite (search_absent r c Hc text [] Hn). Qed.

Lemma replaceAll_absent {St : Type} (callback : St -> rmatchResult -> St * jsstring)
    (r : regex) (c : ascii) (text : jsstring) (init : St) :
  In c (literalChars r) -> ~ In c text ->
  replaceAll callback r text init = (init, text).
Proof.
  intros Hc Hn. unfold replaceAll, matchAll.
  rewrite (matchAllFrom_absent r c Hc text [] 0 Hn). simpl.
  rewrite substringFrom_skipn by lia. reflexivity.
Qed.

(** X17.  part_001: a text that holds none of [$], [*], the backquote and
    [[], and not the letters of a placeholder, comes back as one plain text
    item holding the text unchanged. *)
Theorem X17_p1_plain_text (text : jsstring) :
  text <> [] ->
  ~ In "$"%char text -> ~ In "*"%char text -> ~ In "`"%char text -> ~ In "["%char text ->
  includes text (lit "__MATH_") = false ->
  Part001.processRichText text = Ret [Part001.Text text None None].
Proof.
  intros Hne Hd Hs Hb Hl Hm. unfold Part001.processRichText.
  rewrite (replaceAll_absent Part001.protectMath Part001.re_inline_math "$" text)
    by (simpl; auto).
  unfold Part001.processTextFormatting, Part001.patterns, Part001.collect.
  cbn [Part001.p_regex].
  rewrite (execLoop_absent Part001.re_bold "*"), (execLoop_absent Part001.re_italic "*"),
    (execLoop_absent Part001.re_code "`"), (execLoop_absent Part001.re_link "[")
    by (simpl; auto).
  cbn [bind map app Part001.sortByStart Part001.keepValid fold_left].
  assert (T : Nat.ltb 0 (length text) = true).
  { apply Nat.ltb_lt. destruct text; [contradiction | simpl; lia]. }
  rewrite T, substringFrom_skipn by lia. cbn [skipn].
  apply truthy_nonempty in Hne. rewrite Hne.
  cbn [app length Nat.eqb andb Part001.restoreParts Part001.restorePart Part001.plain].
  rewrite Hm. reflexivity.
Qed.

Lemma X17_p1_plain_text_witness :
  Part001.processRichText (lit "under_score and #hash") =
  Ret [Part001.Text (lit "under_score and #hash") None None].
Proof.
  apply X17_p1_plain_text; try reflexivity; try discriminate;
    intros H; repeat (destruct H as [H|H]; [discriminate H|]); exact H.
Defined.

Lemma p1_math_hit (e : jsstring) :
  e <> [] ->
  Forall (fun c => inClass (CNoneOf ["$"%char; LF]) c = true) e ->
  exists m st,
    matchHere Part001.re_inline_math [] ("$"%char :: e ++ ["$"%char]) = Some (m, st) /\
    m_index m = 0 /\ m_end m = S (S (length e)) /\ m_groupStr 1 m = e.
Proof.
  intros Hne He.
  destruct (takeWhile_all (inClass (CNoneOf ["$"%char; LF])) e [] "$" He eq_refl) as [T D].
  destruct (rep_greedy_head (CNoneOf ["$"%char; LF]) [] (e ++ ["$"%char]) 1 ["$"%char])
    as (tl & E).
  { rewrite T. destruct e; [contradiction | simpl; lia]. }
  rewrite T, D in E.
  set (s1 := MState ["$"%char] (e ++ ["$"%char]) []).
  set (h := MState (rev e ++ ["$"%char]) ["$"%char] []) in *.
  assert (A : advances s1 h e) by (split; reflexivity).
  destruct (advances_text s1 h e A) as [_ P].
  assert (R : exists tl',
             rmatch Part001.re_inline_math (MState [] ("$"%char :: e ++ ["$"%char]) []) =
             MState ("$"%char :: rev e ++ ["$"%char]) [] [(1, e)] :: tl').
  { unfold Part001.re_inline_math, rcat, RPlus. cbn [fold_right].
    rewrite rmatch_seq_eq, rmatch_char_hit, flat_map_one.
    rewrite rmatch_seq_eq, rmatch_group_eq, rmatch_rep_eq.
    cbn [consumed remaining captures]. rewrite E. cbn [map flat_map].
    fold s1. unfold setCapture at 1. rewrite P.
    unfold h at 1 2 3. cbn [consumed remaining captures].
    rewrite rmatch_seq_eq, rmatch_char_hit, flat_map_one. cbn [rmatch app].
    now eexists. }
  destruct R as (tl' & R).
  unfold matchHere. rewrite R. eexists. eexists. split; [reflexivity|].
  unfold m_groupStr, m_group, position. cbn [m_index m_end m_caps consumed lookupCapture Nat.eqb length].
  repeat split. rewrite length_app, length_rev. simpl. lia.
Qed.

(** X18.  part_001: a text that is one inline equation.  For [$], a
    non-empty expression without [$] and newline, [$], the tokenizer
    returns one equation whose expression is the expression trimmed, and
    nothing when the expression is blank. *)
Theorem X18_p1_one_equation (e : jsstring) :
  e <> [] ->
  Forall (fun c => inClass (CNoneOf ["$"%char; LF]) c = true) e ->
  Part001.processRichText ("$"%char :: e ++ ["$"%char]) =
  Ret (if truthy (trim e) then [Part001.InlineEquation (trim e)] else []).
Proof.
  intros Hne He. destruct (p1_math_hit e Hne He) as (m & st & M & I & N & G).
  unfold Part001.processRichText, replaceAll, matchAll.
  cbn [matchAllFrom]. rewrite M, I, N.
  replace (S (S (length e)) - 0 - 1) with (length (e ++ ["$"%char]))
    by (rewrite length_app; simpl; lia).
  rewrite (matchAllFrom_skip Part001.re_inline_math "$") by (simpl; auto).
  cbn [replaceFold Part001.protectMath]. rewrite I, N, G.
  rewrite substringFrom_skipn by (simpl; rewrite length_app; simpl; lia).
  replace (skipn (S (S (length e))) ("$"%char :: e ++ ["$"%char])) with (@nil ascii).
  2:{ symmetry. apply skipn_all2. simpl. rewrite length_app. simpl. lia. }
  generalize (trim e). intros t.
  change (substring ("$"%char :: e ++ ["$"%char]) 0 0) with (@nil ascii).
  rewrite app_nil_r. cbn [app].
  destruct t; vm_compute; reflexivity.
Qed.

Lemma X18_p1_one_equation_witness :
  Part001.processRichText (lit "$ x+y $") = Ret [Part001.InlineEquation (lit "x+y")].
Proof.
  apply (X18_p1_one_equation (lit " x+y ")).
  - discriminate.
  - repeat constructor.
Defined.

(* ================================================================== *)
(** ** part_001: what the link pattern matches *)
(* ================================================================== *)

Lemma rep_class (g : bool) (cs : charset) (caps : list (nat * jsstring)) :
  forall rem min bef st',
    In st' (rep g cs min bef rem caps) ->
    exists x, consumed st' = rev x ++ bef /\ rem = x ++ remaining st' /\
              min <= length x /\ Forall (fun c => inClass cs c = true) x.
Proof.
  induction rem as [|c rem IH]; intros min bef st' Hin.
  - simpl in Hin. assert (H : In st' (match min with 0 => [MState bef [] caps] | S _ => [] end)).
    { destruct g; simpl in Hin; [|rewrite app_nil_r in Hin]; exact Hin. }
    destruct min; simpl in H; [|contradiction].
    destruct H as [<-|[]]. exists []; simpl; auto.
  - simpl in Hin.
    assert (H : In st' (match min with 0 => [MState bef (c :: rem) caps] | S _ => [] end) \/
                In st' (if inClass cs c then rep g cs (pred min) (c :: bef) rem caps else [])).
    { destruct g; apply in_app_or in Hin; tauto. }
    destruct H as [H|H].
    + destruct min; simpl in H; [|contradiction].
      destruct H as [<-|[]]. exists []; simpl; auto.
    + destruct (inClass cs c) eqn:C; [|contradiction].
      apply IH in H as (x & H1 & H2 & H3 & H4).
      exists (c :: x); simpl. rewrite H1, <- app_assoc. simpl.
      repeat split; auto; [congruence | lia].
Qed.

(** The matcher is sound: what it consumes is a text the pattern spans. *)
Lemma rmatch_spans (r : regex) :
  forall st st', In st' (rmatch r st) ->
    exists x, advances st st' x /\ spans r x.
Proof.
  induction r as [|cs|g min cs|r1 IH1 r2 IH2|n r IH| |cs|cs]; intros st st' Hin; simpl in Hin.
  - destruct Hin as [<-|[]]. exists []. split; [apply advances_refl | reflexivity].
  - destruct (remaining st) as [|c rem'] eqn:E; [contradiction|].
    destruct (inClass cs c) eqn:C; [|contradiction].
    destruct Hin as [<-|[]]. exists [c]. split; [split; simpl; auto | now exists c].
  - apply rep_class in Hin as (x & H1 & H2 & H3 & H4).
    exists x. split; [split; auto | split; auto].
  - apply in_flat_map in Hin as (mid & Hm & Hin).
    apply IH1 in Hm as (x & Hx & Lx). apply IH2 in Hin as (y & Hy & Ly).
    exists (x ++ y). split; [eapply advances_trans; eauto|].
    now exists x, y.
  - apply in_map_iff in Hin as (mid & <- & Hm).
    apply IH in Hm as (x & [H1 H2] & Lx). exists x. split; [split; simpl; auto | exact Lx].
  - destruct (consumed st); [|contradiction].
    destruct Hin as [<-|[]]. exists []. split; [apply advances_refl | reflexivity].
  - exists []. split; [|reflexivity].
    destruct (consumed st) as [|c ?]; [|destruct (inClass cs c); [contradiction|]];
      destruct Hin as [<-|[]]; apply advances_refl.
  - exists []. split; [|reflexivity].
    destruct (remaining st) as [|c ?]; [|destruct (inClass cs c); [contradiction|]];
      destruct Hin as [<-|[]]; apply advances_refl.
Qed.

Lemma matchHere_spans (r : regex) (bef rem : list ascii) (m : rmatchResult) (st : mstate) :
  matchHere r bef rem = Some (m, st) ->
  exists x, rem = x ++ remaining st /\ spans r x.
Proof.
  unfold matchHere. destruct (rmatch r (MState bef rem [])) as [|st0 l] eqn:E; [discriminate|].
  intros [= <- <-].
  assert (Hin : In st0 (rmatch r (MState bef rem []))) by (rewrite E; now left).
  apply rmatch_spans in Hin as (x & [_ H2] & Hx). now exists x.
Qed.

(** Where the link pattern of part_001 matches, the text reads [[], a
    non-empty text without []], [](], a non-empty URL without [)] and
    newline, [)]. *)
Lemma p1_link_spans (x : list ascii) :
  spans Part001.re_link x ->
  exists g1 g2,
    x = "["%char :: g1 ++ "]"%char :: "("%char :: g2 ++ [")"%char] /\
    g1 <> [] /\ g2 <> [] /\ ~ In "]"%char g1 /\ ~ In ")"%char g2.
Proof.
  unfold Part001.re_link, rcat, RPlusLazy, RChar. cbn [fold_right spans].
  intros (a1 & b1 & -> & (c1 & -> & C1) & a2 & b2 & -> & (L1 & F1) & a3 & b3 & -> &
          (c3 & -> & C3) & a4 & b4 & -> & (c4 & -> & C4) & a5 & b5 & -> & (L2 & F2) &
          a6 & b6 & -> & (c6 & -> & C6) & ->).
  simpl in C1, C3, C4, C6. rewrite orb_false_r in C1, C3, C4, C6.
  apply Ascii.eqb_eq in C1, C3, C4, C6. subst.
  exists a2, a5. split; [reflexivity|].
  split; [destruct a2; [simpl in L1; lia | discriminate]|].
  split; [destruct a5; [simpl in L2; lia | discriminate]|].
  split.
  - intros H. apply (proj1 (Forall_forall _ _) F1) in H. discriminate H.
  - intros H. apply (proj1 (Forall_forall _ _) F2) in H. discriminate H.
Qed.

Lemma app_until {A : Type} (d : A) (a a' b b' : list A) :
  ~ In d a -> ~ In d a' -> a ++ d :: b = a' ++ d :: b' -> a = a' /\ b = b'.
Proof.
  revert a'. induction a as [|x a IH]; intros [|x' a'] Ha Ha' E; simpl in E.
  - injection E as <-. auto.
  - injection E as <- _. exfalso. apply Ha'. now left.
  - injection E as -> _. exfalso. apply Ha. now left.
  - injection E as <- E. destruct (IH a') as [-> ->]; auto.
    + intros H. apply Ha. now right.
    + intros H. apply Ha'. now right.
Qed.

(** The link pattern does not match at a bracket that is closed at once. *)
Lemma p1_link_empty_text (bef rest : list ascii) :
  matchHere Part001.re_link bef ("["%char :: "]"%char :: rest) = None.
Proof.
  destruct (matchHere Part001.re_link bef _) as [[m st]|] eqn:E; [|reflexivity].
  apply matchHere_spans in E as (x & E & Hx).
  apply p1_link_spans in Hx as (g1 & g2 & -> & N1 & _ & C1 & _).
  destruct g1 as [|c g1]; [contradiction|]. simpl in E.
  injection E as <- _. exfalso. apply C1. now left.
Qed.

(** Nor where the parenthesis after the text is closed at once. *)
Lemma p1_link_empty_url (bef t rest : list ascii) :
  ~ In "]"%char t ->
  matchHere Part001.re_link bef ("["%char :: t ++ "]"%char :: "("%char :: ")"%char :: rest) = None.
Proof.
  intros Ht. destruct (matchHere Part001.re_link bef _) as [[m st]|] eqn:E; [|reflexivity].
  apply matchHere_spans in E as (x & E & Hx).
  apply p1_link_spans in Hx as (g1 & g2 & -> & _ & N2 & C1 & C2).
  simpl in E. injection E as E. rewrite <- app_assoc in E. simpl in E.
  apply app_until in E as [_ E]; auto.
  destruct g2 as [|c g2]; [contradiction|]. simpl in E.
  injection E as <- _. exfalso. apply C2. now left.
Qed.

(** part_001: a text without equation, emphasis or code marks in which the
    link pattern finds nothing, and without the letters of a placeholder,
    comes back as one plain text item. *)
Lemma p1_unformatted (text : jsstring) :
  text <> [] ->
  ~ In "$"%char text -> ~ In "*"%char text -> ~ In "`"%char text ->
  search Part001.re_link [] text = None ->
  includes text (lit "__MATH_") = false ->
  Part001.processRichText text = Ret [Part001.Text text None None].
Proof.
  intros Hne Hd Hs Hb Hl Hm. unfold Part001.processRichText.
  rewrite (replaceAll_absent Part001.protectMath Part001.re_inline_math "$" text)
    by (simpl; auto).
  unfold Part001.processTextFormatting, Part001.patterns, Part001.collect.
  cbn [Part001.p_regex].
  rewrite (execLoop_absent Part001.re_bold "*"), (execLoop_absent Part001.re_italic "*"),
    (execLoop_absent Part001.re_code "`") by (simpl; auto).
  cbn [execLoop]. rewrite Hl.
  cbn [bind map app Part001.sortByStart Part001.keepValid fold_left].
  assert (T : Nat.ltb 0 (length text) = true).
  { apply Nat.ltb_lt. destruct text; [contradiction | simpl; lia]. }
  rewrite T, substringFrom_skipn by lia. cbn [skipn].
  apply truthy_nonempty in Hne. rewrite Hne.
  cbn [app length Nat.eqb andb Part001.restoreParts Part001.restorePart Part001.plain].
  rewrite Hm. reflexivity.
Qed.

Lemma search_step (r : regex) (bef rem : list ascii) (c : ascii) :
  matchHere r bef (c :: rem) = None ->
  search r bef (c :: rem) = search r (c :: bef) rem.
Proof. intros H. cbn [search]. now rewrite H. Qed.

Lemma not_in_app (c : ascii) (a b : list ascii) : ~ In c a -> ~ In c b -> ~ In c (a ++ b).
Proof. intros Ha Hb H. apply in_app_or in H as [H|H]; auto. Qed.

Lemma not_in_lit (c : ascii) (s : string) :
  mem c (lit s) = false -> ~ In c (lit s).
Proof. intros H Hin. apply mem_In in Hin. congruence. Qed.

(** C2, amended.  The tokenizer of part_001 emits a link segment only with
    a non-empty text and a non-empty URL: every match of the link pattern
    captures at least one code unit in each of its two groups, and every
    link segment the tokenizer returns has a non-empty content and a
    non-empty URL.  A text that is just a construct with an empty part,
    [[](url)] or [[text]()], and holds no other mark ([[], []] inside the
    text, [$], [*], backquote, the letters of a placeholder) comes back as
    one plain text segment.  Inside a longer text the code units around
    such a construct can still make a link: [[[](u)] is a link with the
    text [[] and the URL [u]. *)
Theorem C2_links_nonempty :
  (forall text segs content url annot,
     Part001.processRichText text = Ret segs ->
     In (Part001.Text content (Some url) annot) segs ->
     content <> [] /\ exists u, url = Some u /\ u <> []) /\
  (forall m, isMatchOf Part001.re_link m ->
     m_groupStr 1 m <> [] /\ m_groupStr 2 m <> []) /\
  (forall url,
     ~ In "["%char url -> ~ In "$"%char url -> ~ In "*"%char url -> ~ In "`"%char url ->
     includes (lit "[](" ++ url ++ lit ")") (lit "__MATH_") = false ->
     Part001.processRichText (lit "[](" ++ url ++ lit ")") =
     Ret [Part001.Text (lit "[](" ++ url ++ lit ")") None None]) /\
  (forall text,
     ~ In "["%char text -> ~ In "]"%char text ->
     ~ In "$"%char text -> ~ In "*"%char text -> ~ In "`"%char text ->
     includes (lit "[" ++ text ++ lit "]()") (lit "__MATH_") = false ->
     Part001.processRichText (lit "[" ++ text ++ lit "]()") =
     Ret [Part001.Text (lit "[" ++ text ++ lit "]()") None None]) /\
  Part001.processRichText (lit "[[](u)") =
    Ret [Part001.Text (lit "[") (Some (Some (lit "u"))) None].
Proof.
  split; [|split; [|split; [|split]]].
  - intros text segs content url annot H Hin. apply p1_processRichText_good in H.
    exact (proj1 (Forall_forall _ _) H _ Hin).
  - intros m Hm. split; apply (isMatchOf_groupStr Part001.re_link m _ Hm eq_refl);
      simpl; auto.
  - intros url Hl Hd Hs Hb Hm.
    assert (N : forall c, mem c (lit "[](") = false -> mem c (lit ")") = false ->
                ~ In c url -> ~ In c (lit "[](" ++ url ++ lit ")")).
    { intros c H1 H2 H3. apply not_in_app; [now apply not_in_lit|].
      apply not_in_app; [exact H3 | now apply not_in_lit]. }
    apply p1_unformatted; auto; try discriminate.
    change (lit "[](" ++ url ++ lit ")")
      with ("["%char :: "]"%char :: "("%char :: url ++ lit ")").
    rewrite search_step by apply p1_link_empty_text.
    apply (search_absent Part001.re_link "[" (or_introl eq_refl)
             (lit "](" ++ url ++ lit ")")).
    apply not_in_app; [now apply not_in_lit|].
    apply not_in_app; [exact Hl | now apply not_in_lit].
  - intros text Hl Hr Hd Hs Hb Hm.
    assert (N : forall c, mem c (lit "[") = false -> mem c (lit "]()") = false ->
                ~ In c text -> ~ In c (lit "[" ++ text ++ lit "]()")).
    { intros c H1 H2 H3. apply not_in_app; [now apply not_in_lit|].
      apply not_in_app; [exact H3 | now apply not_in_lit]. }
    apply p1_unformatted; auto; try discriminate.
    change (lit "[" ++ text ++ lit "]()")
      with ("["%char :: text ++ "]"%char :: "("%char :: ")"%char :: []).
    rewrite search_step by apply (p1_link_empty_url [] text [] Hr).
    apply (search_absent Part001.re_link "[" (or_introl eq_refl)
             (text ++ lit "]()")).
    apply not_in_app; [exact Hl | now apply not_in_lit].
  - reflexivity.
Qed.

Lemma C2_links_nonempty_witness :
  (lit "text" <> [] /\ exists u, Some (lit "http://x") = Some u /\ u <> []) /\
  Part001.processRichText (lit "[](http://x_y)") =
    Ret [Part001.Text (lit "[](http://x_y)") None None] /\
  Part001.processRichText (lit "[some text]()") =
    Ret [Part001.Text (lit "[some text]()") None None].
Proof.
  split; [|split].
  - apply (proj1 C2_links_nonempty (lit "[text](http://x)")
             [Part001.Text (lit "text") (Some (Some (lit "http://x"))) None]
             (lit "text") (Some (lit "http://x")) None).
    + reflexivity.
    + left. reflexivity.
  - apply (proj1 (proj2 (proj2 C2_links_nonempty)) (lit "http://x_y"));
      try reflexivity;
      intros H; repeat (destruct H as [H|H]; [discriminate H|]); exact H.
  - apply (proj1 (proj2 (proj2 (proj2 C2_links_nonempty))) (lit "some text"));
      try reflexivity;
      intros H; repeat (destruct H as [H|H]; [discriminate H|]); exact H.
Defined.

(* ================================================================== *)
(** ** upload-notion.js: the request handler *)
(* ================================================================== *)

Lemma chunksFrom_nil {A : Type} (fuel : nat) : chunksFrom fuel (@nil A) = [].
Proof. destruct fuel; reflexivity. Qed.

Lemma chunksFrom_concat {A : Type} :
  forall fuel (l : list A), length l <= Handler.batchSize * fuel ->
    concat (chunksFrom fuel l) = l.
Proof.
  induction fuel as [|fuel IH]; intros l H.
  - destruct l; [reflexivity | simpl in H; lia].
  - destruct l as [|a l]; [reflexivity|].
    cbn [chunksFrom concat]. rewrite IH; [apply firstn_skipn|].
    rewrite length_skipn. unfold Handler.batchSize in *. lia.
Qed.

Lemma chunksFrom_sizes {A : Type} :
  forall fuel (l : list A),
    Forall (fun b => 1 <= length b <= Handler.batchSize) (chunksFrom fuel l).
Proof.
  induction fuel as [|fuel IH]; intros l; [constructor|].
  destruct l as [|a l]; [constructor|].
  cbn [chunksFrom]. constructor; [|apply IH].
  rewrite length_firstn. unfold Handler.batchSize. simpl length. lia.
Qed.

Lemma slice_batch {A : Type} (l : list A) (i : nat) :
  Handler.slice l i (i + Handler.batchSize) = firstn Handler.batchSize (skipn i l).
Proof. unfold Handler.slice. f_equal. lia. Qed.

Lemma skipn_nonempty {A : Type} (l : list A) (i : nat) :
  i < length l -> exists a t, skipn i l = a :: t.
Proof.
  intros H. destruct (skipn i l) as [|a t] eqn:E; [|now eexists; eexists].
  apply (f_equal (@length A)) in E. rewrite length_skipn in E. simpl in E. lia.
Qed.

(** The constructor of [Response] on the statuses the handler uses. *)
Lemma newResponse_relayable (b : Handler.responseBody) (st : nat)
    (hs : list (jsstring * jsstring)) :
  relayable st -> Handler.newResponse b st hs = Ret (Handler.Response st b hs).
Proof.
  intros [[H1 H2] H3]. unfold Handler.newResponse.
  assert (E1 : Nat.ltb st 200 = false) by (apply Nat.ltb_ge; lia).
  assert (E2 : Nat.ltb 599 st = false) by (apply Nat.ltb_ge; lia).
  rewrite E1, E2. cbn [orb].
  destruct (existsb (Nat.eqb st) Handler.nullBodyStatus) eqn:E; [|reflexivity].
  apply existsb_exists in E as (x & Hx & E). apply Nat.eqb_eq in E. subst x.
  contradiction.
Qed.

Lemma newResponse_refused (b : Handler.responseBody) (st : nat)
    (hs : list (jsstring * jsstring)) :
  ~ relayable st -> exists e, Handler.newResponse b st hs = Throw e.
Proof.
  intros H. unfold Handler.newResponse.
  destruct (Nat.ltb st 200 || Nat.ltb 599 st) eqn:E1; [now eexists|].
  destruct (existsb (Nat.eqb st) Handler.nullBodyStatus) eqn:E2; [now eexists|].
  exfalso. apply H. apply orb_false_iff in E1 as [E1 E3].
  apply Nat.ltb_ge in E1, E3. split; [lia|].
  intros Hin. assert (existsb (Nat.eqb st) Handler.nullBodyStatus = true); [|congruence].
  apply existsb_exists. exists st. split; [exact Hin | apply Nat.eqb_refl].
Qed.

Lemma newResponse_terminates (b : Handler.responseBody) (st : nat)
    (hs : list (jsstring * jsstring)) :
  terminates (Handler.newResponse b st hs).
Proof.
  unfold terminates, Handler.newResponse.
  destruct (_ || _); [discriminate|]. destruct (existsb _ _); discriminate.
Qed.

(** [ToString] ends on every value. *)
Lemma toString_terminates (numberToString : spec_float -> jsstring) :
  forall v, terminates (Handler.toString numberToString v).
Proof.
  unfold terminates. fix IH 1. intros [ | |b|x|s|items|properties]; cbn [Handler.toString];
    try discriminate.
  - match goal with
    | |- bind (?each items) _ <> _ =>
        assert (E : forall l, (forall e, In e l -> Handler.toString numberToString e <> OutOfFuel) ->
                              each l <> OutOfFuel)
    end.
    { induction l as [|e l IHl]; intros Hl; [discriminate|].
      assert (He : match e with
                   | Handler.JUndefined | Handler.JNull => Ret []
                   | _ => Handler.toString numberToString e
                   end <> @OutOfFuel jsstring).
      { pose proof (Hl e (or_introl eq_refl)). destruct e; try discriminate; assumption. }
      destruct (match e with
                | Handler.JUndefined | Handler.JNull => Ret []
                | _ => Handler.toString numberToString e
                end) as [s0| |]; cbn [bind]; [|discriminate|contradiction].
      specialize (IHl (fun e' H => Hl e' (or_intror H))).
      destruct ((fix each (l0 : list Handler.jsvalue) : outcome (list jsstring) := _) l);
        cbn [bind]; [discriminate|discriminate|contradiction]. }
    assert (A : forall e, In e items -> Handler.toString numberToString e <> OutOfFuel).
    { clear E. induction items as [|e l IHl]; intros e' He'; [contradiction|].
      destruct He' as [<-|He']; [apply IH | now apply IHl]. }
    specialize (E items A).
    destruct ((fix each (l0 : list Handler.jsvalue) : outcome (list jsstring) := _) items);
      cbn [bind]; [discriminate|discriminate|contradiction].
  - destruct (Handler.lookupProperty _ _); discriminate.
Qed.

Section HandlerFacts.

Variable numberToString : spec_float -> jsstring.
Variable net : nat -> Handler.fetchRequest -> outcome Handler.fetchResponse.

Lemma appendLoop_done (fuel : nat) (token pageId : Handler.jsvalue)
    (blocks : list (block UploadNotion.richText)) (i : nat)
    (log : list Handler.fetchRequest) :
  length blocks <= i ->
  Handler.appendLoop numberToString net fuel token pageId blocks i log = (Ret None, log).
Proof.
  intros H. assert (E : Nat.ltb i (length blocks) = false) by (apply Nat.ltb_ge; lia).
  destruct fuel; simpl; now rewrite E.
Qed.

(** One turn of the loop, when the two template literals can be built. *)
Lemma appendLoop_step (fuel : nat) (token pageId : Handler.jsvalue)
    (tok pid : jsstring) (blocks : list (block UploadNotion.richText)) (i : nat)
    (log : list Handler.fetchRequest) :
  Handler.toString numberToString token = Ret tok ->
  Handler.toString numberToString pageId = Ret pid ->
  i < length blocks ->
  Handler.appendLoop numberToString net (S fuel) token pageId blocks i log =
  let q := Handler.appendRequest (bearerOf tok) (childrenOf pid)
             (firstn Handler.batchSize (skipn i blocks)) in
  match net (length log) q with
  | Ret appendResponse =>
      if negb (Handler.ok appendResponse) then
        match Handler.r_text appendResponse with
        | Ret errorData =>
            match Handler.apiError (lit "Notion API Error appending blocks: ")
                    (Handler.r_status appendResponse) errorData with
            | Ret early => (Ret (Some early), log ++ [q])
            | Throw e => (Throw e, log ++ [q])
            | OutOfFuel => (OutOfFuel, log ++ [q])
            end
        | Throw e => (Throw e, log ++ [q])
        | OutOfFuel => (OutOfFuel, log ++ [q])
        end
      else Handler.appendLoop numberToString net fuel token pageId blocks
             (i + Handler.batchSize) (log ++ [q])
  | Throw e => (Throw e, log ++ [q])
  | OutOfFuel => (OutOfFuel, log ++ [q])
  end.
Proof.
  intros Ht Hp Hi. cbn [Handler.appendLoop].
  rewrite (proj2 (Nat.ltb_lt _ _) Hi).
  unfold Handler.ioBind, Handler.lift, Handler.fetch, Handler.childrenUrl, Handler.bearer.
  rewrite Ht, Hp, slice_batch. cbn [bind].
  fold (bearerOf tok). fold (childrenOf pid).
  destruct (net (length log) _) as [r| |]; try reflexivity.
  destruct (negb (Handler.ok r)); [|reflexivity].
  destruct (Handler.r_text r); reflexivity.
Qed.

(** The loop when every call it makes is answered with [ok]. *)
Lemma appendLoop_ok (token pageId : Handler.jsvalue) (tok pid : jsstring)
    (blocks : list (block UploadNotion.richText)) :
  Handler.toString numberToString token = Ret tok ->
  Handler.toString numberToString pageId = Ret pid ->
  forall fuel i log,
    length blocks <= i + Handler.batchSize * fuel ->
    (forall n q, length log <= n -> exists r, net n q = Ret r /\ Handler.ok r = true) ->
    Handler.appendLoop numberToString net fuel token pageId blocks i log =
    (Ret None,
     log ++ map (Handler.appendRequest (bearerOf tok) (childrenOf pid))
              (chunksFrom fuel (skipn i blocks))).
Proof.
  intros Ht Hp. induction fuel as [|fuel IH]; intros i log Hf Hok.
  - rewrite appendLoop_done by lia. simpl. now rewrite app_nil_r.
  - destruct (Nat.ltb i (length blocks)) eqn:E.
    + apply Nat.ltb_lt in E. destruct (skipn_nonempty blocks i E) as (a & t & Sk).
      rewrite (appendLoop_step fuel token pageId tok pid blocks i log Ht Hp E).
      cbv zeta.
      destruct (Hok (length log) (Handler.appendRequest (bearerOf tok) (childrenOf pid)
                  (firstn Handler.batchSize (skipn i blocks)))) as (r & -> & ->); [lia|].
      cbn [negb]. rewrite IH.
      * rewrite Sk. cbn [chunksFrom map]. rewrite <- Sk.
        rewrite <- app_assoc. cbn [app]. rewrite skipn_skipn.
        now rewrite (Nat.add_comm Handler.batchSize i).
      * unfold Handler.batchSize in *. lia.
      * intros n q Hn. apply Hok. rewrite length_app in Hn. simpl in Hn. lia.
    + apply Nat.ltb_ge in E. rewrite appendLoop_done by lia.
      rewrite skipn_all2 by lia. rewrite chunksFrom_nil. simpl. now rewrite app_nil_r.
Qed.

(** The loop when the call number [length log + k] is the first that is
    answered with a response that is not [ok]. *)
Lemma appendLoop_fail (token pageId : Handler.jsvalue) (tok pid : jsstring)
    (blocks : list (block UploadNotion.richText))
    (bad : Handler.fetchResponse) (errorData : jsstring) :
  Handler.toString numberToString token = Ret tok ->
  Handler.toString numberToString pageId = Ret pid ->
  Handler.ok bad = false ->
  Handler.r_text bad = Ret errorData ->
  forall fuel i log k,
    length blocks <= i + Handler.batchSize * fuel ->
    k < length (chunksFrom fuel (skipn i blocks)) ->
    (forall n q, length log <= n < length log + k ->
       exists r, net n q = Ret r /\ Handler.ok r = true) ->
    (forall q, net (length log + k) q = Ret bad) ->
    Handler.appendLoop numberToString net fuel token pageId blocks i log =
    (match Handler.apiError (lit "Notion API Error appending blocks: ")
             (Handler.r_status bad) errorData with
     | Ret early => Ret (Some early)
     | Throw e => Throw e
     | OutOfFuel => OutOfFuel
     end,
     log ++ map (Handler.appendRequest (bearerOf tok) (childrenOf pid))
              (firstn (S k) (chunksFrom fuel (skipn i blocks)))).
Proof.
  intros Ht Hp Hbad Htext. induction fuel as [|fuel IH]; intros i log k Hf Hk Hok Hfail.
  - simpl in Hk. lia.
  - destruct (Nat.ltb i (length blocks)) eqn:E.
    + apply Nat.ltb_lt in E. destruct (skipn_nonempty blocks i E) as (a & t & Sk).
      rewrite (appendLoop_step fuel token pageId tok pid blocks i log Ht Hp E).
      cbv zeta.
      rewrite Sk in Hk. cbn [chunksFrom length] in Hk. rewrite <- Sk in Hk.
      rewrite skipn_skipn, (Nat.add_comm Handler.batchSize i) in Hk.
      destruct k as [|k].
      * rewrite Nat.add_0_r in Hfail. rewrite Hfail, Hbad, Htext. cbn [negb].
        rewrite Sk. cbn [chunksFrom firstn map]. rewrite <- Sk.
        destruct (Handler.apiError _ _ _); reflexivity.
      * destruct (Hok (length log) (Handler.appendRequest (bearerOf tok) (childrenOf pid)
                    (firstn Handler.batchSize (skipn i blocks)))) as (r & -> & ->); [lia|].
        cbn [negb]. rewrite (IH (i + Handler.batchSize) (log ++ [_]) k).
        -- rewrite Sk. cbn [chunksFrom map firstn]. rewrite <- Sk.
           rewrite <- app_assoc. cbn [app]. rewrite skipn_skipn.
           now rewrite (Nat.add_comm Handler.batchSize i).
        -- unfold Handler.batchSize in *. lia.
        -- lia.
        -- intros n q Hn. apply Hok. rewrite length_app in Hn. simpl in Hn. lia.
        -- intros q. rewrite length_app. simpl.
           replace (length log + 1 + k) with (length log + S k) by lia. apply Hfail.
    + apply Nat.ltb_ge in E. rewrite skipn_all2, chunksFrom_nil in Hk by lia.
      simpl in Hk. lia.
Qed.

Lemma appendLoop_terminates (token pageId : Handler.jsvalue)
    (blocks : list (block UploadNotion.richText)) :
  answers net ->
  forall fuel i log,
    length blocks <= i + Handler.batchSize * fuel ->
    terminates (fst (Handler.appendLoop numberToString net fuel token pageId blocks i log)).
Proof.
  intros Hnet. unfold terminates.
  induction fuel as [|fuel IH]; intros i log Hf.
  - rewrite appendLoop_done by lia. discriminate.
  - cbn [Handler.appendLoop].
    destruct (Nat.ltb i (length blocks)); [|discriminate].
    unfold Handler.ioBind, Handler.lift, Handler.fetch.
    destruct (Handler.childrenUrl numberToString pageId) as [url|e|] eqn:U;
      [|discriminate|].
    2:{ unfold Handler.childrenUrl in U.
        pose proof (toString_terminates numberToString pageId) as T. unfold terminates in T.
        destruct (Handler.toString numberToString pageId);
          [discriminate U | discriminate U | contradiction]. }
    destruct (Handler.bearer numberToString token) as [au|e|] eqn:B; [|discriminate|].
    2:{ unfold Handler.bearer in B.
        pose proof (toString_terminates numberToString token) as T. unfold terminates in T.
        destruct (Handler.toString numberToString token);
          [discriminate B | discriminate B | contradiction]. }
    destruct (Hnet (length log) (Handler.appendRequest au url
                (Handler.slice blocks i (i + Handler.batchSize)))) as [T Tb].
    unfold terminates in T.
    destruct (net (length log) _) as [r| |]; try discriminate; [|contradiction].
    destruct (negb (Handler.ok r)).
    + destruct (Tb r eq_refl) as [Tt _]. unfold terminates in Tt.
      destruct (Handler.r_text r) as [errorData|e|]; [|discriminate|contradiction].
      pose proof (newResponse_terminates
                    (Handler.BodyError (lit "Notion API Error appending blocks: " ++
                       toDecimal (Handler.r_status r) ++ lit " - " ++ errorData))
                    (Handler.r_status r) Handler.corsHeaders) as Tn.
      unfold terminates in Tn. unfold Handler.apiError.
      destruct (Handler.newResponse _ _ _); [discriminate|discriminate|contradiction].
    + apply IH. unfold Handler.batchSize in *. lia.
Qed.

End HandlerFacts.

Lemma complete_check (p : Handler.payload) :
  complete p ->
  negb (Handler.toBoolean (Handler.title p)) ||
  negb (Handler.toBoolean (Handler.markdownContent p)) ||
  negb (Handler.toBoolean (Handler.notionToken p)) ||
  negb (Handler.toBoolean (Handler.parentPageId p)) = false.
Proof. intros (-> & -> & -> & ->). reflexivity. Qed.

Lemma complete_check_inv (p : Handler.payload) :
  negb (Handler.toBoolean (Handler.title p)) ||
  negb (Handler.toBoolean (Handler.markdownContent p)) ||
  negb (Handler.toBoolean (Handler.notionToken p)) ||
  negb (Handler.toBoolean (Handler.parentPageId p)) = false ->
  complete p.
Proof.
  unfold complete.
  destruct (Handler.toBoolean (Handler.title p)),
           (Handler.toBoolean (Handler.markdownContent p)),
           (Handler.toBoolean (Handler.notionToken p)),
           (Handler.toBoolean (Handler.parentPageId p)); simpl; intros H;
    try discriminate H; auto.
Qed.

Section HandlerRuns.

Variable numberToString : spec_float -> jsstring.
Variable net : nat -> Handler.fetchRequest -> outcome Handler.fetchResponse.

(** The [try] block up to the answer to the page creation. *)
Lemma tryBlock_created (m : jsstring) (data : Handler.jsvalue) (p : Handler.payload)
    (md tok : jsstring) (blocks : list (block UploadNotion.richText))
    (pageResponse : Handler.fetchResponse) :
  Handler.destructure data = Ret p ->
  complete p ->
  Handler.markdownContent p = Handler.JString md ->
  UploadNotion.parseMarkdownWithMath md = Ret blocks ->
  Handler.toString numberToString (Handler.notionToken p) = Ret tok ->
  net 0 (Handler.createRequest (bearerOf tok) p) = Ret pageResponse ->
  Handler.tryBlock numberToString net (Handler.Request m (Ret data)) [] =
  let q := Handler.createRequest (bearerOf tok) p in
  if negb (Handler.ok pageResponse) then
    match Handler.r_text pageResponse with
    | Ret errorData =>
        (Handler.apiError (lit "Notion API Error: ") (Handler.r_status pageResponse)
           errorData, [q])
    | Throw e => (Throw e, [q])
    | OutOfFuel => (OutOfFuel, [q])
    end
  else
    match Handler.r_json pageResponse with
    | Ret pageResult =>
        match Handler.getId pageResult with
        | Ret pageId =>
            match Handler.appendLoop numberToString net (length blocks)
                    (Handler.notionToken p) pageId blocks 0 [q] with
            | (Ret (Some early), log) => (Ret early, log)
            | (Ret None, log) =>
                (Handler.newResponse (Handler.BodyJson pageResult) 200 Handler.corsHeaders,
                 log)
            | (Throw e, log) => (Throw e, log)
            | (OutOfFuel, log) => (OutOfFuel, log)
            end
        | Throw e => (Throw e, [q])
        | OutOfFuel => (OutOfFuel, [q])
        end
    | Throw e => (Throw e, [q])
    | OutOfFuel => (OutOfFuel, [q])
    end.
Proof.
  intros Hd Hc Hmd Hb Ht Hn.
  unfold Handler.tryBlock, Handler.ioBind, Handler.lift, Handler.fetch, Handler.bearer.
  cbn [Handler.json]. rewrite Hd, (complete_check p Hc), Hmd.
  cbn [Handler.parseMarkdownWithMath]. rewrite Hb, Ht. cbn [bind length app].
  fold (bearerOf tok). rewrite Hn. cbv zeta.
  destruct (negb (Handler.ok pageResponse)).
  - destruct (Handler.r_text pageResponse); reflexivity.
  - destruct (Handler.r_json pageResponse) as [pageResult| |]; try reflexivity.
    destruct (Handler.getId pageResult) as [pageId| |]; try reflexivity.
    destruct (Handler.appendLoop _ _ _ _ _ _ _ _) as [[[early|]| |] log]; reflexivity.
Qed.

End HandlerRuns.

(** X19.  upload-notion.js: a successful upload.  For a POST request whose
    body is an object with four truthy fields, the Markdown a string and
    the token a value that has a text, when the page is created with a
    page object whose [id] has a text and every later call is answered
    with [ok], the handler responds 200 with the created page, and what it
    sent is the page creation followed by one append request per batch, in
    order; the batches have between 1 and 100 blocks and put together are
    the blocks of the converted document. *)
Theorem X19_upload_success (numberToString : spec_float -> jsstring)
    (net : nat -> Handler.fetchRequest -> outcome Handler.fetchResponse)
    (data : Handler.jsvalue) (p : Handler.payload) (md tok pid : jsstring)
    (pageResponse : Handler.fetchResponse) (pageResult pageId : Handler.jsvalue) :
  Handler.destructure data = Ret p ->
  complete p ->
  Handler.markdownContent p = Handler.JString md ->
  Handler.toString numberToString (Handler.notionToken p) = Ret tok ->
  net 0 (Handler.createRequest (bearerOf tok) p) = Ret pageResponse ->
  Handler.ok pageResponse = true ->
  Handler.r_json pageResponse = Ret pageResult ->
  Handler.getId pageResult = Ret pageId ->
  Handler.toString numberToString pageId = Ret pid ->
  (forall n q, 1 <= n -> exists r, net n q = Ret r /\ Handler.ok r = true) ->
  exists blocks,
    UploadNotion.parseMarkdownWithMath md = Ret blocks /\
    Handler.handler numberToString net (Handler.Request (lit "POST") (Ret data)) =
      (Ret (Handler.Response 200 (Handler.BodyJson pageResult) Handler.corsHeaders),
       Handler.createRequest (bearerOf tok) p ::
       map (Handler.appendRequest (bearerOf tok) (childrenOf pid)) (chunks blocks)) /\
    concat (chunks blocks) = blocks /\
    Forall (fun b => 1 <= length b <= 100) (chunks blocks).
Proof.
  intros Hd Hc Hmd Ht H0 Hok Hj Hid Hp Hrest.
  destruct (un_parse_returns md) as (blocks & B).
  exists blocks. split; [exact B|]. split; [|split].
  - unfold Handler.handler. cbn [Handler.method].
    change (streq (lit "POST") (lit "POST")) with true. cbn [negb].
    rewrite (tryBlock_created numberToString net _ data p md tok blocks pageResponse
               Hd Hc Hmd B Ht H0).
    cbv zeta. rewrite Hok, Hj, Hid. cbn [negb].
    rewrite (appendLoop_ok numberToString net _ _ tok pid blocks Ht Hp
               (length blocks) 0 [Handler.createRequest (bearerOf tok) p]).
    + reflexivity.
    + unfold Handler.batchSize. lia.
    + intros n q Hn. apply Hrest. simpl in Hn. lia.
  - apply chunksFrom_concat. unfold Handler.batchSize. lia.
  - apply (chunksFrom_sizes (length blocks) blocks).
Qed.

(** X20.  upload-notion.js: the handler always responds.  When the network
    answers every call and the bodies of the request and of the responses
    settle, the handler returns a response, whatever the request: nothing
    it throws escapes it. *)
Theorem X20_handler_responds (numberToString : spec_float -> jsstring)
    (net : nat -> Handler.fetchRequest -> outcome Handler.fetchResponse)
    (req : Handler.request) :
  answers net -> terminates (Handler.json req) ->
  exists resp log, Handler.handler numberToString net req = (Ret resp, log).
Proof.
  intros Hnet Hjson. unfold Handler.handler.
  destruct (negb (streq (Handler.method req) (lit "POST"))); [now eexists; eexists|].
  assert (T : terminates (fst (Handler.tryBlock numberToString net req []))).
  { unfold Handler.tryBlock, Handler.ioBind, Handler.lift, Handler.fetch, terminates in *.
    destruct (Handler.json req) as [data|e|]; [|discriminate|contradiction].
    destruct (Handler.destructure data) as [p|e|] eqn:D; [|discriminate|].
    2:{ destruct data; discriminate D. }
    match goal with |- context [if ?c then _ else _] => destruct c end;
      [apply newResponse_terminates|].
    destruct (Handler.parseMarkdownWithMath (Handler.markdownContent p))
      as [blocks|e|] eqn:P; [|discriminate|].
    2:{ destruct (Handler.markdownContent p) as [ | | | |md| | ]; try discriminate P.
        simpl in P. destruct (un_parse_returns md) as (bs & B). congruence. }
    destruct (Handler.bearer numberToString (Handler.notionToken p)) as [au|e|] eqn:B;
      [|discriminate|].
    2:{ unfold Handler.bearer in B.
        pose proof (toString_terminates numberToString (Handler.notionToken p)) as T.
        unfold terminates in T.
        destruct (Handler.toString numberToString (Handler.notionToken p));
          [discriminate B | discriminate B | contradiction]. }
    cbn [length app].
    destruct (Hnet 0 (Handler.createRequest au p)) as [T0 Tb]. unfold terminates in T0.
    destruct (net 0 (Handler.createRequest au p)) as [r0|e|];
      [|discriminate|contradiction].
    destruct (Tb r0 eq_refl) as [Tt Tj]. unfold terminates in Tt, Tj.
    destruct (negb (Handler.ok r0)).
    - destruct (Handler.r_text r0) as [errorData|e|]; [|discriminate|contradiction].
      apply newResponse_terminates.
    - destruct (Handler.r_json r0) as [pageResult|e|]; [|discriminate|contradiction].
      destruct (Handler.getId pageResult) as [pageId|e|] eqn:G; [|discriminate|].
      2:{ destruct pageResult; discriminate G. }
      pose proof (appendLoop_terminates numberToString net (Handler.notionToken p) pageId
                    blocks Hnet (length blocks) 0 [Handler.createRequest au p]) as T.
      unfold terminates in T.
      destruct (Handler.appendLoop numberToString net (length blocks) _ _ blocks 0 _)
        as [[[early|]|e|] log]; try discriminate.
      exfalso. apply T; [unfold Handler.batchSize; lia | reflexivity]. }
  unfold terminates in T.
  destruct (Handler.tryBlock numberToString net req []) as [[resp|e|] log];
    [now eexists; eexists | now eexists; eexists | now contradiction T].
Qed.

(** X21.  upload-notion.js: the handler sends a request to the API only for
    a POST request whose body has all four fields truthy, with a Markdown
    that is a string and a token that has a text. *)
Theorem X21_no_call_for_bad_request (numberToString : spec_float -> jsstring)
    (net : nat -> Handler.fetchRequest -> outcome Handler.fetchResponse)
    (req : Handler.request) :
  snd (Handler.handler numberToString net req) <> [] ->
  Handler.method req = lit "POST" /\
  exists data p md tok,
    Handler.json req = Ret data /\ Handler.destructure data = Ret p /\ complete p /\
    Handler.markdownContent p = Handler.JString md /\
    Handler.toString numberToString (Handler.notionToken p) = Ret tok.
Proof.
  unfold Handler.handler.
  destruct (streq (Handler.method req) (lit "POST")) eqn:M; cbn [negb];
    [|intros H; now contradiction H].
  apply streq_true in M. intros H. split; [exact M|].
  assert (H' : snd (Handler.tryBlock numberToString net req []) <> []).
  { destruct (Handler.tryBlock numberToString net req []) as [[resp|e|] log]; exact H. }
  clear H. revert H'.
  unfold Handler.tryBlock, Handler.ioBind, Handler.lift, Handler.fetch.
  destruct (Handler.json req) as [data|e|] eqn:J; try (intros H; now contradiction H).
  destruct (Handler.destructure data) as [p|e|] eqn:D; try (intros H; now contradiction H).
  match goal with |- context [if ?c then _ else _] => destruct c eqn:C end;
    [intros H; now contradiction H|].
  destruct (Handler.markdownContent p) as [ | | | |md| | ] eqn:Md;
    try (intros H; now contradiction H).
  cbn [Handler.parseMarkdownWithMath].
  destruct (UploadNotion.parseMarkdownWithMath md); try (intros H; now contradiction H).
  unfold Handler.bearer.
  destruct (Handler.toString numberToString (Handler.notionToken p)) as [tok|e|] eqn:T;
    try (intros H; now contradiction H).
  intros _. exists data, p, md, tok.
  split; [reflexivity|]. split; [exact D|]. split; [|split; [exact Md | exact T]].
  apply complete_check_inv. now rewrite Md.
Qed.

(** X22.  upload-notion.js: the first response of the API that is not [ok]
    ends the upload.  If the page creation fails, the handler sends nothing
    else; if the append call number [k] (from 0) is the first to fail,
    exactly the first [k + 1] batches were sent.  In both cases the handler
    responds with the status and the text of that response when
    [new Response] accepts the status with a body (200 to 599, not 204, 205
    or 304); otherwise the constructor throws and the handler responds
    500. *)
Theorem X22_first_failure (numberToString : spec_float -> jsstring)
    (net : nat -> Handler.fetchRequest -> outcome Handler.fetchResponse)
    (data : Handler.jsvalue) (p : Handler.payload) (md tok : jsstring)
    (blocks : list (block UploadNotion.richText))
    (pageResponse : Handler.fetchResponse) :
  Handler.destructure data = Ret p ->
  complete p ->
  Handler.markdownContent p = Handler.JString md ->
  UploadNotion.parseMarkdownWithMath md = Ret blocks ->
  Handler.toString numberToString (Handler.notionToken p) = Ret tok ->
  net 0 (Handler.createRequest (bearerOf tok) p) = Ret pageResponse ->
  (forall errorData,
     Handler.ok pageResponse = false ->
     Handler.r_text pageResponse = Ret errorData ->
     exists resp,
       Handler.handler numberToString net (Handler.Request (lit "POST") (Ret data)) =
         (Ret resp, [Handler.createRequest (bearerOf tok) p]) /\
       (relayable (Handler.r_status pageResponse) ->
        resp = Handler.Response (Handler.r_status pageResponse)
                 (Handler.BodyError
                    (lit "Notion API Error: " ++ toDecimal (Handler.r_status pageResponse) ++
                     lit " - " ++ errorData))
                 Handler.corsHeaders) /\
       (~ relayable (Handler.r_status pageResponse) ->
        exists e, resp = Handler.Response 500 (Handler.BodyServerError e)
                           Handler.corsHeaders)) /\
  (forall pageResult pageId pid k bad errorData,
     Handler.ok pageResponse = true ->
     Handler.r_json pageResponse = Ret pageResult ->
     Handler.getId pageResult = Ret pageId ->
     Handler.toString numberToString pageId = Ret pid ->
     k < length (chunks blocks) ->
     (forall n q, 1 <= n < 1 + k -> exists r, net n q = Ret r /\ Handler.ok r = true) ->
     (forall q, net (1 + k) q = Ret bad) ->
     Handler.ok bad = false ->
     Handler.r_text bad = Ret errorData ->
     exists resp,
       Handler.handler numberToString net (Handler.Request (lit "POST") (Ret data)) =
         (Ret resp,
          Handler.createRequest (bearerOf tok) p ::
          map (Handler.appendRequest (bearerOf tok) (childrenOf pid))
              (firstn (S k) (chunks blocks))) /\
       (relayable (Handler.r_status bad) ->
        resp = Handler.Response (Handler.r_status bad)
                 (Handler.BodyError
                    (lit "Notion API Error appending blocks: " ++
                     toDecimal (Handler.r_status bad) ++ lit " - " ++ errorData))
                 Handler.corsHeaders) /\
       (~ relayable (Handler.r_status bad) ->
        exists e, resp = Handler.Response 500 (Handler.BodyServerError e)
                           Handler.corsHeaders)).
Proof.
  intros Hd Hc Hmd B Ht H0. split.
  - intros errorData Hbad Htext. unfold Handler.handler. cbn [Handler.method].
    change (streq (lit "POST") (lit "POST")) with true. cbn [negb].
    rewrite (tryBlock_created numberToString net _ data p md tok blocks pageResponse
               Hd Hc Hmd B Ht H0).
    cbv zeta. rewrite Hbad, Htext. cbn [negb]. unfold Handler.apiError.
    destruct (Handler.newResponse _ (Handler.r_status pageResponse) _) as [resp|e|] eqn:N.
    + exists resp. split; [reflexivity|]. split.
      * intros R. rewrite (newResponse_relayable _ _ _ R) in N. now injection N.
      * intros R. destruct (newResponse_refused
                              (Handler.BodyError
                                 (lit "Notion API Error: " ++
                                  toDecimal (Handler.r_status pageResponse) ++
                                  lit " - " ++ errorData))
                              _ Handler.corsHeaders R) as (e & E).
        congruence.
    + eexists. split; [reflexivity|]. split.
      * intros R. rewrite (newResponse_relayable _ _ _ R) in N. discriminate N.
      * intros _. now exists e.
    + exfalso. now apply (newResponse_terminates _ _ _ N).
  - intros pageResult pageId pid k bad errorData Hok Hj Hid Hp Hk Hgood Hfail Hbad Htext.
    unfold Handler.handler. cbn [Handler.method].
    change (streq (lit "POST") (lit "POST")) with true. cbn [negb].
    rewrite (tryBlock_created numberToString net _ data p md tok blocks pageResponse
               Hd Hc Hmd B Ht H0).
    cbv zeta. rewrite Hok, Hj, Hid. cbn [negb].
    rewrite (appendLoop_fail numberToString net _ _ tok pid blocks bad errorData
               Ht Hp Hbad Htext (length blocks) 0
               [Handler.createRequest (bearerOf tok) p] k).
    + unfold Handler.apiError.
      destruct (Handler.newResponse _ (Handler.r_status bad) _) as [resp|e|] eqn:N.
      * exists resp. split; [reflexivity|]. split.
        -- intros R. rewrite (newResponse_relayable _ _ _ R) in N. now injection N.
        -- intros R. destruct (newResponse_refused
                                 (Handler.BodyError
                                    (lit "Notion API Error appending blocks: " ++
                                     toDecimal (Handler.r_status bad) ++
                                     lit " - " ++ errorData))
                                 _ Handler.corsHeaders R) as (e & E).
           congruence.
      * eexists. split; [reflexivity|]. split.
        -- intros R. rewrite (newResponse_relayable _ _ _ R) in N. discriminate N.
        -- intros _. now exists e.
      * exfalso. now apply (newResponse_terminates _ _ _ N).
    + unfold Handler.batchSize. lia.
    + exact Hk.
    + intros n q Hn. apply Hgood. simpl in Hn. lia.
    + intros q. apply Hfail.
Qed.

(** X28.  upload-notion.js: the fields of the body are not checked for
    their type.  A POST request with four truthy fields whose Markdown is
    not a string (a number, [true], an array, an object), or whose token
    has no text (an object with a member [toString]), is answered 500, and
    nothing is sent to the API. *)
Theorem X28_type_errors (numberToString : spec_float -> jsstring)
    (net : nat -> Handler.fetchRequest -> outcome Handler.fetchResponse)
    (data : Handler.jsvalue) (p : Handler.payload) :
  Handler.destructure data = Ret p ->
  complete p ->
  (forall md, Handler.markdownContent p <> Handler.JString md) \/
  (exists e, Handler.toString numberToString (Handler.notionToken p) = Throw e) ->
  exists e,
    Handler.handler numberToString net (Handler.Request (lit "POST") (Ret data)) =
    (Ret (Handler.Response 500 (Handler.BodyServerError e) Handler.corsHeaders), []).
Proof.
  intros Hd Hc H. unfold Handler.handler. cbn [Handler.method].
  change (streq (lit "POST") (lit "POST")) with true. cbn [negb].
  unfold Handler.tryBlock, Handler.ioBind, Handler.lift, Handler.fetch.
  cbn [Handler.json]. rewrite Hd, (complete_check p Hc).
  destruct (Handler.markdownContent p) as [ | | | |md| | ] eqn:Md;
    try (now eexists).
  destruct H as [H|(e & H)]; [now contradiction (H md)|].
  cbn [Handler.parseMarkdownWithMath].
  destruct (un_parse_returns md) as (blocks & ->).
  unfold Handler.bearer. rewrite H. now exists e.
Qed.

(** X29.  upload-notion.js: when the page is created but the body of the
    answer is the JSON [null], or is no JSON, the handler responds 500
    after that one request: the page exists and stays empty. *)
Theorem X29_page_without_json (numberToString : spec_float -> jsstring)
    (net : nat -> Handler.fetchRequest -> outcome Handler.fetchResponse)
    (data : Handler.jsvalue) (p : Handler.payload) (md tok : jsstring)
    (pageResponse : Handler.fetchResponse) :
  Handler.destructure data = Ret p ->
  complete p ->
  Handler.markdownContent p = Handler.JString md ->
  Handler.toString numberToString (Handler.notionToken p) = Ret tok ->
  net 0 (Handler.createRequest (bearerOf tok) p) = Ret pageResponse ->
  Handler.ok pageResponse = true ->
  Handler.r_json pageResponse = Ret Handler.JNull \/
  (exists e, Handler.r_json pageResponse = Throw e) ->
  exists e,
    Handler.handler numberToString net (Handler.Request (lit "POST") (Ret data)) =
    (Ret (Handler.Response 500 (Handler.BodyServerError e) Handler.corsHeaders),
     [Handler.createRequest (bearerOf tok) p]).
Proof.
  intros Hd Hc Hmd Ht H0 Hok Hj.
  destruct (un_parse_returns md) as (blocks & B).
  unfold Handler.handler. cbn [Handler.method].
  change (streq (lit "POST") (lit "POST")) with true. cbn [negb].
  rewrite (tryBlock_created numberToString net _ data p md tok blocks pageResponse
             Hd Hc Hmd B Ht H0).
  cbv zeta. rewrite Hok. cbn [negb].
  destruct Hj as [->|(e & ->)]; now eexists.
Qed.

(* ================================================================== *)
(** ** part_001, first file: math to HTML *)
(* ================================================================== *)

(** X23.  The HTML variant of part_001 leaves a text without [$] as it is. *)
Theorem X23_html_plain (markdown : jsstring) :
  ~ In "$"%char markdown -> Part001Html.parseMarkdownWithMath markdown = markdown.
Proof.
  intros H. unfold Part001Html.parseMarkdownWithMath.
  rewrite (replaceAll_absent Part001Html.displayCallback Part001Html.displayMathRegex "$")
    by (simpl; auto).
  cbn [snd].
  rewrite (replaceAll_absent Part001Html.inlineCallback Part001Html.inlineMathRegex "$")
    by (simpl; auto).
  reflexivity.
Qed.

Lemma X23_html_plain_witness :
  Part001Html.parseMarkdownWithMath (lit "# Title with *stars*") =
  lit "# Title with *stars*".
Proof.
  apply X23_html_plain.
  intros H. repeat (destruct H as [H|H]; [discriminate H|]). exact H.
Defined.

Lemma matchAllFrom_hit (r : regex) (bef rem : list ascii) (c : ascii)
    (m : rmatchResult) (st : mstate) :
  matchHere r bef (c :: rem) = Some (m, st) ->
  matchAllFrom r bef (c :: rem) 0 =
  m :: matchAllFrom r (c :: bef) rem (m_end m - m_index m - 1).
Proof. intros H. cbn [matchAllFrom]. now rewrite H. Qed.

Lemma noDollar_In (c : jsstring) :
  Forall (fun a => inClass (CNoneOf ["$"%char]) a = true) c -> ~ In "$"%char c.
Proof.
  intros H Hin. apply (proj1 (Forall_forall _ _) H) in Hin. discriminate Hin.
Qed.

Lemma html_display_hit (c : jsstring) :
  c <> [] ->
  Forall (fun a => inClass (CNoneOf ["$"%char]) a = true) c ->
  exists m st,
    matchHere Part001Html.displayMathRegex []
      ("$"%char :: "$"%char :: c ++ ["$"%char; "$"%char]) = Some (m, st) /\
    m_index m = 0 /\ m_end m = length c + 4 /\ m_groupStr 1 m = c.
Proof.
  intros Hne Hc.
  destruct (takeWhile_all (inClass (CNoneOf ["$"%char])) c ["$"%char] "$" Hc eq_refl)
    as [T D].
  destruct (rep_greedy_head (CNoneOf ["$"%char]) [] (c ++ ["$"%char; "$"%char]) 1
              ["$"%char; "$"%char]) as (tl & E).
  { rewrite T. destruct c; [contradiction | simpl; lia]. }
  rewrite T, D in E.
  set (s1 := MState ["$"%char; "$"%char] (c ++ ["$"%char; "$"%char]) []).
  set (h := MState (rev c ++ ["$"%char; "$"%char]) ["$"%char; "$"%char] []) in *.
  assert (A : advances s1 h c) by (split; reflexivity).
  destruct (advances_text s1 h c A) as [_ P].
  assert (R : exists tl',
             rmatch Part001Html.displayMathRegex
               (MState [] ("$"%char :: "$"%char :: c ++ ["$"%char; "$"%char]) []) =
             MState ("$"%char :: "$"%char :: rev c ++ ["$"%char; "$"%char]) [] [(1, c)]
             :: tl').
  { unfold Part001Html.displayMathRegex, rcat, RPlus. cbn [fold_right].
    rewrite rmatch_seq_eq, rmatch_char_hit, flat_map_one.
    rewrite rmatch_seq_eq, rmatch_char_hit, flat_map_one.
    rewrite rmatch_seq_eq, rmatch_group_eq, rmatch_rep_eq.
    cbn [consumed remaining captures]. rewrite E. cbn [map flat_map].
    fold s1. unfold setCapture at 1. rewrite P.
    unfold h at 1 2 3. cbn [consumed remaining captures].
    rewrite rmatch_seq_eq, rmatch_char_hit, flat_map_one.
    rewrite rmatch_seq_eq, rmatch_char_hit, flat_map_one. cbn [rmatch app].
    now eexists. }
  destruct R as (tl' & R).
  unfold matchHere. rewrite R. eexists. eexists. split; [reflexivity|].
  unfold m_groupStr, m_group, position.
  cbn [m_index m_end m_caps consumed lookupCapture Nat.eqb length].
  repeat split. rewrite length_app, length_rev. simpl. lia.
Qed.

(** X24.  The HTML variant of part_001 on a lone display equation: [$$],
    a non-empty content without [$], [$$] becomes a [div] of class
    [display-math] around the content, and the inline pass leaves it so. *)
Theorem X24_html_display (c : jsstring) :
  c <> [] ->
  Forall (fun a => inClass (CNoneOf ["$"%char]) a = true) c ->
  Part001Html.parseMarkdownWithMath (lit "$$" ++ c ++ lit "$$") =
  lit "<div class='display-math'>" ++ c ++ lit "</div>".
Proof.
  intros Hne Hc. destruct (html_display_hit c Hne Hc) as (m & st & M & I & N & G).
  unfold Part001Html.parseMarkdownWithMath.
  assert (F : snd (replaceAll Part001Html.displayCallback Part001Html.displayMathRegex
                     (lit "$$" ++ c ++ lit "$$") tt) =
              lit "<div class='display-math'>" ++ c ++ lit "</div>").
  { unfold replaceAll, matchAll.
    change (lit "$$" ++ c ++ lit "$$")
      with ("$"%char :: "$"%char :: c ++ ["$"%char; "$"%char]).
    rewrite (matchAllFrom_hit _ _ _ _ m st M), I, N.
    replace (length c + 4 - 0 - 1) with (length ("$"%char :: c ++ ["$"%char; "$"%char]))
      by (simpl; rewrite length_app; simpl; lia).
    rewrite (matchAllFrom_skip Part001Html.displayMathRegex "$") by (simpl; auto).
    cbn [replaceFold Part001Html.displayCallback snd]. rewrite I, N, G.
    rewrite substringFrom_skipn by (simpl; rewrite length_app; simpl; lia).
    rewrite skipn_all2 by (simpl; rewrite length_app; simpl; lia).
    change (substring ("$"%char :: "$"%char :: c ++ ["$"%char; "$"%char]) 0 0)
      with (@nil ascii).
    now rewrite app_nil_r. }
  rewrite F.
  rewrite (replaceAll_absent Part001Html.inlineCallback Part001Html.inlineMathRegex "$");
    [reflexivity | simpl; auto |].
  intros Hin. apply in_app_or in Hin as [Hin|Hin].
  - unfold lit in Hin. simpl in Hin.
    repeat (destruct Hin as [Hin|Hin]; [discriminate Hin|]). exact Hin.
  - apply in_app_or in Hin as [Hin|Hin]; [now apply (noDollar_In c Hc)|].
    unfold lit in Hin. simpl in Hin.
    repeat (destruct Hin as [Hin|Hin]; [discriminate Hin|]). exact Hin.
Qed.

Lemma X24_html_display_witness :
  Part001Html.parseMarkdownWithMath (lit "$$E=mc^2$$") =
  lit "<div class='display-math'>E=mc^2</div>".
Proof.
  apply (X24_html_display (lit "E=mc^2")).
  - discriminate.
  - repeat constructor.
Defined.

Lemma samplePayload_complete : complete samplePayload.
Proof. repeat split. Qed.

Lemma X19_upload_success_witness :
  exists blocks,
    UploadNotion.parseMarkdownWithMath (lit "# a") = Ret blocks /\
    Handler.handler noNumber okNet (Handler.Request (lit "POST") (Ret sampleData)) =
      (Ret (Handler.Response 200 (Handler.BodyJson samplePage) Handler.corsHeaders),
       Handler.createRequest (bearerOf (lit "secret")) samplePayload ::
       map (Handler.appendRequest (bearerOf (lit "secret")) (childrenOf (lit "page-1")))
           (chunks blocks)) /\
    concat (chunks blocks) = blocks /\
    Forall (fun b => 1 <= length b <= 100) (chunks blocks).
Proof.
  apply (X19_upload_success noNumber okNet sampleData samplePayload (lit "# a")
           (lit "secret") (lit "page-1") okResponse samplePage
           (Handler.JString (lit "page-1"))).
  - reflexivity.
  - exact samplePayload_complete.
  - reflexivity.
  - reflexivity.
  - reflexivity.
  - reflexivity.
  - reflexivity.
  - reflexivity.
  - reflexivity.
  - intros n q _. exists okResponse. split; reflexivity.
Defined.

Lemma X20_handler_responds_witness :
  exists resp log,
    Handler.handler noNumber refusingNet (Handler.Request (lit "POST") (Ret sampleData)) =
    (Ret resp, log).
Proof.
  apply X20_handler_responds.
  - intros n q. unfold refusingNet. destruct (Nat.eqb n 1).
    + split; [discriminate|]. intros r [= <-]. split; discriminate.
    + split; [discriminate|]. intros r [= <-]. split; discriminate.
  - discriminate.
Defined.

Lemma X21_no_call_for_bad_request_witness :
  Handler.method (Handler.Request (lit "POST") (Ret sampleData)) = lit "POST" /\
  exists data p md tok,
    Handler.json (Handler.Request (lit "POST") (Ret sampleData)) = Ret data /\
    Handler.destructure data = Ret p /\ complete p /\
    Handler.markdownContent p = Handler.JString md /\
    Handler.toString noNumber (Handler.notionToken p) = Ret tok.
Proof.
  apply (X21_no_call_for_bad_request noNumber okNet).
  discriminate.
Defined.

Lemma relayable_429 : relayable 429.
Proof.
  split; [lia|]. intros H. repeat (destruct H as [H|H]; [discriminate H|]). exact H.
Qed.

Lemma X22_first_failure_witness :
  exists resp,
    Handler.handler noNumber refusingNet (Handler.Request (lit "POST") (Ret sampleData)) =
      (Ret resp,
       Handler.createRequest (bearerOf (lit "secret")) samplePayload ::
       map (Handler.appendRequest (bearerOf (lit "secret")) (childrenOf (lit "page-1")))
           (firstn 1 (chunks [Heading 1 [UploadNotion.Text (lit "a")]]))) /\
    (relayable 429 ->
     resp = Handler.Response 429
              (Handler.BodyError (lit "Notion API Error appending blocks: " ++
                                  toDecimal 429 ++ lit " - " ++ lit "slow down"))
              Handler.corsHeaders) /\
    (~ relayable 429 ->
     exists e, resp = Handler.Response 500 (Handler.BodyServerError e) Handler.corsHeaders).
Proof.
  apply (proj2 (X22_first_failure noNumber refusingNet sampleData samplePayload
                  (lit "# a") (lit "secret") [Heading 1 [UploadNotion.Text (lit "a")]]
                  okResponse eq_refl samplePayload_complete eq_refl eq_refl eq_refl eq_refl)
           samplePage (Handler.JString (lit "page-1")) (lit "page-1") 0 refusal
           (lit "slow down")).
  - reflexivity.
  - reflexivity.
  - reflexivity.
  - reflexivity.
  - simpl. lia.
  - intros n q Hn. lia.
  - intros q. reflexivity.
  - reflexivity.
  - reflexivity.
Defined.

Lemma X28_type_errors_witness :
  exists e,
    Handler.handler noNumber okNet
      (Handler.Request (lit "POST")
         (Ret (Handler.JObject
                 [(lit "title", Handler.JString (lit "Notes"));
                  (lit "markdownContent", Handler.JBool true);
                  (lit "notionToken", Handler.JString (lit "secret"));
                  (lit "parentPageId", Handler.JString (lit "parent-1"))]))) =
    (Ret (Handler.Response 500 (Handler.BodyServerError e) Handler.corsHeaders), []).
Proof.
  apply (X28_type_errors noNumber okNet _
           (Handler.Payload (Handler.JString (lit "Notes")) (Handler.JBool true)
              (Handler.JString (lit "secret")) (Handler.JString (lit "parent-1")))).
  - reflexivity.
  - repeat split.
  - left. intros md. discriminate.
Defined.

Lemma X29_page_without_json_witness :
  exists e,
    Handler.handler noNumber
      (fun n q => Ret (Handler.FetchResponse 200 (Ret (lit "null")) (Ret Handler.JNull)))
      (Handler.Request (lit "POST") (Ret sampleData)) =
    (Ret (Handler.Response 500 (Handler.BodyServerError e) Handler.corsHeaders),
     [Handler.createRequest (bearerOf (lit "secret")) samplePayload]).
Proof.
  apply (X29_page_without_json noNumber _ sampleData samplePayload (lit "# a") (lit "secret")
           (Handler.FetchResponse 200 (Ret (lit "null")) (Ret Handler.JNull))).
  - reflexivity.
  - repeat split.
  - reflexivity.
  - reflexivity.
  - reflexivity.
  - reflexivity.
  - left. reflexivity.
Defined.

(* ================================================================== *)
(** ** part_001: the formatting pass can be undone *)
(* ================================================================== *)

Lemma lookup_app_skip (n : nat) (new old : list (nat * jsstring)) :
  Forall (fun kv => fst kv <> n) new ->
  lookupCapture n (new ++ old) = lookupCapture n old.
Proof.
  induction 1 as [|[k v] new Hk Hnew IH]; simpl; [reflexivity|].
  simpl in Hk. destruct (Nat.eqb k n) eqn:E; [|exact IH].
  apply Nat.eqb_eq in E. contradiction.
Qed.

Lemma rmatch_caps_keys (r : regex) :
  forall st st', In st' (rmatch r st) ->
    exists new, captures st' = new ++ captures st /\
                Forall (fun kv => In (fst kv) (groups r)) new.
Proof.
  induction r as [|cs|g min cs|r1 IH1 r2 IH2|n r IH| |cs|cs]; intros st st' Hin;
    simpl in Hin.
  - destruct Hin as [<-|[]]. now exists [].
  - destruct (remaining st) as [|c rem']; [contradiction|].
    destruct (inClass cs c); [|contradiction]. destruct Hin as [<-|[]]. now exists [].
  - apply rep_spec in Hin as (x & _ & _ & _ & ->). now exists [].
  - apply in_flat_map in Hin as (mid & Hm & Hin).
    apply IH1 in Hm as (n1 & E1 & F1). apply IH2 in Hin as (n2 & E2 & F2).
    exists (n2 ++ n1). split; [now rewrite E2, E1, app_assoc|].
    simpl. apply Forall_app; split.
    + eapply Forall_impl; [|exact F2]. intros kv H. apply in_or_app. now right.
    + eapply Forall_impl; [|exact F1]. intros kv H. apply in_or_app. now left.
  - apply in_map_iff in Hin as (mid & <- & Hm).
    apply IH in Hm as (n1 & E1 & F1). simpl. rewrite E1.
    eexists ((n, _) :: n1). split; [reflexivity|].
    constructor; [simpl; now left|].
    eapply Forall_impl; [|exact F1]. intros kv H. simpl. now right.
  - destruct (consumed st); [|contradiction]. destruct Hin as [<-|[]]. now exists [].
  - exists []. destruct (consumed st) as [|c ?]; [|destruct (inClass cs c); [contradiction|]];
      destruct Hin as [<-|[]]; auto.
  - exists []. destruct (remaining st) as [|c ?]; [|destruct (inClass cs c); [contradiction|]];
      destruct Hin as [<-|[]]; auto.
Qed.

Lemma shape_ext (r : regex) (c1 c2 : list (nat * jsstring)) :
  (forall n, In n (groups r) -> lookupCapture n c1 = lookupCapture n c2) ->
  shape r c1 = shape r c2.
Proof.
  induction r as [|cs|g min cs|r1 IH1 r2 IH2|n r IH| |cs|cs]; intros H; simpl;
    try reflexivity.
  - rewrite IH1, IH2; [reflexivity| |]; intros n Hn; apply H; simpl; apply in_or_app; auto.
  - apply H. simpl. now left.
Qed.

Lemma NoDup_app_disjoint {A : Type} (l l' : list A) (a : A) :
  NoDup (l ++ l') -> In a l -> ~ In a l'.
Proof.
  induction l as [|b l IH]; intros H Hin; [contradiction|].
  simpl in H. inversion H as [|? ? Hb Hnd]; subst.
  destruct Hin as [->|Hin]; [|now apply IH].
  intros Ha. apply Hb. apply in_or_app. now right.
Qed.

Lemma rmatch_shape (r : regex) :
  forall st st' txt,
    In st' (rmatch r st) -> NoDup (groups r) ->
    shape r (captures st') = Some txt -> advances st st' txt.
Proof.
  induction r as [|cs|g min cs|r1 IH1 r2 IH2|n r IH| |cs|cs];
    intros st st' txt Hin Hnd Hs; simpl in Hin.
  - destruct Hin as [<-|[]]. injection Hs as <-. apply advances_refl.
  - destruct (remaining st) as [|c rem'] eqn:E; [contradiction|].
    destruct (inClass cs c) eqn:C; [|contradiction]. destruct Hin as [<-|[]].
    destruct cs as [l| | |]; try discriminate Hs.
    destruct l as [|c0 [|c1 l]]; try discriminate Hs.
    simpl in Hs. injection Hs as <-.
    simpl in C. rewrite orb_false_r in C. apply Ascii.eqb_eq in C; subst c0.
    split; simpl; auto.
  - discriminate Hs.
  - apply in_flat_map in Hin as (mid & Hm & Hin).
    simpl in Hnd, Hs.
    destruct (shape r1 (captures st')) as [a|] eqn:S1; [|discriminate].
    destruct (shape r2 (captures st')) as [b|] eqn:S2; [|discriminate].
    injection Hs as <-.
    pose proof (NoDup_app_remove_l _ _ Hnd) as Hnd2.
    pose proof (NoDup_app_remove_r _ _ Hnd) as Hnd1.
    apply (advances_trans st mid st'); [|now apply IH2].
    apply IH1; [exact Hm | exact Hnd1|].
    rewrite <- S1. apply shape_ext. intros k Hk.
    destruct (rmatch_caps_keys r2 _ _ Hin) as (new & -> & F).
    symmetry. apply lookup_app_skip.
    eapply Forall_impl; [|exact F]. intros kv Hkv Heq. cbv beta in Hkv, Heq. rewrite Heq in Hkv.
    exact (NoDup_app_disjoint _ _ k Hnd Hk Hkv).
  - apply in_map_iff in Hin as (mid & <- & Hm).
    simpl in Hs. rewrite Nat.eqb_refl in Hs. injection Hs as <-.
    destruct (rmatch_advances r _ _ Hm) as (x & Hx & _).
    destruct (advances_text _ _ _ Hx) as [_ ->].
    destruct Hx as [H1 H2]. split; simpl; auto.
  - destruct (consumed st); [|contradiction]. destruct Hin as [<-|[]].
    injection Hs as <-. apply advances_refl.
  - injection Hs as <-.
    destruct (consumed st) as [|c ?]; [|destruct (inClass cs c); [contradiction|]];
      destruct Hin as [<-|[]]; apply advances_refl.
  - injection Hs as <-.
    destruct (remaining st) as [|c ?]; [|destruct (inClass cs c); [contradiction|]];
      destruct Hin as [<-|[]]; apply advances_refl.
Qed.

Lemma isMatchOf_shape (r : regex) (m : rmatchResult) (txt : jsstring) :
  isMatchOf r m -> NoDup (groups r) -> shape r (m_caps m) = Some txt ->
  m_text m = txt.
Proof.
  intros (bef & rem & st & Hin & ->) Hnd Hs. simpl in *.
  pose proof (rmatch_shape r _ _ txt Hin Hnd Hs) as A.
  apply advances_text in A as [_ A]. exact A.
Qed.

Lemma NoDup_one (n : nat) : NoDup [n].
Proof. constructor; [intros [] | constructor]. Qed.

Lemma NoDup_one_two : NoDup [1; 2].
Proof.
  constructor; [intros [H|[]]; discriminate H | apply NoDup_one].
Qed.

(** The text of a match is the source of the item it becomes. *)
Lemma p1_pattern_source (p : Part001.pattern) (m : rmatchResult) :
  In p Part001.patterns -> isMatchOf (Part001.p_regex p) m ->
  render (Part001.formatted (Part001.mkMatch p m)) = m_text m.
Proof.
  intros Hp Hm. symmetry.
  destruct Hp as [<-|[<-|[<-|[<-|[]]]]]; cbn [Part001.p_regex] in Hm.
  - destruct (isMatchOf_group _ _ 1 Hm eq_refl (or_introl eq_refl)) as (g & E & _).
    apply (isMatchOf_shape Part001.re_bold m _ Hm (NoDup_one 1)).
    unfold Part001.formatted, Part001.mkMatch, m_groupStr. rewrite E.
    unfold m_group in E. simpl. rewrite E. reflexivity.
  - destruct (isMatchOf_group _ _ 1 Hm eq_refl (or_introl eq_refl)) as (g & E & _).
    apply (isMatchOf_shape Part001.re_italic m _ Hm (NoDup_one 1)).
    unfold Part001.formatted, Part001.mkMatch, m_groupStr. rewrite E.
    unfold m_group in E. simpl. rewrite E. reflexivity.
  - destruct (isMatchOf_group _ _ 1 Hm eq_refl (or_introl eq_refl)) as (g & E & _).
    apply (isMatchOf_shape Part001.re_code m _ Hm (NoDup_one 1)).
    unfold Part001.formatted, Part001.mkMatch, m_groupStr. rewrite E.
    unfold m_group in E. simpl. rewrite E. reflexivity.
  - destruct (isMatchOf_group _ _ 1 Hm eq_refl (or_introl eq_refl)) as (g & E & _).
    destruct (isMatchOf_group _ _ 2 Hm eq_refl (or_intror (or_introl eq_refl)))
      as (u & E2 & Hu).
    apply (isMatchOf_shape Part001.re_link m _ Hm NoDup_one_two).
    unfold Part001.formatted, Part001.mkMatch, m_groupStr. rewrite E, E2.
    apply truthy_nonempty in Hu. rewrite Hu.
    unfold m_group in E, E2. simpl. rewrite E, E2. simpl.
    rewrite <- ?app_assoc. reflexivity.
Qed.

Lemma execLoop_positions (r : regex) :
  forall fuel rem bef ms,
    execLoop fuel r bef rem = Ret ms ->
    Forall (fun m => isMatchOf r m /\ liesIn (rev bef ++ rem) m) ms.
Proof.
  induction fuel as [|fuel IH]; intros rem bef ms; simpl; [discriminate|].
  destruct (search r bef rem) as [[m st]|] eqn:E.
  - destruct (execLoop fuel r (consumed st) (remaining st)) as [ms'| |] eqn:R; simpl;
      try discriminate.
    intros [= <-]. apply search_spec in E as (Hm & pre & x & H1 & H2 & _ & H4 & _ & H6).
    apply IH in R. rewrite H2, H1 in *.
    assert (T : rev (rev x ++ rev pre ++ bef) ++ remaining st =
                rev bef ++ pre ++ x ++ remaining st).
    { rewrite !rev_app_distr, !rev_involutive, <- !app_assoc. reflexivity. }
    rewrite T in R. constructor; [|exact R].
    split; [exact Hm|]. exists (rev bef ++ pre), (remaining st).
    rewrite H6, <- app_assoc. split; [reflexivity|].
    rewrite H4, length_app, length_rev. reflexivity.
  - intros [= <-]. constructor.
Qed.

Lemma firstn_skipn_mid {A : Type} (a x b : list A) :
  firstn (length x) (skipn (length a) (a ++ x ++ b)) = x.
Proof.
  rewrite skipn_app, skipn_all, Nat.sub_diag. simpl.
  rewrite firstn_app, firstn_all, Nat.sub_diag. simpl. apply app_nil_r.
Qed.

Lemma p1_collect_spans (text : jsstring) :
  forall ps ms, incl ps Part001.patterns ->
    Part001.collect ps text = Ret ms -> Forall (goodSpan text) ms.
Proof.
  induction ps as [|p ps IH]; intros ms Hincl; simpl.
  - intros [= <-]. constructor.
  - assert (Hp : In p Part001.patterns) by (apply Hincl; now left).
    destruct (search (Part001.p_regex p) [] text) as [[m0 st0]|] eqn:S0.
    + destruct (execLoop (length text) (Part001.p_regex p) (consumed st0) (remaining st0))
        as [found| |] eqn:E; simpl; try discriminate.
      destruct (Part001.collect ps text) as [rest| |] eqn:C; simpl; try discriminate.
      intros [= <-].
      assert (F : execLoop (S (length text)) (Part001.p_regex p) [] text =
                  Ret (m0 :: found)) by (simpl; now rewrite S0, E).
      apply execLoop_positions in F. simpl in F.
      change (map (Part001.mkMatch p) (m0 :: found) ++ rest)
        with (Part001.mkMatch p m0 :: map (Part001.mkMatch p) found ++ rest).
      change (Part001.mkMatch p m0 :: map (Part001.mkMatch p) found ++ rest)
        with (map (Part001.mkMatch p) (m0 :: found) ++ rest).
      apply Forall_app; split; [|apply (IH rest); auto; intros q Hq; apply Hincl; now right].
      apply Forall_forall. intros fm Hfm. apply in_map_iff in Hfm as (m & <- & Hin).
      destruct (proj1 (Forall_forall _ _) F m Hin) as (Hm & a & b & T & I).
      pose proof (isMatchOf_text _ _ Hm) as L.
      pose proof (proj1 (Forall_forall _ _) p1_patterns_progress p Hp) as P.
      cbv beta in P.
      unfold goodSpan. cbn [Part001.mkMatch Part001.f_start Part001.f_end].
      fold (Part001.mkMatch p m). rewrite (p1_pattern_source p m Hp Hm).
      rewrite I. split; [lia|]. split.
      * rewrite T, !length_app. lia.
      * replace (length a + length (m_text m) - length a) with (length (m_text m)) by lia.
        rewrite T. apply firstn_skipn_mid.
    + destruct (Part001.collect ps text) as [rest| |] eqn:C; simpl; try discriminate.
      intros [= <-]. simpl. apply (IH rest); auto. intros q Hq. apply Hincl. now right.
Qed.

Lemma StronglySorted_snoc {A : Type} (R : A -> A -> Prop) (l : list A) (x : A) :
  StronglySorted R l -> Forall (fun a => R a x) l -> StronglySorted R (l ++ [x]).
Proof.
  induction 1 as [|a l Hl IH Ha]; intros Hx; simpl.
  - repeat constructor.
  - inversion Hx as [|? ? Hax Hx']; subst. constructor; [now apply IH|].
    apply Forall_app; split; [exact Ha | now constructor].
Qed.

Lemma p1_keepFrom_chain :
  forall l acc,
    StronglySorted byStart l ->
    Forall (fun m => Part001.f_start m < Part001.f_end m) l ->
    StronglySorted endsBefore acc ->
    (forall a x, In a acc -> In x l -> byStart a x) ->
    StronglySorted endsBefore (keepFrom acc l).
Proof.
  induction l as [|x l IH]; intros acc Hs Hne Hacc Hord; [exact Hacc|].
  rewrite keepFrom_cons.
  inversion Hs as [|? ? Hs' Hx]; subst. inversion Hne as [|? ? Nx Hne']; subst.
  destruct (existsb (Part001.overlaps x) acc) eqn:E.
  - apply IH; auto. intros a y Ha Hy. apply Hord; [exact Ha | now right].
  - apply IH; auto.
    + apply StronglySorted_snoc; [exact Hacc|].
      apply Forall_forall. intros a Ha.
      assert (O : Part001.overlaps x a = false).
      { destruct (Part001.overlaps x a) eqn:O; [|reflexivity].
        assert (existsb (Part001.overlaps x) acc = true)
          by (apply existsb_exists; now exists a).
        congruence. }
      pose proof (Hord a x Ha (or_introl eq_refl)) as B.
      unfold Part001.overlaps in O. unfold byStart in B. unfold endsBefore.
      apply andb_false_iff in O as [O|O]; apply Nat.ltb_ge in O; lia.
    + intros a y Ha Hy. apply in_app_or in Ha as [Ha|[<-|[]]].
      * apply Hord; [exact Ha | now right].
      * exact (proj1 (Forall_forall _ _) Hx y Hy).
Qed.

Lemma substring_le (s : jsstring) (a b : nat) :
  a <= b -> b <= length s -> substring s a b = firstn (b - a) (skipn a s).
Proof.
  intros H1 H2. unfold substring.
  rewrite (Nat.min_l a (length s)), (Nat.min_l b (length s)) by lia.
  now rewrite Nat.min_l, Nat.max_r by lia.
Qed.

Lemma firstn_extend {A : Type} (l : list A) :
  forall a b, a <= b -> firstn a l ++ firstn (b - a) (skipn a l) = firstn b l.
Proof.
  induction l as [|x l IH]; intros a b H.
  - now rewrite skipn_nil, !firstn_nil.
  - destruct a as [|a]; [simpl; now rewrite Nat.sub_0_r|].
    destruct b as [|b]; [lia|]. simpl. f_equal. apply IH. lia.
Qed.

Lemma p1_build_render (text : jsstring) :
  forall ms parts lastEnd,
    Forall (goodSpan text) ms ->
    StronglySorted endsBefore ms ->
    Forall (fun m => lastEnd <= Part001.f_start m) ms ->
    lastEnd <= length text ->
    concat (map render parts) = firstn lastEnd text ->
    concat (map render (fst (fold_left (Part001.buildStep text) ms (parts, lastEnd)))) =
    firstn (snd (fold_left (Part001.buildStep text) ms (parts, lastEnd))) text /\
    snd (fold_left (Part001.buildStep text) ms (parts, lastEnd)) <= length text.
Proof.
  induction ms as [|m ms IH]; intros parts lastEnd Hg Hs Hl Hle Hc; [now split|].
  inversion Hg as [|? ? (G1 & G2 & G3) Hg']; subst.
  inversion Hs as [|? ? Hs' Hm]; subst.
  inversion Hl as [|? ? Lm Hl']; subst.
  cbn [fold_left Part001.buildStep]. apply IH; auto.
  rewrite !map_app, !concat_app, Hc. cbn [map concat]. rewrite app_nil_r, <- G3.
  assert (B : concat (map render
                (if Nat.ltb lastEnd (Part001.f_start m)
                 then if truthy (substring text lastEnd (Part001.f_start m))
                      then [Part001.plain (substring text lastEnd (Part001.f_start m))]
                      else []
                 else [])) =
              firstn (Part001.f_start m - lastEnd) (skipn lastEnd text)).
  { destruct (Nat.ltb lastEnd (Part001.f_start m)) eqn:E.
    - rewrite substring_le by lia.
      destruct (firstn (Part001.f_start m - lastEnd) (skipn lastEnd text)) eqn:F;
        simpl; [reflexivity | now rewrite app_nil_r].
    - apply Nat.ltb_ge in E. replace (Part001.f_start m - lastEnd) with 0 by lia.
      reflexivity. }
  rewrite B, app_assoc, firstn_extend by exact Lm.
  apply firstn_extend. lia.
Qed.

(** X25.  part_001: the formatting pass loses nothing and invents
    nothing.  Whatever the text, writing every returned part back as
    Markdown (a plain part as it is, a bold part between [**], an italic one
    between [*], a code part between backquotes, a link as [[text](url)])
    and putting the pieces together gives the text again. *)
Theorem X25_formatting_round_trip (text : jsstring) (parts : list Part001.richText) :
  Part001.processTextFormatting text = Ret parts ->
  concat (map render parts) = text.
Proof.
  unfold Part001.processTextFormatting.
  destruct (Part001.collect Part001.patterns text) as [ms| |] eqn:C; simpl;
    try discriminate.
  pose proof (p1_collect_spans text _ ms (incl_refl _) C) as G.
  set (valid := Part001.keepValid (Part001.sortByStart ms)).
  assert (Gv : Forall (goodSpan text) valid).
  { apply (p1_keepFrom_Forall (goodSpan text)); [|constructor].
    now apply p1_sortByStart_Forall. }
  assert (Sv : StronglySorted endsBefore valid).
  { apply (p1_keepFrom_chain (Part001.sortByStart ms) []).
    - apply Sorted_StronglySorted.
      + intros a b c. unfold byStart. lia.
      + apply (proj1 (p1_sort_from ms [] (Sorted_nil _))).
    - apply p1_sortByStart_Forall. eapply Forall_impl; [|exact G].
      intros m (H & _). exact H.
    - constructor.
    - intros a x []. }
  pose proof (p1_build_render text valid [] 0 Gv Sv) as B.
  destruct B as [B1 B2].
  { apply Forall_forall. intros; lia. }
  { lia. }
  { reflexivity. }
  destruct (fold_left (Part001.buildStep text) valid ([], 0)) as [ps lastEnd].
  cbn [fst snd] in B1, B2.
  assert (P1 : concat (map render
                 (if Nat.ltb lastEnd (length text)
                  then if truthy (substringFrom text lastEnd)
                       then ps ++ [Part001.plain (substringFrom text lastEnd)]
                       else ps
                  else ps)) = text).
  { destruct (Nat.ltb lastEnd (length text)) eqn:E.
    - rewrite substringFrom_skipn by lia.
      destruct (truthy (skipn lastEnd text)) eqn:T.
      + rewrite map_app, concat_app, B1. simpl. rewrite app_nil_r.
        apply firstn_skipn.
      + destruct (skipn lastEnd text) eqn:K; [|discriminate].
        rewrite B1. rewrite <- (firstn_skipn lastEnd text) at 2.
        now rewrite K, app_nil_r.
    - apply Nat.ltb_ge in E. rewrite B1. apply firstn_all2. lia. }
  intros [= <-].
  match goal with |- context [if ?c then _ else _] => destruct c eqn:F end;
    [|exact P1].
  apply andb_true_iff in F as [F1 F2]. apply Nat.eqb_eq in F1.
  apply length_zero_iff_nil in F1. rewrite F1 in P1. simpl in P1. subst text.
  discriminate F2.
Qed.

Lemma X25_formatting_round_trip_witness :
  concat (map render
    [Part001.Text (lit "a ") None None;
     Part001.Text (lit "b") None (Some Part001.Bold);
     Part001.Text (lit " ") None None;
     Part001.Text (lit "t") (Some (Some (lit "u"))) None;
     Part001.Text (lit " *") None None]) =
  lit "a **b** [t](u) *".
Proof.
  apply (X25_formatting_round_trip (lit "a **b** [t](u) *")). reflexivity.
Defined.

(* ================================================================== *)
(** ** part_000 and part_001: how the conversion ends *)
(* ================================================================== *)

Lemma p0_mathLoop_bounds :
  forall rest i acc,
    i <= fst (Part000.mathLoop rest i acc) <= i + length rest.
Proof.
  induction rest as [|l rest IH]; intros i acc; simpl; [lia|].
  destruct (endsWith (trim l) (lit "$$")); simpl; [lia|].
  specialize (IH (S i) (acc ++ [l])). lia.
Qed.

Lemma p0_iteration_step (lines : list jsstring) (i : nat) (raw : jsstring) :
  nth_error lines i = Some raw ->
  i < fst (Part000.iteration lines i raw) <= S (length lines) /\
  length (snd (Part000.iteration lines i raw)) = 1 /\
  (startsWith (trim raw) (lit "$$") = false ->
   fst (Part000.iteration lines i raw) = S i).
Proof.
  intros H. pose proof (skipn_S_length lines i raw H) as L.
  unfold Part000.iteration.
  destruct (startsWith (trim raw) (lit "$$")) eqn:M.
  - pose proof (p0_mathLoop_bounds (skipn (S i) lines) (S i) []) as B.
    destruct (Part000.mathLoop (skipn (S i) lines) (S i) []) as [i' mc].
    simpl in *. repeat split; try lia; discriminate.
  - destruct (startsWith (trim raw) (lit "#")); [simpl; repeat split; lia|].
    destruct (truthy (trim raw)); simpl; repeat split; lia.
Qed.

Lemma p0_scanLoop_count (lines : list jsstring) :
  forall fuel i, length lines <= fuel + i ->
    exists bs,
      Part000.scanLoop fuel lines i = Ret bs /\
      length bs <= length lines - i /\
      (i < length lines -> 1 <= length bs) /\
      (Forall (fun l => startsWith (trim l) (lit "$$") = false) lines ->
       length bs = length lines - i).
Proof.
  induction fuel as [|fuel IH]; intros i Hf; simpl;
    destruct (nth_error lines i) as [raw|] eqn:E.
  - assert (i < length lines) by (apply nth_error_Some; congruence). lia.
  - apply nth_error_None in E. exists []. simpl. repeat split; try lia.
  - assert (Hi : i < length lines) by (apply nth_error_Some; congruence).
    destruct (p0_iteration_step lines i raw E) as (P & O & N).
    destruct (Part000.iteration lines i raw) as [i' pushed]. simpl in P, O, N.
    destruct (IH i') as (rest & -> & C1 & _ & C3); [lia|].
    simpl. eexists. split; [reflexivity|]. rewrite length_app, O.
    repeat split; try lia.
    intros Hn. rewrite (C3 Hn).
    rewrite N; [lia|]. apply (proj1 (Forall_forall _ _) Hn). eapply nth_error_In; eauto.
  - apply nth_error_None in E. exists []. simpl. repeat split; try lia.
Qed.

Lemma splitOn_length (sep : ascii) (s : jsstring) : 1 <= length (splitOn sep s).
Proof.
  pose proof (splitOn_nonempty sep s). destruct (splitOn sep s); [contradiction|].
  simpl. lia.
Qed.

(** X26.  part_000: the conversion returns on every document, with at
    least one block and at most one block per line; when no line opens
    display math the blocks are exactly as many as the lines, a blank line
    giving an empty paragraph. *)
Theorem X26_part000_returns (markdownContent : jsstring) :
  exists blocks,
    Part000.parseMarkdownWithMath markdownContent = Ret blocks /\
    1 <= length blocks <= length (splitOn LF markdownContent) /\
    (Forall (fun l => startsWith (trim l) (lit "$$") = false)
            (splitOn LF markdownContent) ->
     length blocks = length (splitOn LF markdownContent)).
Proof.
  pose proof (splitOn_length LF markdownContent) as L.
  destruct (p0_scanLoop_count (splitOn LF markdownContent)
              (length (splitOn LF markdownContent)) 0) as (bs & E & C1 & C2 & C3); [lia|].
  exists bs. split; [exact E|]. split; [lia|].
  intros H. rewrite (C3 H). lia.
Qed.

Lemma p1_restoreSegments_throw (ph : list jsstring) (annot : option Part001.annotations) :
  forall segments e,
    Part001.restoreSegments ph annot segments = Throw e -> e = typeError.
Proof.
  induction segments as [|seg rest IH]; intros e; simpl; [discriminate|].
  destruct (Part001.restoreSegment ph annot seg) as [its|e'|] eqn:E; simpl;
    try discriminate.
  - destruct (Part001.restoreSegments ph annot rest) as [more|e'|] eqn:R; simpl;
      try discriminate. intros [= <-]. now apply IH.
  - intros [= <-]. unfold Part001.restoreSegment in E.
    destruct (startsWith seg (lit "__MATH_") && endsWith seg (lit "__")).
    + destruct (matchFirst Part001.re_digits seg) as [m|]; [|now injection E].
      destruct (nth_error ph (parseDigits (m_text m))); discriminate.
    + destruct (truthy seg); discriminate.
Qed.

Lemma p1_restoreParts_throw (ph : list jsstring) :
  forall parts e, Part001.restoreParts ph parts = Throw e -> e = typeError.
Proof.
  induction parts as [|part rest IH]; intros e; simpl; [discriminate|].
  destruct (Part001.restorePart ph part) as [its|e'|] eqn:E; simpl; try discriminate.
  - destruct (Part001.restoreParts ph rest) as [more|e'|] eqn:R; simpl;
      try discriminate. intros [= <-]. now apply IH.
  - intros [= <-]. destruct part as [content link annot|x];
      unfold Part001.restorePart in E; [|discriminate].
    destruct (includes content (lit "__MATH_")); [|discriminate].
    now apply p1_restoreSegments_throw in E.
Qed.

Lemma p1_processRichText_throw (text : jsstring) (e : string) :
  Part001.processRichText text = Throw e -> e = typeError.
Proof.
  unfold Part001.processRichText.
  destruct (replaceAll Part001.protectMath Part001.re_inline_math text (0, []))
    as [[idx ph] tempText].
  destruct (p1_processTextFormatting_returns tempText) as (parts & -> & _).
  simpl. apply p1_restoreParts_throw.
Qed.

Lemma p1_iteration_throw (lines : list jsstring) (i : nat) (raw : jsstring) (e : string) :
  Part001.iteration lines i raw = Throw e -> e = typeError.
Proof.
  unfold Part001.iteration.
  repeat match goal with
  | |- context [let '(_, _) := ?p in _] => destruct p
  | |- context [bind (Part001.processRichText ?t) _] =>
      pose proof (p1_processRichText_throw t);
      destruct (Part001.processRichText t); simpl
  | |- context [if ?c then _ else _] => destruct c
  end; try discriminate; intros [= <-]; auto.
Qed.

Lemma p1_iteration_one (lines : list jsstring) (i : nat) (raw : jsstring)
    (step : nat * list (block Part001.richText)) :
  Part001.iteration lines i raw = Ret step -> length (snd step) = 1.
Proof.
  intros H. apply p1_check_order in H.
  destruct (firstMatch (lit "$") (trim raw)).
  - destruct H as (b & -> & _). reflexivity.
  - now rewrite H.
Qed.

Lemma p1_scanLoop_ends (lines : list jsstring) :
  forall fuel i, length lines <= fuel + i ->
    (exists bs, Part001.scanLoop fuel lines i = Ret bs /\
                length bs <= length lines - i /\
                (i < length lines -> 1 <= length bs)) \/
    Part001.scanLoop fuel lines i = Throw typeError.
Proof.
  induction fuel as [|fuel IH]; intros i Hf; simpl;
    destruct (nth_error lines i) as [raw|] eqn:E.
  - assert (i < length lines) by (apply nth_error_Some; congruence). lia.
  - apply nth_error_None in E. left. exists []. simpl. repeat split; lia.
  - assert (Hi : i < length lines) by (apply nth_error_Some; congruence).
    pose proof (p1_iteration_terminates lines i raw) as T. unfold terminates in T.
    destruct (Part001.iteration lines i raw) as [step|e|] eqn:It; simpl;
      [| right; now rewrite (p1_iteration_throw _ _ _ _ It) | contradiction].
    pose proof (p1_iteration_progress lines i raw step E It) as P.
    pose proof (p1_iteration_one lines i raw step It) as O.
    destruct (IH (fst step)) as [(rest & -> & C1 & _)| ->]; [lia| |now right].
    left. simpl. eexists. split; [reflexivity|]. rewrite length_app, O.
    split; lia.
  - apply nth_error_None in E. left. exists []. simpl. repeat split; lia.
Qed.

(** X27.  part_001: the conversion ends on every document in one of two
    ways: it returns between one block and one block per line, or it throws
    the [TypeError] of the placeholder restoration; it never loops and
    throws nothing else. *)
Theorem X27_part001_ends (markdownContent : jsstring) :
  (exists blocks,
     Part001.parseMarkdownWithMath markdownContent = Ret blocks /\
     1 <= length blocks <= length (splitOn LF markdownContent)) \/
  Part001.parseMarkdownWithMath markdownContent = Throw typeError.
Proof.
  pose proof (splitOn_length LF markdownContent) as L.
  destruct (p1_scanLoop_ends (splitOn LF markdownContent)
              (length (splitOn LF markdownContent)) 0) as [(bs & E & C1 & C2)|E]; [lia| |].
  - left. exists bs. split; [exact E | lia].
  - now right.
Qed.
